(** * dsas-cca-backend: session handling, fetch retry and cache reconciliation

    A shallow embedding of
      - engage-api/get-activity.ts  (credential store, login handshake,
        validity probe, fetch client, fetch orchestrator),
      - services/redis-service.ts   (the key-value cache),
      - services/s3-service.ts      (public URLs, listing, deletion),
      - services/cache-manager.ts   (population, staleness sweep, staff
        refresh, orphan cleanup),
      - index.ts                    (fetchProcessAndStoreActivity, the activity
        and staff routes),
      - engage-api/struct-staff.ts  (the staff map),
      - utils/image-processor.ts    (extractBase64Image).

    Asynchronous functions are state-passing functions over a [World]; every
    call that leaves the process (HTTP, file system, Redis, S3, the clock)
    reads its reply from an [Env], a family of replies indexed by the number
    of interactions made so far.  Quantifying over [Env] quantifies over
    every behaviour of the surroundings.  A JavaScript exception is the
    [Throw] outcome. *)

From Stdlib Require Import String Ascii ZArith List Bool Lia.
From stdpp Require Import base option list strings gmap pretty.

Set Warnings "-register-all".
Local Open Scope string_scope.
Local Open Scope Z_scope.

(** ** JavaScript strings

    Header values and keys are sequences of 8-bit code units. *)

Module Js.

(** White space of [String.prototype.trim] among the code units 0..255. *)
Definition is_white_space (c : ascii) : bool :=
  match c with
  | "009" | "010" | "011" | "012" | "013" | " " | "160" => true
  | _ => false
  end%char.

Fixpoint trimStart (s : string) : string :=
  match s with
  | EmptyString => EmptyString
  | String c r => if is_white_space c then trimStart r else s
  end.

Definition trimEnd (s : string) : string :=
  String.rev (trimStart (String.rev s)).

Definition trim (s : string) : string := trimEnd (trimStart s).

Definition startsWith (s p : string) : bool := String.prefix p s.

Definition strlen (s : string) : Z := Z.of_nat (String.length s).

(** [s.substring(n)] for [0 <= n]. *)
Fixpoint substring_from (n : nat) (s : string) : string :=
  match n, s with
  | O, _ => s
  | S _, EmptyString => EmptyString
  | S n', String _ r => substring_from n' r
  end.

(** [s.split(sep)[0]] for a one-character separator: the text before the
    first separator (the whole string when there is none). *)
Fixpoint split_first (sep : ascii) (s : string) : string :=
  match s with
  | EmptyString => EmptyString
  | String c r => if Ascii.eqb c sep then EmptyString else String c (split_first sep r)
  end.

Definition endsWith_char (s : string) (c : ascii) : bool :=
  match String.rev s with
  | String d _ => Ascii.eqb d c
  | EmptyString => false
  end.

(** [s.replace(/\/$/, '')] *)
Definition strip_trailing_slash (s : string) : string :=
  match String.rev s with
  | String "/" r => String.rev r
  | _ => s
  end.

(** [s.replace(/^\//, '')] *)
Definition strip_leading_slash (s : string) : string :=
  match s with
  | String "/" r => r
  | _ => s
  end.

(** Truthiness of a [string | null | undefined]. *)
Definition nonempty (s : string) : bool :=
  match s with EmptyString => false | _ => true end.

Definition truthy_str (o : option string) : bool :=
  match o with Some s => nonempty s | None => false end.

End Js.

(** ** JSON values *)

Inductive json : Type :=
| JNull
| JBool (b : bool)
| JNum (n : Z)
| JStr (s : string)
| JArr (items : list json)
| JObj (fields : list (string * json)).

Module Obj.

(** Own properties of an object, in insertion order. *)
Fixpoint get (k : string) (fs : list (string * json)) : option json :=
  match fs with
  | [] => None
  | (k', v) :: r => if String.eqb k' k then Some v else get k r
  end.

(** [o[k] = v]: overwrite in place, or append a new property. *)
Fixpoint set (k : string) (v : json) (fs : list (string * json)) : list (string * json) :=
  match fs with
  | [] => [(k, v)]
  | (k', v') :: r => if String.eqb k' k then (k', v) :: r else (k', v') :: set k v r
  end.

End Obj.

(** [x.k] for a value [x] that is neither [null] nor [undefined]; [None] is
    [undefined].  Only objects carry the properties read here. *)
Definition prop (k : string) (x : json) : option json :=
  match x with
  | JObj fs => Obj.get k fs
  | _ => None
  end.

Definition truthy (x : json) : bool :=
  match x with
  | JNull => false
  | JBool b => b
  | JNum n => negb (n =? 0)
  | JStr s => Js.nonempty s
  | JArr _ | JObj _ => true
  end.

Definition truthy_opt (x : option json) : bool :=
  match x with Some v => truthy v | None => false end.

(** [Object.keys(x).length === 0] for a truthy parsed value. *)
Definition has_no_keys (x : json) : bool :=
  match x with
  | JObj [] | JArr [] => true
  | JObj _ | JArr _ => false
  | JStr s => negb (Js.nonempty s)
  | _ => true
  end.

(** ** Errors, effects and the world *)

Inductive JsError : Type :=
| AxiosError (response : option Z)      (* error.response?.status *)
| AuthenticationError (status : Z)
| FsError (code : string)
| SyntaxError
| TypeError
| PlainError (message : string).

Inductive Effect : Type :=
| EvHttpGetLogin
| EvHttpPostLogin (cookie : string)
| EvHttpPostDetails (activityID cookie : string)
| EvSleep (ms : Z)
| EvReadFile
| EvWriteFile (content : string)
| EvUnlink
| EvRedisGet (key : string)
| EvRedisSet (key value : string)
| EvRedisScan
| EvS3List (pfx : string)
| EvS3Put (key : string)
| EvS3Delete (key : string)
| EvProcess (activityId : string).

Record World : Type := mkWorld {
  clock : nat;                        (* interactions made so far *)
  inMemoryCookie : option string;     (* _inMemoryCookie *)
  cookieFile : option string;         (* content of COOKIE_FILE_PATH, if it exists *)
  redis : gmap string string;
  trace : list Effect                 (* oldest first *)
}.

Inductive Outcome (A : Type) : Type :=
| Ok (a : A)
| Throw (e : JsError).
Arguments Ok {A} a.
Arguments Throw {A} e.

Definition M (A : Type) : Type := World -> Outcome A * World.

Definition ret {A} (a : A) : M A := fun w => (Ok a, w).

Definition bind {A B} (m : M A) (k : A -> M B) : M B :=
  fun w => match m w with
           | (Ok a, w') => k a w'
           | (Throw e, w') => (Throw e, w')
           end.

Definition throw {A} (e : JsError) : M A := fun w => (Throw e, w).

(** [try { m } catch (e) { h e }] *)
Definition try_catch {A} (m : M A) (h : JsError -> M A) : M A :=
  fun w => match m w with
           | (Ok a, w') => (Ok a, w')
           | (Throw e, w') => h e w'
           end.

Declare Scope js_scope.
Delimit Scope js_scope with js.
Notation "x <- m ;; k" := (bind m (fun x => k))
  (at level 100, m at next level, right associativity) : js_scope.
Notation "m ;;; k" := (bind m (fun _ => k))
  (at level 100, right associativity) : js_scope.
Local Open Scope js_scope.

(** Take the index of the next reply of the surroundings. *)
Definition tick : M nat :=
  fun w => (Ok (clock w),
            mkWorld (S (clock w)) (inMemoryCookie w) (cookieFile w) (redis w) (trace w)).

Definition note (ev : Effect) : M unit :=
  fun w => (Ok tt,
            mkWorld (clock w) (inMemoryCookie w) (cookieFile w) (redis w)
                    (trace w ++ [ev])).

(** One interaction with the surroundings: note it and take its index. *)
Definition interact (ev : Effect) : M nat :=
  note ev ;;; tick.

Definition set_inMemoryCookie (c : option string) : M unit :=
  fun w => (Ok tt, mkWorld (clock w) c (cookieFile w) (redis w) (trace w)).

Definition set_cookieFile (c : option string) : M unit :=
  fun w => (Ok tt, mkWorld (clock w) (inMemoryCookie w) c (redis w) (trace w)).

Definition set_redis (r : gmap string string) : M unit :=
  fun w => (Ok tt, mkWorld (clock w) (inMemoryCookie w) (cookieFile w) r (trace w)).

Definition get_world : M World := fun w => (Ok w, w).

Fixpoint mapM {A B} (f : A -> M B) (l : list A) : M (list B) :=
  match l with
  | [] => ret []
  | a :: r => b <- f a ;; bs <- mapM f r ;; ret (b :: bs)
  end.

Fixpoint foldM {A B} (f : B -> A -> M B) (acc : B) (l : list A) : M B :=
  match l with
  | [] => ret acc
  | a :: r => acc' <- f acc a ;; foldM f acc' r
  end.

(** [for (const a of l) { await f(a) }] *)
Fixpoint for_each {A} (f : A -> M unit) (l : list A) : M unit :=
  match l with
  | [] => ret tt
  | a :: r => f a ;;; for_each f r
  end.

(** The result and the final world of a run. *)
Definition result {A} (m : M A) (w : World) : Outcome A := fst (m w).
Definition after {A} (m : M A) (w : World) : World := snd (m w).

(** ** The surroundings

    Replies of the outside world, indexed by the interaction's number. *)

Inductive Reply (E A : Type) : Type :=
| Fails (e : E)
| Gives (a : A).
Arguments Fails {E A} e.
Arguments Gives {E A} a.

Record S3Page : Type := mkS3Page {
  contents : option (list (option string));  (* result.contents, each item's key *)
  isTruncated : option bool
}.

Record Env : Type := mkEnv {
  (* JSON.parse on a string; [None] is a SyntaxError *)
  JSON_parse : string -> option json;
  JSON_stringify : json -> string;
  (* new Date(x).getTime(); [None] is NaN *)
  Date_getTime : json -> option Z;
  (* GET Login.aspx: rejected (with error.response?.status), or the
     response's set-cookie header *)
  http_get_login : nat -> Reply (option Z) (option (list string));
  (* POST Login.aspx, maxRedirects 0, status 200..399 accepted *)
  http_post_login : nat -> Reply (option Z) (option (list string));
  (* POST GetActivityDetails: rejected, or response.data *)
  http_post_details : nat -> Reply (option Z) string;
  (* an operation on the cookie file: rejected with err.code and without
     effect, or it acts on the file as it is *)
  fs_reply : nat -> Reply string unit;
  (* readFile(templateFilePath) *)
  template_file : nat -> Reply string string;
  (* Date.now() in milliseconds, and new Date().toISOString() *)
  Date_now : nat -> Z;
  toISOString_now : nat -> string;
  (* a Redis command is rejected *)
  redis_fails : nat -> bool;
  (* the replies [cursor, keys] of the SCAN iterations of one scan *)
  redis_scan : nat -> list (Reply unit (string * option (list string)));
  (* the pages of one listing *)
  s3_list : nat -> list (Reply unit S3Page);
  s3_delete_fails : nat -> bool;
  (* decoding, re-encoding and writing an image; the uuid of its key *)
  s3_upload_fails : nat -> bool;
  uuidv4 : nat -> string;
  (* the normalisers of engage-api/struct-activity.ts and struct-staff.ts,
     which return an object (its properties) or throw *)
  structActivityData : nat -> json -> Outcome (list (string * json));
  structStaffData : nat -> json -> Outcome (list (string * json));
  (* utils/image-processor extractBase64Image: { base64Content, format } or null *)
  extractBase64Image : string -> Outcome (option (string * string))
}.

(** Process configuration, read from the environment variables at load. *)
Record Config : Type := mkConfig {
  API_USERNAME : option string;
  API_PASSWORD : option string;
  MIN_ACTIVITY_ID_SCAN : Z;
  MAX_ACTIVITY_ID_SCAN : Z;
  CLUB_UPDATE_INTERVAL_MINS : Z;
  STAFF_UPDATE_INTERVAL_MINS : Z;
  FIXED_STAFF_ACTIVITY_ID : option string;
  S3_ENDPOINT : option string;
  BUCKET_NAME : option string;
  S3_PUBLIC_URL_PREFIX : option string;
  s3Client_configured : bool;   (* s3Client !== null *)
  redisClient_configured : bool (* redisClient !== null *)
}.

(** [String(x)] as [JSON.parse] applies it to an argument that is not a
    string; [None] is [undefined]. *)
Fixpoint ToString (x : json) : string :=
  match x with
  | JNull => "null"
  | JBool true => "true"
  | JBool false => "false"
  | JNum n => pretty n
  | JStr s => s
  | JArr l =>
      (fix join (l : list json) : string :=
         match l with
         | [] => ""
         | [a] => match a with JNull => "" | _ => ToString a end
         | a :: r => (match a with JNull => "" | _ => ToString a end) +:+ "," +:+ join r
         end) l
  | JObj _ => "[object Object]"
  end.

Definition ToString_opt (x : option json) : string :=
  match x with Some v => ToString v | None => "undefined" end.

(** Outcome of the login block of the orchestrator. *)
Inductive LoginStep : Type :=
| Return_null
| Continue_with (cookie : string).

Inductive Step (A : Type) : Type :=
| Return (a : A)     (* the function returns *)
| Continue.          (* control falls through *)
Arguments Return {A} a.
Arguments Continue {A}.

(** * engage-api/get-activity.ts *)

Section GetActivity.
Context (env : Env).

Definition JSON_parse_str (s : string) : M json :=
  match JSON_parse env s with
  | Some v => ret v
  | None => throw SyntaxError
  end.

Definition JSON_parse_any (x : option json) : M json :=
  JSON_parse_str (ToString_opt x).

(** [x.k]; a TypeError when [x] is [null]. *)
Definition read_prop (k : string) (x : json) : M (option json) :=
  match x with
  | JNull => throw TypeError
  | _ => ret (prop k x)
  end.

(** [new AuthenticationError(message, status)]: [this.status = status || 0] *)
Definition new_AuthenticationError (status : Z) : JsError :=
  AuthenticationError (if status =? 0 then 0 else status).

(** [error.response], as its status *)
Definition error_response (e : JsError) : option Z :=
  match e with
  | AxiosError r => r
  | _ => None
  end.

(** ** Cookie cache *)

Definition readFile_cookie : M string :=
  t <- interact EvReadFile ;;
  match fs_reply env t with
  | Fails code => throw (FsError code)
  | Gives _ =>
      w <- get_world ;;
      match cookieFile w with
      | Some c => ret c
      | None => throw (FsError "ENOENT")
      end
  end.

Definition writeFile_cookie (content : string) : M unit :=
  t <- interact (EvWriteFile content) ;;
  match fs_reply env t with
  | Fails code => throw (FsError code)
  | Gives _ => set_cookieFile (Some content)
  end.

Definition unlink_cookie : M unit :=
  t <- interact EvUnlink ;;
  match fs_reply env t with
  | Fails code => throw (FsError code)
  | Gives _ =>
      w <- get_world ;;
      match cookieFile w with
      | Some _ => set_cookieFile None
      | None => throw (FsError "ENOENT")
      end
  end.

Definition loadCachedCookie : M (option string) :=
  w <- get_world ;;
  if Js.truthy_str (inMemoryCookie w) then ret (inMemoryCookie w)
  else
    try_catch
      (cookieFromFile <- readFile_cookie ;;
       if Js.nonempty cookieFromFile
       then set_inMemoryCookie (Some cookieFromFile) ;;; ret (Some cookieFromFile)
       else ret None)
      (fun _ => ret None).

Definition saveCookieToCache (cookieString : string) : M unit :=
  if negb (Js.nonempty cookieString) then ret tt
  else
    set_inMemoryCookie (Some cookieString) ;;;
    try_catch (writeFile_cookie cookieString) (fun _ => ret tt).

Definition clearCookieCache : M unit :=
  set_inMemoryCookie None ;;;
  try_catch unlink_cookie (fun _ => ret tt).

(** ** HTTP calls *)

Definition axios_post_details (activityID cookie : string) : M string :=
  t <- interact (EvHttpPostDetails activityID cookie) ;;
  match http_post_details env t with
  | Fails st => throw (AxiosError st)
  | Gives data => ret data
  end.

Definition axios_get_login : M (option (list string)) :=
  t <- interact EvHttpGetLogin ;;
  match http_get_login env t with
  | Fails st => throw (AxiosError st)
  | Gives hdr => ret hdr
  end.

Definition axios_post_login (cookie : string) : M (option (list string)) :=
  t <- interact (EvHttpPostLogin cookie) ;;
  match http_post_login env t with
  | Fails st => throw (AxiosError st)
  | Gives hdr => ret hdr
  end.

Definition readFile_template : M string :=
  t <- interact EvReadFile ;;
  match template_file env t with
  | Fails code => throw (FsError code)
  | Gives data => ret data
  end.

(** ** Validity probe *)

Definition MAX_RETRIES : nat := 3.

(** The [while (attempt < MAX_RETRIES)] loop, entered with [attempt]; [fuel]
    bounds the iterations and [MAX_RETRIES - attempt] of it are used. *)
Fixpoint testCookieValidity_loop (fuel attempt : nat) (cookieString : string) : M bool :=
  match fuel with
  | O => ret false
  | S fuel' =>
      if (MAX_RETRIES <=? attempt)%nat then ret false
      else
        let attempt := S attempt in
        step <- try_catch
                  (axios_post_details "3350" cookieString ;;; ret (Return true))
                  (fun _ => if (MAX_RETRIES <=? attempt)%nat then ret (Return false)
                            else ret Continue) ;;
        match step with
        | Return b => ret b
        | Continue => testCookieValidity_loop fuel' attempt cookieString
        end
  end.

Definition testCookieValidity (cookieString : string) : M bool :=
  if negb (Js.nonempty cookieString) then ret false
  else testCookieValidity_loop MAX_RETRIES 0 cookieString.

(** ** Login handshake *)

Definition SESSION_PREFIX : string := "ASP.NET_SessionId=".
Definition FORMSAUTH_PREFIX : string := ".ASPXFORMSAUTH=".

Definition getSessionId : M (option string) :=
  try_catch
    (setCookieHeader <- axios_get_login ;;
     match setCookieHeader with
     | Some ((_ :: _) as hdr) =>
         match List.find (fun cookie => Js.startsWith (Js.trim cookie) SESSION_PREFIX) hdr with
         | Some sessionIdCookie =>
             if Js.nonempty sessionIdCookie then
               let part := Js.split_first ";" sessionIdCookie in
               ret (if Js.nonempty part then Some part else None)
             else ret None
         | None => ret None
         end
     | _ => ret None
     end)
    (fun error => throw error).

(** The first part of a candidate, [aspxAuthCookies[i].split(';')[0].trim()]. *)
Definition firstPart (cookie : string) : string :=
  Js.trim (Js.split_first ";" cookie).

(** The test applied to a first part: longer than the prefix and with a
    non-empty remainder after it. *)
Definition has_value (part : string) : bool :=
  (Js.strlen FORMSAUTH_PREFIX <? Js.strlen part) &&
  (0 <? Js.strlen (Js.substring_from (String.length FORMSAUTH_PREFIX) part)).

(** [for (let i = n - 1; i >= 0; i--)], entered with [i = n - 1]. *)
Fixpoint scanFormsAuth (n : nat) (aspxAuthCookies : list string) : option string :=
  match n with
  | O => None
  | S i =>
      match aspxAuthCookies !! i with
      | Some cookie =>
          if has_value (firstPart cookie) then Some (firstPart cookie)
          else scanFormsAuth i aspxAuthCookies
      | None => None   (* an index past the end is not visited *)
      end
  end.

Definition selectFormsAuth (setCookieHeader : option (list string)) : option string :=
  match setCookieHeader with
  | Some ((_ :: _) as hdr) =>
      let aspxAuthCookies :=
        List.filter (fun cookie => Js.startsWith (Js.trim cookie) FORMSAUTH_PREFIX) hdr in
      if (0 <? length aspxAuthCookies)%nat
      then scanFormsAuth (length aspxAuthCookies) aspxAuthCookies
      else None
  | _ => None
  end.

Definition getMSAUTH (sessionId userName userPwd templateFilePath : string) : M (option string) :=
  try_catch
    (templateData <- readFile_template ;;
     setCookieHeader <- axios_post_login sessionId ;;
     match selectFormsAuth setCookieHeader with
     | Some formsAuthCookieValue =>
         if Js.nonempty formsAuthCookieValue then ret (Some formsAuthCookieValue)
         else ret None
     | None => ret None
     end)
    (fun error => throw error).

Definition getCompleteCookies (userName userPwd templateFilePath : string) : M string :=
  sessionId <- getSessionId ;;
  match sessionId with
  | None => throw (PlainError "Login failed: Could not obtain ASP.NET_SessionId.")
  | Some sessionId =>
      msAuth <- getMSAUTH sessionId userName userPwd templateFilePath ;;
      match msAuth with
      | None => throw (PlainError "Login failed: Could not obtain .ASPXFORMSAUTH cookie.")
      | Some msAuth => ret (sessionId +:+ "; " +:+ msAuth)
      end
  end.

(** ** Fetch client *)

Definition sleep (ms : Z) : M unit :=
  interact (EvSleep ms) ;;; ret tt.

(** One pass through the body of the [for] loop at [attempt]. *)
Definition getActivityDetailsRaw_attempt (activityId cookies : string)
    (maxRetries attempt : nat) : M (Step (option string)) :=
  try_catch
    (data <- axios_post_details activityId cookies ;;
     outerData <- JSON_parse_str data ;;
     match (if truthy outerData then prop "d" outerData else None) with
     | Some (JStr d) =>
         innerData <- JSON_parse_str d ;;
         isError <- read_prop "isError" innerData ;;
         if truthy_opt isError then ret (Return None)
         else ret (Return (Some data))
     | _ => ret Continue
     end)
    (fun error =>
       match error_response error with
       | Some status =>
           if (400 <=? status) && (status <? 500)
           then throw (new_AuthenticationError status)
           else
             if (attempt =? maxRetries - 1)%nat then throw error
             else sleep (1000 * (Z.of_nat attempt + 1)) ;;; ret Continue
       | None =>
           if (attempt =? maxRetries - 1)%nat then throw error
           else sleep (1000 * (Z.of_nat attempt + 1)) ;;; ret Continue
       end).

(** [for (let attempt = ...; attempt < maxRetries; attempt++)], entered
    with [attempt]; [fuel] bounds the iterations. *)
Fixpoint getActivityDetailsRaw_loop (fuel : nat) (activityId cookies : string)
    (maxRetries attempt : nat) : M (option string) :=
  match fuel with
  | O => ret None
  | S fuel' =>
      if (maxRetries <=? attempt)%nat then ret None
      else
        step <- getActivityDetailsRaw_attempt activityId cookies maxRetries attempt ;;
        match step with
        | Return r => ret r
        | Continue =>
            getActivityDetailsRaw_loop fuel' activityId cookies maxRetries (S attempt)
        end
  end.

Definition getActivityDetailsRaw (activityId cookies : string) (maxRetries : nat)
  : M (option string) :=
  getActivityDetailsRaw_loop maxRetries activityId cookies maxRetries 0.

(** ** Fetch orchestrator *)

(** [JSON.parse(JSON.parse(raw).d)] *)
Definition parse_details (raw : string) : M json :=
  parsedOuter <- JSON_parse_str raw ;;
  d <- read_prop "d" parsedOuter ;;
  JSON_parse_any d.

(** The attempt shared by the first fetch and the retry: the details, or
    [null] when the client returned nothing. *)
Definition fetch_and_parse (activityId cookie : string) : M json :=
  rawActivityDetailsString <- getActivityDetailsRaw activityId cookie 3 ;;
  if Js.truthy_str rawActivityDetailsString
  then parse_details (default "" rawActivityDetailsString)
  else ret JNull.

Definition fetchActivityData (activityId userName userPwd templateFileName : string)
    (forceLogin : bool) : M json :=
  currentCookie <- (if forceLogin then ret None else loadCachedCookie) ;;
  currentCookie <- (if forceLogin && Js.truthy_str currentCookie
                    then clearCookieCache ;;; ret None
                    else ret currentCookie) ;;
  currentCookie <- (if Js.truthy_str currentCookie then
                      isValid <- testCookieValidity (default "" currentCookie) ;;
                      if negb isValid then clearCookieCache ;;; ret None
                      else ret currentCookie
                    else ret currentCookie) ;;
  login <- (if negb (Js.truthy_str currentCookie) then
              try_catch
                (fresh <- getCompleteCookies userName userPwd templateFileName ;;
                 saveCookieToCache fresh ;;;
                 ret (Continue_with fresh))
                (fun loginError => ret Return_null)
            else ret (Continue_with (default "" currentCookie))) ;;
  match login with
  | Return_null => ret JNull
  | Continue_with currentCookie =>
      if negb (Js.nonempty currentCookie) then ret JNull
      else
        try_catch
          (fetch_and_parse activityId currentCookie)
          (fun error =>
             match error with
             | AuthenticationError _ =>
                 clearCookieCache ;;;
                 try_catch
                   (fresh <- getCompleteCookies userName userPwd templateFileName ;;
                    saveCookieToCache fresh ;;;
                    fetch_and_parse activityId fresh)
                   (fun retryLoginOrFetchError => ret JNull)
             | _ => ret JNull
             end)
  end.

End GetActivity.


(** * services/redis-service.ts *)

Section Services.
Context (env : Env) (cfg : Config).

Definition ACTIVITY_KEY_PREFIX : string := "activity:".
Definition STAFF_KEY : string := "staffs:all".

(** [redisClient.get(key)] *)
Definition redis_get (key : string) : M (option string) :=
  t <- interact (EvRedisGet key) ;;
  if redis_fails env t then throw (PlainError "redis")
  else w <- get_world ;; ret (redis w !! key).

(** [redisClient.set(key, value)] *)
Definition redis_set (key value : string) : M unit :=
  t <- interact (EvRedisSet key value) ;;
  if redis_fails env t then throw (PlainError "redis")
  else w <- get_world ;; set_redis (<[key := value]> (redis w)).

(** [data ? JSON.parse(data) : null] behind the client check and the catch;
    shared by [getActivityData] and [getStaffData]. *)
Definition get_parsed (key : string) : M json :=
  if negb (redisClient_configured cfg) then ret JNull
  else
    try_catch
      (data <- redis_get key ;;
       if Js.truthy_str data then JSON_parse_str env (default "" data)
       else ret JNull)
      (fun _ => ret JNull).

Definition set_stringified (key : string) (data : json) : M unit :=
  if negb (redisClient_configured cfg) then ret tt
  else
    try_catch (redis_set key (JSON_stringify env data)) (fun _ => ret tt).

Definition getActivityData (activityId : string) : M json :=
  get_parsed (ACTIVITY_KEY_PREFIX +:+ activityId).

Definition setActivityData (activityId : string) (data : json) : M unit :=
  set_stringified (ACTIVITY_KEY_PREFIX +:+ activityId) data.

Definition getStaffData : M json := get_parsed STAFF_KEY.

Definition setStaffData (data : json) : M unit := set_stringified STAFF_KEY data.

(** The [do { SCAN } while (cursor !== '0')] loop over the replies of one
    scan.  The loop of the code has no bound; the replies here are a finite
    list, and a list that ends before cursor 0 stands for a rejected
    command, so a scan that never ends has no run here. *)
Fixpoint scan_loop (replies : list (Reply unit (string * option (list string))))
    (keys : list string) : M (list string) :=
  match replies with
  | [] => throw (PlainError "redis")
  | Fails _ :: _ => throw (PlainError "redis")
  | Gives (cursor, foundKeys) :: rest =>
      let keys := (keys ++ default [] foundKeys)%list in
      if String.eqb cursor "0" then ret keys else scan_loop rest keys
  end.

Definition getAllActivityKeys : M (list string) :=
  if negb (redisClient_configured cfg) then ret []
  else
    try_catch
      (t <- interact EvRedisScan ;; scan_loop (redis_scan env t) [])
      (fun _ => ret []).

(** * services/s3-service.ts *)

Definition PUBLIC_URL_FILE_PREFIX : string :=
  Js.strip_trailing_slash
    (if Js.truthy_str (S3_PUBLIC_URL_PREFIX cfg)
     then default "" (S3_PUBLIC_URL_PREFIX cfg) else "files").

Definition constructS3Url (objectKey : string) : string :=
  if negb (Js.truthy_str (S3_ENDPOINT cfg)) || negb (Js.truthy_str (BUCKET_NAME cfg))
  then ""
  else
    let s3Base := Js.strip_trailing_slash (default "" (S3_ENDPOINT cfg)) in
    let bucket :=
      Js.strip_trailing_slash (Js.strip_leading_slash (default "" (BUCKET_NAME cfg))) in
    let key := Js.strip_leading_slash objectKey in
    s3Base +:+ "/" +:+ bucket +:+ "/" +:+ key.

(** The keys kept from one page: [item.key && !item.key.endsWith('/')]. *)
Definition page_keys (items : list (option string)) : list string :=
  omap (fun key => match key with
                   | Some k => if Js.nonempty k && negb (Js.endsWith_char k "/")
                               then Some k else None
                   | None => None
                   end) items.

(** The [while (isTruncated)] loop over the pages of one listing.  The loop
    of the code has no bound; the pages here are a finite list, and a list
    that ends while still truncated stands for a rejected request, so a
    listing that never ends has no run here. *)
Fixpoint listS3Objects_loop (pages : list (Reply unit S3Page))
    (objectKeys : list string) : M (list string) :=
  match pages with
  | [] => throw (PlainError "s3")
  | Fails _ :: _ => throw (PlainError "s3")
  | Gives result :: rest =>
      let objectKeys :=
        match contents result with
        | Some items => (objectKeys ++ page_keys items)%list
        | None => objectKeys
        end in
      let isTruncated := default false (isTruncated result) in
      match contents result with
      | Some [] => ret objectKeys                   (* break *)
      | _ => if isTruncated then listS3Objects_loop rest objectKeys
             else ret objectKeys
      end
  end.

Definition listS3Objects (pfx : string) : M (list string) :=
  if negb (s3Client_configured cfg) then ret []
  else
    try_catch
      (t <- interact (EvS3List pfx) ;; listS3Objects_loop (s3_list env t) [])
      (fun _ => ret []).

(** [s3Client.delete(key)], settled: [true] when fulfilled. *)
Definition s3_delete (key : string) : M bool :=
  t <- interact (EvS3Delete key) ;;
  ret (negb (s3_delete_fails env t)).

Definition BATCH_SIZE : nat := 100.

(** [for (let i = 0; i < keys.length; i += BATCH_SIZE)] over what is left of
    the keys; [fuel] bounds the number of batches. *)
Fixpoint deleteS3Objects_loop (fuel : nat) (remaining : list string)
    (successCount errorCount : nat) : M (nat * nat) :=
  match fuel with
  | O => ret (successCount, errorCount)
  | S fuel' =>
      match remaining with
      | [] => ret (successCount, errorCount)
      | _ =>
          results <- mapM s3_delete (take BATCH_SIZE remaining) ;;
          deleteS3Objects_loop fuel' (drop BATCH_SIZE remaining)
            (successCount + length (List.filter id results))
            (errorCount + length (List.filter negb results))
      end
  end.

Definition deleteS3Objects (objectKeysArray : list string) : M bool :=
  if negb (s3Client_configured cfg) then ret false
  else
    match objectKeysArray with
    | [] => ret true
    | _ =>
        try_catch
          (counts <- deleteS3Objects_loop (length objectKeysArray) objectKeysArray 0 0 ;;
           ret (snd counts =? 0)%nat)
          (fun _ => ret false)
    end.

(** Decoding the image, converting it and writing it under a fresh key are
    one interaction, which fails as a whole. *)
Definition uploadImageFromBase64 (base64Data originalFormat activityId : string)
  : M (option string) :=
  if negb (s3Client_configured cfg) then ret None
  else if negb (Js.nonempty base64Data) || negb (Js.nonempty originalFormat)
          || negb (Js.nonempty activityId) then ret None
  else
    try_catch
      (w <- get_world ;;
       let objectKey :=
         PUBLIC_URL_FILE_PREFIX +:+ "/activity-" +:+ activityId +:+ "-"
           +:+ uuidv4 env (clock w) +:+ ".avif" in
       t <- interact (EvS3Put objectKey) ;;
       if s3_upload_fails env t then throw (PlainError "s3")
       else ret (Some (constructS3Url objectKey)))
      (fun _ => ret None).

(** * services/cache-manager.ts *)

Definition S3_IMAGE_PREFIX : string := PUBLIC_URL_FILE_PREFIX.

Definition new_Date_toISOString : M string :=
  t <- tick ;; ret (toISOString_now env t).

Definition Date_now_ms : M Z :=
  t <- tick ;; ret (Date_now env t).

Definition run_structActivityData (activityJson : json) : M (list (string * json)) :=
  t <- tick ;;
  match structActivityData env t activityJson with
  | Ok o => ret o
  | Throw e => throw e
  end.

Definition run_structStaffData (activityJson : json) : M (list (string * json)) :=
  t <- tick ;;
  match structStaffData env t activityJson with
  | Ok o => ret o
  | Throw e => throw e
  end.

(** The block that moves an embedded [data:image] photo to the object store
    and puts its public URL in the record. *)
Definition offload_photo (activityId : string) (structuredActivity : list (string * json))
  : M (list (string * json)) :=
  match Obj.get "photo" structuredActivity with
  | Some (JStr photo) =>
      if Js.nonempty photo && Js.startsWith photo "data:image" then
        match extractBase64Image env photo with
        | Throw e => throw e
        | Ok None => ret structuredActivity
        | Ok (Some (base64Content, format)) =>
            s3Url <- uploadImageFromBase64 base64Content format activityId ;;
            if Js.truthy_str s3Url
            then ret (Obj.set "photo" (JStr (default "" s3Url)) structuredActivity)
            else ret structuredActivity
        end
      else ret structuredActivity
  | _ => ret structuredActivity
  end.

Definition LOGIN_TEMPLATE : string := "login_template.txt".

(** The [try] statement that is the body of [processAndCacheActivity]. *)
Definition processAndCacheActivity_try (activityId : string) : M json :=
  try_catch
    (if negb (Js.truthy_str (API_USERNAME cfg)) || negb (Js.truthy_str (API_PASSWORD cfg))
     then throw (PlainError "API username or password not configured")
     else
       activityJson <- fetchActivityData env activityId
                         (default "" (API_USERNAME cfg)) (default "" (API_PASSWORD cfg))
                         LOGIN_TEMPLATE false ;;
       structuredActivity <-
         (if negb (truthy activityJson) then
            now <- new_Date_toISOString ;;
            ret [("lastCheck", JStr now); ("source", JStr "api-fetch-empty")]
          else
            structured <- run_structActivityData activityJson ;;
            offload_photo activityId structured) ;;
       now <- new_Date_toISOString ;;
       let structuredActivity := Obj.set "lastCheck" (JStr now) structuredActivity in
       setActivityData activityId (JObj structuredActivity) ;;;
       ret (JObj structuredActivity))
    (fun error =>
       now <- new_Date_toISOString ;;
       let errorData :=
         [("lastCheck", JStr now); ("error", JStr "Failed to fetch or process")] in
       setActivityData activityId (JObj errorData) ;;;
       ret (JObj errorData)).

Definition processAndCacheActivity (activityId : string) : M json :=
  note (EvProcess activityId) ;;;
  processAndCacheActivity_try activityId.

(** The test of the population pass on what the cache returned. *)
Definition needs_init (cachedData : json) : bool :=
  negb (truthy cachedData)
  || has_no_keys cachedData
  || negb (truthy_opt (prop "lastCheck" cachedData))
  || truthy_opt (prop "error" cachedData).

Definition init_job (activityId : string) : M unit :=
  cachedData <- getActivityData activityId ;;
  if needs_init cachedData
  then processAndCacheActivity activityId ;;; ret tt
  else ret tt.

(** The identifiers [MIN_ACTIVITY_ID_SCAN .. MAX_ACTIVITY_ID_SCAN] as
    [String(i)]. *)
Definition scan_ids : list string :=
  (fun i : Z => pretty i) <$>
    seqZ (MIN_ACTIVITY_ID_SCAN cfg) (MAX_ACTIVITY_ID_SCAN cfg - MIN_ACTIVITY_ID_SCAN cfg + 1).

(** The code hands one job per identifier to a limiter that keeps up to
    [CONCURRENT_API_CALLS] of them in flight; here they run one after the
    other, in the order of submission. *)
Definition initializeClubCache : M unit :=
  for_each init_job scan_ids.

(** [(now - lastCheckTime) > updateIntervalMs], false when the time is NaN. *)
Definition older_than (now updateIntervalMs : Z) (lastCheck : option json) : bool :=
  match lastCheck with
  | Some v =>
      match Date_getTime env v with
      | Some lastCheckTime => updateIntervalMs <? now - lastCheckTime
      | None => false
      end
  | None => false
  end.

(** The test of the staleness sweep on what the cache returned. *)
Definition needs_refresh (now updateIntervalMs : Z) (cachedData : json) : bool :=
  if truthy cachedData && truthy_opt (prop "lastCheck" cachedData) then
    older_than now updateIntervalMs (prop "lastCheck" cachedData)
    || truthy_opt (prop "error" cachedData)
  else
    negb (truthy cachedData) || has_no_keys cachedData.

Definition stale_job (now updateIntervalMs : Z) (activityId : string) : M unit :=
  cachedData <- getActivityData activityId ;;
  if needs_refresh now updateIntervalMs cachedData
  then processAndCacheActivity activityId ;;; ret tt
  else ret tt.

(** [key.substring(ACTIVITY_KEY_PREFIX.length)] *)
Definition activityId_of_key (key : string) : string :=
  Js.substring_from (String.length ACTIVITY_KEY_PREFIX) key.

(** The photo of a record when the cleanup counts it as a reference. *)
Definition photo_reference (activityData : json) : option string :=
  if truthy activityData then
    match prop "photo" activityData with
    | Some (JStr photo) =>
        if Js.startsWith photo "http"
           && Js.truthy_str (S3_ENDPOINT cfg)
           && Js.startsWith photo (default "" (S3_ENDPOINT cfg))
        then Some photo else None
    | _ => None
    end
  else None.

Definition collect_referenced (allActivityRedisKeys : list string) : M (gset string) :=
  foldM (fun (referencedS3Urls : gset string) redisKey =>
           activityData <- getActivityData (activityId_of_key redisKey) ;;
           match photo_reference activityData with
           | Some photo => ret ({[photo]} ∪ referencedS3Urls)
           | None => ret referencedS3Urls
           end)
        ∅ allActivityRedisKeys.

(** The selection loop: [if (s3Url && !referencedS3Urls.has(s3Url))]. *)
Definition select_orphans (referencedS3Urls : gset string) (s3ObjectKeys : list string)
  : list string :=
  List.filter (fun objectKey =>
                 let s3Url := constructS3Url objectKey in
                 Js.nonempty s3Url && negb (bool_decide (s3Url ∈ referencedS3Urls)))
              s3ObjectKeys.

Definition s3ObjectListPrefix : string :=
  if Js.nonempty S3_IMAGE_PREFIX then S3_IMAGE_PREFIX +:+ "/" else "".

Definition cleanupOrphanedS3Images : M unit :=
  try_catch
    (allActivityRedisKeys <- getAllActivityKeys ;;
     referencedS3Urls <- collect_referenced allActivityRedisKeys ;;
     s3ObjectKeys <- listS3Objects s3ObjectListPrefix ;;
     match s3ObjectKeys with
     | [] => ret tt
     | _ =>
         let orphanedObjectKeys := select_orphans referencedS3Urls s3ObjectKeys in
         match orphanedObjectKeys with
         | [] => ret tt
         | _ => deleteS3Objects orphanedObjectKeys ;;; ret tt
         end
     end)
    (fun _ => ret tt).

(** The code queues the jobs on the limiter and then awaits the cleanup, so
    the jobs run interleaved with the cleanup and with each other; here the
    cleanup runs to its end and then the jobs run one after the other. *)
Definition updateStaleClubs : M unit :=
  now <- Date_now_ms ;;
  let updateIntervalMs := CLUB_UPDATE_INTERVAL_MINS cfg * 60 * 1000 in
  activityKeys <- getAllActivityKeys ;;
  cleanupOrphanedS3Images ;;;
  for_each (fun key => stale_job now updateIntervalMs (activityId_of_key key)) activityKeys.

(** [needsUpdate] as it stands before the credentials are looked at. *)
Definition staff_needs_update (forceUpdate : bool) (now updateIntervalMs : Z)
    (cachedStaffData : json) : bool :=
  if negb (truthy cachedStaffData)
     || negb (truthy_opt (prop "lastCheck" cachedStaffData))
  then true
  else if older_than now updateIntervalMs (prop "lastCheck" cachedStaffData)
  then true
  else forceUpdate.

Definition staff_credentials : bool :=
  Js.truthy_str (API_USERNAME cfg) && Js.truthy_str (API_PASSWORD cfg)
  && Js.truthy_str (FIXED_STAFF_ACTIVITY_ID cfg).

(** [x.lastCheck = v] on a value that has a truthy [lastCheck]. *)
Definition assign_lastCheck (v : json) (x : json) : json :=
  match x with
  | JObj fs => JObj (Obj.set "lastCheck" v fs)
  | _ => x
  end.

Definition initializeOrUpdateStaffCache (forceUpdate : bool) : M unit :=
  try_catch
    (cachedStaffData <- getStaffData ;;
     now <- Date_now_ms ;;
     let updateIntervalMs := STAFF_UPDATE_INTERVAL_MINS cfg * 60 * 1000 in
     let needsUpdate := staff_needs_update forceUpdate now updateIntervalMs cachedStaffData in
     if needsUpdate && staff_credentials then
       activityJson <- fetchActivityData env (default "" (FIXED_STAFF_ACTIVITY_ID cfg))
                         (default "" (API_USERNAME cfg)) (default "" (API_PASSWORD cfg))
                         LOGIN_TEMPLATE false ;;
       if truthy activityJson then
         staffObject <- run_structStaffData activityJson ;;
         iso <- new_Date_toISOString ;;
         setStaffData (JObj (Obj.set "lastCheck" (JStr iso) staffObject))
       else
         if truthy cachedStaffData && truthy_opt (prop "lastCheck" cachedStaffData) then
           iso <- new_Date_toISOString ;;
           setStaffData (assign_lastCheck (JStr iso) cachedStaffData)
         else ret tt
     else ret tt)
    (fun _ => ret tt).

(** * index.ts *)

Definition fetchProcessAndStoreActivity (activityId : string) : M (json * Z) :=
  activityJson <- fetchActivityData env activityId
                    (default "" (API_USERNAME cfg)) (default "" (API_PASSWORD cfg))
                    LOGIN_TEMPLATE false ;;
  if negb (truthy activityJson) then
    now <- new_Date_toISOString ;;
    let emptyData := JObj [("lastCheck", JStr now); ("source", JStr "api-fetch-empty")] in
    setActivityData activityId emptyData ;;;
    ret (emptyData, 404)
  else
    structured <- run_structActivityData activityJson ;;
    structuredActivity <- offload_photo activityId structured ;;
    now <- new_Date_toISOString ;;
    let structuredActivity := Obj.set "lastCheck" (JStr now) structuredActivity in
    setActivityData activityId (JObj structuredActivity) ;;;
    ret (JObj structuredActivity, 200).

End Services.

(** * utils/image-processor.ts *)

Module Image.

Definition markers : list (string * string) :=
  [("data:image/png;base64,", "png");
   ("data:image/jpeg;base64,", "jpeg");
   ("data:image/jpg;base64,", "jpg");
   ("data:image/gif;base64,", "gif");
   ("data:image/svg+xml;base64,", "svg");
   ("data:image/webp;base64,", "webp")].

(** The [for (const marker of markers)] loop. *)
Fixpoint first_marker (ms : list (string * string)) (dataUrl : string)
  : option (string * string) :=
  match ms with
  | [] => None
  | (pfx, format) :: rest =>
      if Js.startsWith dataUrl pfx
      then Some (Js.substring_from (String.length pfx) dataUrl, format)
      else first_marker rest dataUrl
  end.

(** [extractBase64Image] on a string: [{ base64Content, format }] or [null]. *)
Definition extractBase64Image (dataUrl : string) : option (string * string) :=
  if negb (Js.startsWith dataUrl "data:image/") then None
  else first_marker markers dataUrl.

End Image.

(** * engage-api/struct-staff.ts *)

Module StructStaff.

(** A [Map<string, string>], in insertion order. *)
Definition StaffMap : Type := list (string * string).

Fixpoint map_get (k : string) (m : StaffMap) : option string :=
  match m with
  | [] => None
  | (k', v) :: r => if String.eqb k' k then Some v else map_get k r
  end.

(** [m.set(k, v)]: an existing key keeps its place. *)
Fixpoint map_set (k v : string) (m : StaffMap) : StaffMap :=
  match m with
  | [] => [(k, v)]
  | (k', v') :: r => if String.eqb k' k then (k', v) :: r else (k', v') :: map_set k v r
  end.

(** [m.delete(k)] *)
Fixpoint map_delete (k : string) (m : StaffMap) : StaffMap :=
  match m with
  | [] => []
  | (k', v) :: r => if String.eqb k' k then r else (k', v) :: map_delete k r
  end.

Definition blackList : list string :=
  ["CL1-827"; "CL1-831"; "ID: CL1-832"; "CL1-834";
   "CL1-835"; "CL1-836"; "CL1-838"; "CL1-842"; "CL1-843";
   "CL1-844"; "CL1-845"; "CL1-846"].

(** Names are compared as whole strings; text is held as UTF-8. *)
Definition oddNames : list (string * string) :=
  [("Mr TT15 Pri KinLiu TT15 Pri KinLiu", "Mr Kin Liu");
   ("Mr TT13 Yanni Shen TT13 Yanni Shen", "Mr Yanni Shen");
   ("Mr TT19 Pri Saima Salem TT19 Pri Saima Salem", "Mr Saima Salem");
   ("Ms TT Ca(CCA) TT Ma", "Ms Ca Ma");
   ("Mr JackyT JackyT", "Mr JackyT");
   ("Ms TT Ma TT M", "Ms Ma M");
   ("TT01 Fang TT01 Dong", "Mr Fang Dong");
   ("Mr TT18 Shane Rose TT18 Shane Rose", "Mr Shane Rose");
   ("Ms Caroline Malone(id)", "Ms Caroline Malone");
   ("Ms Marina Mao(id)", "Ms Marina Mao");
   ("Mrs Amy Yuan (Lower Secondary Secretary初中部学部助理)", "Mrs Amy Yuan");
   ("Ms Lily Liu (Primary)", "Ms Lily Liu");
   ("Ms Cindy 薛", "Ms Cindy Xue");
   ("Ms SiSi Li", "Ms Sisi Li")].

Record Staff : Type := mkStaff {
  key : string;   (* "" when missing *)
  val : string    (* "" when missing *)
}.

Record ActivityField : Type := mkField {
  fID : string;
  lParms : option (list (option Staff))   (* an entry may be null *)
}.

Record ActivityRow : Type := mkRow {
  fields : list ActivityField
}.

(** One pass of the inner loop of the name correction: every entry whose
    name is [originalName] gets [correctedName]. *)
Definition correct_name (originalName correctedName : string) (m : StaffMap) : StaffMap :=
  List.map (fun '(id, name) =>
              if String.eqb name originalName then (id, correctedName) else (id, name)) m.

Definition dropOddName (staffsMap : StaffMap) : StaffMap :=
  let staffsMap := fold_left (fun m k => map_delete k m) blackList staffsMap in
  fold_left (fun m '(originalName, correctedName) =>
               correct_name originalName correctedName m)
            oddNames staffsMap.

(** The body of the loop of [updateStaffMap]:
    [if (staff && staff.key) staffsMap.set(staff.key, staff.val || "")]. *)
Definition set_step (staffsMap : StaffMap) (staff : option Staff) : StaffMap :=
  match staff with
  | Some st =>
      if Js.nonempty (key st) then map_set (key st) (val st) staffsMap else staffsMap
  | None => staffsMap
  end.

Definition updateStaffMap (staffsMap : StaffMap) (lParms : option (list (option Staff)))
  : StaffMap :=
  match lParms with
  | None => staffsMap
  | Some l => dropOddName (fold_left set_step l staffsMap)
  end.

(** The first field with [fID === "staff"], rows in order. *)
Definition first_staff_field (rows : list ActivityRow) : option ActivityField :=
  List.find (fun field => String.eqb (fID field) "staff") (concat (List.map fields rows)).

(** [structStaffData] on the module's map [staffs]: the map it returns is
    the module's map from then on. *)
Definition structStaffData (staffs : StaffMap) (newRows : list ActivityRow) : StaffMap :=
  match first_staff_field newRows with
  | Some field => updateStaffMap staffs (lParms field)
  | None => staffs
  end.

End StructStaff.

(** * index.ts: the routes *)

(** [/^\d{1,4}$/.test(s)] *)
Definition is_digit (c : ascii) : bool :=
  let n := nat_of_ascii c in ((48 <=? n) && (n <=? 57))%nat.

Fixpoint all_digits (s : string) : bool :=
  match s with
  | EmptyString => true
  | String c r => is_digit c && all_digits r
  end.

Definition valid_activity_id (s : string) : bool :=
  all_digits s && (1 <=? String.length s)%nat && (String.length s <=? 4)%nat.

(** [Object.keys(x)] of a truthy parsed value. *)
Definition Object_keys (x : json) : list string :=
  match x with
  | JObj fs => List.map fst fs
  | JArr l => List.map (fun i : nat => pretty i) (seq 0 (length l))
  | JStr s => List.map (fun i : nat => pretty i) (seq 0 (String.length s))
  | _ => []
  end.

(** The keys that make a record more than book-keeping. *)
Definition payload_keys (x : json) : list string :=
  List.filter (fun k => negb (String.eqb k "lastCheck") && negb (String.eqb k "cache")
                        && negb (String.eqb k "source"))
              (Object_keys x).

Definition isValidCacheEntry (cachedActivity : json) : bool :=
  truthy cachedActivity
  && negb (truthy_opt (prop "error" cachedActivity))
  && (0 <? length (payload_keys cachedActivity))%nat.

(** [x.cache = v] in a module (strict mode): a property of an object, an
    expando of an array that JSON leaves out, a TypeError on a primitive. *)
Definition assign_cache (v : string) (x : json) : M json :=
  match x with
  | JObj fs => ret (JObj (Obj.set "cache" (JStr v) fs))
  | JArr l => ret (JArr l)
  | _ => throw TypeError
  end.

(** [{ error: message, ...x }] for an object [x]. *)
Definition error_with (message : string) (x : json) : json :=
  match x with
  | JObj fs => JObj (fold_left (fun o '(k, v) => Obj.set k v o) fs [("error", JStr message)])
  | _ => JObj [("error", JStr message)]
  end.

Record Response : Type := mkResponse {
  status : Z;
  body : json
}.

Section Routes.
Context (env : Env) (cfg : Config).

(** [app.get('/v1/activity/:activityId', ...)] *)
Definition route_activity (activityId : string) : M Response :=
  if negb (valid_activity_id activityId) then
    ret (mkResponse 400 (JObj [("error", JStr "Invalid Activity ID format.")]))
  else if negb (Js.truthy_str (API_USERNAME cfg)) || negb (Js.truthy_str (API_PASSWORD cfg))
  then ret (mkResponse 500 (JObj [("error", JStr "Server configuration error.")]))
  else
    try_catch
      (cachedActivity <- getActivityData env cfg activityId ;;
       if isValidCacheEntry cachedActivity then
         hit <- assign_cache "HIT" cachedActivity ;;
         ret (mkResponse 200 hit)
       else
         live <- fetchProcessAndStoreActivity env cfg activityId ;;
         liveActivity <- assign_cache "MISS" (fst live) ;;
         if (snd live =? 404) && (length (payload_keys liveActivity) =? 0)%nat then
           ret (mkResponse 404
                  (error_with ("Activity " +:+ activityId +:+ " not found.") liveActivity))
         else ret (mkResponse (snd live) liveActivity))
      (fun _ =>
         ret (mkResponse 500 (JObj [("error", JStr "An internal server error occurred.");
                                    ("cache", JStr "ERROR")]))).

(** [app.get('/v1/staffs', ...)]; the id is not tested here, and the request
    carries [String(activityId)], which is [undefined] spelled out when
    [FIXED_STAFF_ACTIVITY_ID] is not set. *)
Definition route_staffs : M Response :=
  if negb (Js.truthy_str (API_USERNAME cfg)) || negb (Js.truthy_str (API_PASSWORD cfg))
  then ret (mkResponse 500 (JObj [("error", JStr "Server configuration error.")]))
  else
    try_catch
      (cachedStaffs <- getStaffData env cfg ;;
       if truthy cachedStaffs && truthy_opt (prop "lastCheck" cachedStaffs) then
         hit <- assign_cache "HIT" cachedStaffs ;;
         ret (mkResponse 200 hit)
       else
         activityJson <- fetchActivityData env
                           (default "undefined" (FIXED_STAFF_ACTIVITY_ID cfg))
                           (default "" (API_USERNAME cfg)) (default "" (API_PASSWORD cfg))
                           LOGIN_TEMPLATE false ;;
         if truthy activityJson then
           staffObject <- run_structStaffData env activityJson ;;
           iso <- new_Date_toISOString env ;;
           let staffObject :=
             Obj.set "cache" (JStr "MISS") (Obj.set "lastCheck" (JStr iso) staffObject) in
           setStaffData env cfg (JObj staffObject) ;;;
           ret (mkResponse 200 (JObj staffObject))
         else
           ret (mkResponse 404
                  (JObj [("error", JStr "Could not retrieve base data for staff details.");
                         ("cache", JStr "MISS")])))
      (fun _ =>
         ret (mkResponse 500
                (JObj [("error",
                        JStr "An internal server error occurred while fetching staff data.");
                       ("cache", JStr "ERROR")]))).

End Routes.

(** * Vocabulary of the statements *)

(** A computation that never ends in an exception. *)
Definition nothrow {A} (m : M A) : Prop :=
  forall w, exists a, result m w = Ok a.

(** Every run of [m] takes a world to one related to it by [R]. *)
Definition steps (R : World -> World -> Prop) {A} (m : M A) : Prop :=
  forall w, R w (after m w).

(** A relation on worlds that survives the passing of time and the noting
    of the effects in [allowed]. *)
Record Closed (allowed : Effect -> Prop) (R : World -> World -> Prop) : Prop := {
  closed_refl : forall w, R w w;
  closed_trans : forall a b c, R a b -> R b c -> R a c;
  closed_tick : forall w, R w (after tick w);
  closed_note : forall w ev, allowed ev -> R w (after (note ev) w)
}.

(** One that also survives writes to the two copies of the cookie. *)
Record CookieClosed (R : World -> World -> Prop) : Prop := {
  closed_mem : forall w c, R w (after (set_inMemoryCookie c) w);
  closed_file : forall w c, R w (after (set_cookieFile c) w)
}.

(** The effects of engage-api/get-activity.ts. *)
Definition io_effect (ev : Effect) : Prop :=
  match ev with
  | EvHttpGetLogin | EvHttpPostLogin _ | EvHttpPostDetails _ _ | EvSleep _
  | EvReadFile | EvWriteFile _ | EvUnlink => True
  | _ => False
  end.

(** The effects noted between two worlds of one run. *)
Definition new_effects (w w' : World) : list Effect :=
  drop (length (trace w)) (trace w').

(** The candidates of the response: the headers that, trimmed, start with
    the forms-authentication cookie name. *)
Definition candidates (hdr : list string) : list string :=
  List.filter (fun cookie => Js.startsWith (Js.trim cookie) FORMSAUTH_PREFIX) hdr.

(** The value part of a candidate: what follows the cookie name in its first
    [;]-separated part. *)
Definition value_part (cookie : string) : string :=
  Js.substring_from (String.length FORMSAUTH_PREFIX) (firstPart cookie).

(** The last candidate whose value part is non-empty, as the fragment that
    the login keeps of it. *)
Definition last_nonempty_candidate (setCookieHeader : option (list string)) : option string :=
  firstPart <$>
    last (List.filter (fun c => Js.nonempty (value_part c))
                      (candidates (default [] setCookieHeader))).

(** The world after the interactions [evs]. *)
Definition noted (evs : list Effect) (w : World) : World :=
  mkWorld (clock w + length evs) (inMemoryCookie w) (cookieFile w) (redis w)
          (trace w ++ evs).

(** A rejection whose response status lies in 400..499. *)
Definition is_4xx (st : option Z) : bool :=
  match st with
  | Some s => (400 <=? s) && (s <? 500)
  | None => false
  end.

(** The interactions of [k] attempts that fail and are retried, the first of
    them being attempt number [a + 1]: each is a request followed by a pause
    of as many seconds as the attempt's number. *)
Fixpoint retried_attempts (activityId cookies : string) (a k : nat) : list Effect :=
  match k with
  | O => []
  | S k' =>
      EvHttpPostDetails activityId cookies
        :: EvSleep (1000 * (Z.of_nat a + 1))
        :: retried_attempts activityId cookies (S a) k'
  end.

(** The two copies of the cookie are the same in both worlds. *)
Definition same_cookies (w w' : World) : Prop :=
  inMemoryCookie w' = inMemoryCookie w /\ cookieFile w' = cookieFile w.

(** * Concrete surroundings

    Small environments on which the statements are run. *)

Module Demo.

Definition quote : string := String "034"%char EmptyString.

(** JSON text of a value whose strings need no escaping. *)
Fixpoint JSON_text (x : json) : string :=
  match x with
  | JNull => "null"
  | JBool true => "true"
  | JBool false => "false"
  | JNum n => pretty n
  | JStr s => quote +:+ s +:+ quote
  | JArr l =>
      "[" +:+
      (fix items (l : list json) : string :=
         match l with
         | [] => ""
         | [a] => JSON_text a
         | a :: r => JSON_text a +:+ "," +:+ items r
         end) l +:+ "]"
  | JObj fs =>
      "{" +:+
      (fix members (fs : list (string * json)) : string :=
         match fs with
         | [] => ""
         | [(k, v)] => quote +:+ k +:+ quote +:+ ":" +:+ JSON_text v
         | (k, v) :: r => quote +:+ k +:+ quote +:+ ":" +:+ JSON_text v +:+ "," +:+ members r
         end) fs +:+ "}"
  end.

(** A parser that knows the texts of the values in [known]. *)
Definition parse_known (known : list json) (s : string) : option json :=
  List.find (fun x => String.eqb (JSON_text x) s) known.

(** Times are milliseconds; the time stamps used below are known. *)
Definition getTime (x : json) : option Z :=
  match x with
  | JNum n => Some n
  | JStr s =>
      if String.eqb s "1970-01-01T00:00:00.000Z" then Some 0
      else if String.eqb s "1970-01-01T01:50:00.000Z" then Some 6600000
      else if String.eqb s "1970-01-01T02:00:00.000Z" then Some 7200000
      else None
  | _ => None
  end.

Definition session_header : option (list string) :=
  Some ["ASP.NET_SessionId=abc123; path=/; HttpOnly"].

Definition forms_header : option (list string) :=
  Some [".ASPXFORMSAUTH=; expires=Thu, 01 Jan 1970 00:00:00 GMT";
        "lang=en; path=/";
        " .ASPXFORMSAUTH=FIRST; path=/";
        ".ASPXFORMSAUTH=TOKEN ; path=/; HttpOnly";
        ".ASPXFORMSAUTH=; path=/"].

Definition fresh_cookie : string := "ASP.NET_SessionId=abc123; .ASPXFORMSAUTH=TOKEN".

(** A portal whose login works, with the given replies of the details
    endpoint, key scan and object listing; Redis, S3 and the cookie file
    never fail, the clock stands at [now]. *)
Definition env_of (known : list json)
    (details : nat -> Reply (option Z) string)
    (scan : list (Reply unit (string * option (list string))))
    (listing : list (Reply unit S3Page))
    (now : Z) (redis_down : bool) : Env :=
  {| JSON_parse := parse_known known;
     JSON_stringify := JSON_text;
     Date_getTime := getTime;
     http_get_login := fun _ => Gives session_header;
     http_post_login := fun _ => Gives forms_header;
     http_post_details := details;
     fs_reply := fun _ => Gives tt;
     template_file := fun _ => Gives "user={{USERNAME}}&pwd={{PASSWORD}}";
     Date_now := fun _ => now;
     toISOString_now := fun _ => "1970-01-01T02:00:00.000Z";
     redis_fails := fun _ => redis_down;
     redis_scan := fun _ => scan;
     s3_list := fun _ => listing;
     s3_delete_fails := fun _ => false;
     s3_upload_fails := fun _ => false;
     uuidv4 := fun _ => "0000";
     structActivityData := fun _ raw => Ok [("id", JStr "42"); ("photo", JNull)];
     structStaffData := fun _ raw => Ok [("CL1-001", JStr "Ms Ada")];
     extractBase64Image := fun _ => Ok None |}.

Definition cold : World := mkWorld 0 None None ∅ [].

(** A process holding the cookie [old], in memory and in the file. *)
Definition warm : World := mkWorld 0 (Some "old") (Some "old") ∅ [].

(** The details endpoint accepts the probe and then answers 401 to
    everything. *)
Definition rejecting : Env :=
  env_of [] (fun t => match t with O => Gives "{}" | _ => Fails (Some 401) end)
         [] [] 0 false.

(** The details endpoint is down: 503, then 502, then 401. *)
Definition flaky : Env :=
  env_of [] (fun t => match t with
                      | 0%nat => Fails (Some 503)
                      | 2%nat => Fails (Some 502)
                      | _ => Fails (Some 401)
                      end)
         [] [] 0 false.

End Demo.

(** The effects that read the cache or the object store, or add an object. *)
Definition read_effect (ev : Effect) : Prop :=
  match ev with
  | EvRedisGet _ | EvRedisScan | EvS3List _ | EvS3Put _ => True
  | _ => False
  end.

(** [w'] continues the trace of [w] with effects in [allowed]. *)
Definition extends (allowed : Effect -> Prop) (w w' : World) : Prop :=
  exists evs, trace w' = (trace w ++ evs)%list /\ Forall allowed evs.

(** The cleanup may delete [key] only when its public URL is not empty. *)
Definition deletes_only_with_url (cfg : Config) (ev : Effect) : Prop :=
  match ev with
  | EvS3Delete key => constructS3Url cfg key <> ""
  | _ => True
  end.

(** The text of an object that has a [lastCheck] time stamp. *)
Definition carries_lastCheck (env : Env) (value : string) : Prop :=
  exists fields ts,
    value = JSON_stringify env (JObj fields) /\
    Obj.get "lastCheck" fields = Some (JStr ts).

Definition is_activity_key (key : string) : Prop :=
  exists activityId, key = ACTIVITY_KEY_PREFIX +:+ activityId.

(** A cache write is one to an activity key, of a record with [lastCheck]. *)
Definition activity_write (env : Env) (ev : Effect) : Prop :=
  match ev with
  | EvRedisSet key value => is_activity_key key /\ carries_lastCheck env value
  | _ => True
  end.

(** What may be stored: an object with [lastCheck], under an activity key. *)
Definition record_with_lastCheck (key : string) (data : json) : Prop :=
  is_activity_key key /\
  exists fields ts, data = JObj fields /\ Obj.get "lastCheck" fields = Some (JStr ts).

(** From [w] to [w'] every cache write was an [activity_write], and every
    entry of the cache that differs is an activity record with [lastCheck]. *)
Definition cache_kept (env : Env) (w w' : World) : Prop :=
  extends (activity_write env) w w' /\
  forall key,
    redis w' !! key = redis w !! key \/
    (is_activity_key key /\
     exists value, redis w' !! key = Some value /\ carries_lastCheck env value).

Definition not_a_delete (ev : Effect) : Prop :=
  match ev with
  | EvS3Delete _ => False
  | _ => True
  end.

(** A record that is neither marked as an error nor as confirmed empty
    ([!activityData.error && activityData.source !== 'api-fetch-empty']). *)
Definition active_record (record : json) : Prop :=
  truthy_opt (prop "error" record) = false /\
  prop "source" record <> Some (JStr "api-fetch-empty").

Module DemoStore.

Definition photo_url : string := "https://s3.example.com/cca/files/activity-1-a.avif".

Definition club : json :=
  JObj [("id", JStr "1"); ("name", JStr "Chess");
        ("photo", JStr photo_url);
        ("lastCheck", JStr "1970-01-01T00:00:00.000Z")].

(** The record of an entity that once had a photo and is now empty upstream. *)
Definition emptied : json :=
  JObj [("lastCheck", JStr "1970-01-01T01:50:00.000Z"); ("source", JStr "api-fetch-empty")].

Definition failed : json :=
  JObj [("lastCheck", JStr "1970-01-01T01:50:00.000Z");
        ("error", JStr "Failed to fetch or process")].

(** An error marker without a time stamp. *)
Definition marked : json := JObj [("error", JStr "Failed to fetch or process")].

Definition staff : json :=
  JObj [("CL1-001", JStr "Ms Ada"); ("lastCheck", JStr "1970-01-01T00:00:00.000Z")].

(** What a run at 02:00 stores for an entity that yielded no data. *)
Definition refetched : json :=
  JObj [("lastCheck", JStr "1970-01-01T02:00:00.000Z"); ("source", JStr "api-fetch-empty")].

Definition known : list json := [club; emptied; failed; staff; marked; refetched].

Definition store : gmap string string :=
  <["activity:1" := Demo.JSON_text club]>
    (<["activity:2" := Demo.JSON_text emptied]>
       (<["activity:3" := Demo.JSON_text failed]>
          (<["activity:4" := Demo.JSON_text marked]> ∅))).

Definition scan : list (Reply unit (string * option (list string))) :=
  [Gives ("17", Some ["activity:1"; "activity:2"]); Gives ("0", Some ["activity:3"])].

Definition listing : list (Reply unit S3Page) :=
  [Gives (mkS3Page (Some [Some "files/activity-1-a.avif"; Some "files/"]) (Some true));
   Gives (mkS3Page (Some [Some "files/activity-2-old.avif"]) None)].

(** The portal is down (every details request answers 503); the clock
    stands at 02:00:00. *)
Definition env : Env :=
  Demo.env_of known (fun _ => Fails (Some 503)) scan listing 7200000 false.

Definition cfg : Config :=
  {| API_USERNAME := Some "user"; API_PASSWORD := Some "secret";
     MIN_ACTIVITY_ID_SCAN := 1; MAX_ACTIVITY_ID_SCAN := 3;
     CLUB_UPDATE_INTERVAL_MINS := 60; STAFF_UPDATE_INTERVAL_MINS := 60;
     FIXED_STAFF_ACTIVITY_ID := Some "3350";
     S3_ENDPOINT := Some "https://s3.example.com/"; BUCKET_NAME := Some "cca";
     S3_PUBLIC_URL_PREFIX := None;
     s3Client_configured := true; redisClient_configured := true |}.

(** The same process without [S3_ENDPOINT]. *)
Definition cfg_no_endpoint : Config :=
  {| API_USERNAME := Some "user"; API_PASSWORD := Some "secret";
     MIN_ACTIVITY_ID_SCAN := 1; MAX_ACTIVITY_ID_SCAN := 3;
     CLUB_UPDATE_INTERVAL_MINS := 60; STAFF_UPDATE_INTERVAL_MINS := 60;
     FIXED_STAFF_ACTIVITY_ID := Some "3350";
     S3_ENDPOINT := None; BUCKET_NAME := Some "cca";
     S3_PUBLIC_URL_PREFIX := None;
     s3Client_configured := true; redisClient_configured := true |}.

Definition world : World := mkWorld 0 (Some "old") (Some "old") store [].

End DemoStore.

(** ** The state of a cache entry, as the cache returned it *)

(** The entry is there and has a [lastCheck]. *)
Definition has_lastCheck (x : json) : Prop :=
  truthy x = true /\ truthy_opt (prop "lastCheck" x) = true.

(** The entry is marked errored. *)
Definition marked_errored (x : json) : Prop :=
  truthy_opt (prop "error" x) = true.

(** There is no entry, or it is an empty object. *)
Definition missing_or_empty (x : json) : Prop :=
  truthy x = false \/ has_no_keys x = true.

(** The age of the entry's [lastCheck] at [now] exceeds the threshold. *)
Definition exceeds_threshold (env : Env) (now updateIntervalMs : Z) (x : json) : Prop :=
  exists lastCheck lastCheckTime,
    prop "lastCheck" x = Some lastCheck /\
    Date_getTime env lastCheck = Some lastCheckTime /\
    updateIntervalMs < now - lastCheckTime.

Definition not_process (ev : Effect) : Prop :=
  match ev with
  | EvProcess _ => False
  | _ => True
  end.

(** What [getActivityData] returns for a store when Redis answers: the
    parsed text under the key, [null] when there is none, it is empty or it
    does not parse. *)
Definition cached_value (env : Env) (cfg : Config) (store : gmap string string)
    (key : string) : json :=
  if negb (redisClient_configured cfg) then JNull
  else
    match store !! key with
    | Some data =>
        if Js.nonempty data then default JNull (JSON_parse env data) else JNull
    | None => JNull
    end.

(** Only the entry under [key] may differ between the two worlds. *)
Definition only_key (key : string) (w w' : World) : Prop :=
  forall k, k <> key -> redis w' !! k = redis w !! k.

(** The population pass may process [id] when it is in the range and its
    entry in [store] fails the test of the pass. *)
Definition may_process (env : Env) (cfg : Config) (store : gmap string string)
    (ev : Effect) : Prop :=
  match ev with
  | EvProcess id =>
      In id (scan_ids cfg) /\
      needs_init (cached_value env cfg store (ACTIVITY_KEY_PREFIX +:+ id)) = true
  | _ => True
  end.

(** From [w] the pass has processed only what it may, and an entry that
    differs from the one in [w] is one that failed the test in [w]. *)
Definition populated_from (env : Env) (cfg : Config) (w w' : World) : Prop :=
  extends (may_process env cfg (redis w)) w w' /\
  forall key,
    redis w' !! key = redis w !! key \/
    (is_activity_key key /\ needs_init (cached_value env cfg (redis w) key) = true).

Definition not_a_write (ev : Effect) : Prop :=
  match ev with
  | EvRedisSet _ _ => False
  | _ => True
  end.

(** Nothing was written to the cache between the two worlds. *)
Definition untouched_store (w w' : World) : Prop :=
  redis w' = redis w /\ extends not_a_write w w'.

(** The text stored under a key, if any, is not that of a record with a
    [lastCheck]. *)
Definition stored_lacks_lastCheck (env : Env) (entry : option string) : Prop :=
  forall text x,
    entry = Some text -> JSON_parse env text = Some x -> ~ has_lastCheck x.

Module DemoStaff.

(** The store of [DemoStore] with a staff record checked at 00:00. *)
Definition world : World :=
  mkWorld 0 (Some "old") (Some "old")
          (<["staffs:all" := Demo.JSON_text DemoStore.staff]> DemoStore.store) [].

Definition bumped : json :=
  JObj [("CL1-001", JStr "Ms Ada"); ("lastCheck", JStr "1970-01-01T02:00:00.000Z")].

End DemoStaff.

(** ** The staff map *)

Module StaffSpec.
Import StructStaff.

(** The name that the table of odd names gives for [name]: its correction
    when it is listed, the name itself otherwise. *)
Definition corrected (name : string) : string :=
  default name (map_get name oddNames).

(** What the corrections, applied in the order of the table, make of one
    name. *)
Definition correction_step (n : string) (entry : string * string) : string :=
  let '(o, c) := entry in if String.eqb n o then c else n.

(** The value of the last entry of [lParms] that is there and has the
    non-empty key [k]. *)
Definition latest (k : string) (lParms : list (option Staff)) : option string :=
  val <$> last (List.filter (fun st => Js.nonempty (key st) && String.eqb (key st) k)
                            (omap id lParms)).

(** A map as the module keeps it between two calls: no id twice, no
    black-listed id, no name that awaits correction. *)
Definition clean (m : StaffMap) : Prop :=
  List.NoDup (List.map fst m) /\
  (forall k, In k blackList -> map_get k m = None) /\
  (forall id name, In (id, name) m -> ~ In name (List.map fst oddNames)).

(** A response that names a black-listed member, one with an odd name and
    an ordinary one twice. *)
Definition rows : list ActivityRow :=
  [mkRow [mkField "name" None];
   mkRow [mkField "staff"
            (Some [Some (mkStaff "CL1-827" "Mr Test");
                   Some (mkStaff "CL1-100" "Ms SiSi Li");
                   None;
                   Some (mkStaff "" "Nobody");
                   Some (mkStaff "CL1-200" "Mr Old");
                   Some (mkStaff "CL1-200" "Mr New")]);
          mkField "staff" (Some [Some (mkStaff "CL1-300" "Mr Late")])]].

End StaffSpec.

(** ** The session code *)

(** The reply to the details request numbered [t] is an accepted response. *)
Definition accepted (env : Env) (t : nat) : bool :=
  match http_post_details env t with Gives _ => true | Fails _ => false end.

(** The request of the validity probe. *)
Definition probe (cookieString : string) : Effect :=
  EvHttpPostDetails "3350" cookieString.

(** A reply that is accepted and parses, but carries no string [d]. *)
Definition malformed (env : Env) (r : Reply (option Z) string) : Prop :=
  exists data outer,
    r = Gives data /\ JSON_parse env data = Some outer /\
    forall d, prop "d" outer <> Some (JStr d).

(** The text [data] parses to an object whose string [d] parses to
    [inner], which is not [null]. *)
Definition well_formed (env : Env) (data : string) (inner : json) : Prop :=
  exists outer d,
    JSON_parse env data = Some outer /\ prop "d" outer = Some (JStr d) /\
    JSON_parse env d = Some inner /\ inner <> JNull.

(** *** Counting requests

    A weight for each kind of request and for a pause; the other effects
    weigh nothing. *)
Record Weights : Type := mkWeights {
  per_login_get : nat;
  per_login_post : nat;
  per_details_post : nat;
  per_sleep : nat
}.

Definition cost (k : Weights) (ev : Effect) : nat :=
  match ev with
  | EvHttpGetLogin => per_login_get k
  | EvHttpPostLogin _ => per_login_post k
  | EvHttpPostDetails _ _ => per_details_post k
  | EvSleep _ => per_sleep k
  | _ => 0%nat
  end.

Definition total (k : Weights) (evs : list Effect) : nat :=
  list_sum (List.map (cost k) evs).

(** [w'] continues the trace of [w] with effects that weigh at most [n]. *)
Definition within (k : Weights) (n : nat) (w w' : World) : Prop :=
  exists evs, trace w' = (trace w ++ evs)%list /\ (total k evs <= n)%nat.

Definition spends (k : Weights) (n : nat) {A} (m : M A) : Prop :=
  forall w, within k n w (after m w).

Definition login_gets : list Effect -> nat := total (mkWeights 1 0 0 0).
Definition login_posts : list Effect -> nat := total (mkWeights 0 1 0 0).
Definition details_posts : list Effect -> nat := total (mkWeights 0 0 1 0).
Definition pauses : list Effect -> nat := total (mkWeights 0 0 0 1).

(** ** More surroundings *)

Module DemoMore.

(** [e] with other replies of the file system, of the login page, of the
    normaliser, and with the image splitter of utils/image-processor.ts. *)
Definition with_fs_reply (f : nat -> Reply string unit) (e : Env) : Env :=
  mkEnv (JSON_parse e) (JSON_stringify e) (Date_getTime e) (http_get_login e)
        (http_post_login e) (http_post_details e) f (template_file e) (Date_now e)
        (toISOString_now e) (redis_fails e) (redis_scan e) (s3_list e)
        (s3_delete_fails e) (s3_upload_fails e) (uuidv4 e) (structActivityData e)
        (structStaffData e) (extractBase64Image e).

Definition with_get_login (f : nat -> Reply (option Z) (option (list string))) (e : Env)
  : Env :=
  mkEnv (JSON_parse e) (JSON_stringify e) (Date_getTime e) f
        (http_post_login e) (http_post_details e) (fs_reply e) (template_file e)
        (Date_now e) (toISOString_now e) (redis_fails e) (redis_scan e) (s3_list e)
        (s3_delete_fails e) (s3_upload_fails e) (uuidv4 e) (structActivityData e)
        (structStaffData e) (extractBase64Image e).

Definition with_structActivityData
    (f : nat -> json -> Outcome (list (string * json))) (e : Env) : Env :=
  mkEnv (JSON_parse e) (JSON_stringify e) (Date_getTime e) (http_get_login e)
        (http_post_login e) (http_post_details e) (fs_reply e) (template_file e)
        (Date_now e) (toISOString_now e) (redis_fails e) (redis_scan e) (s3_list e)
        (s3_delete_fails e) (s3_upload_fails e) (uuidv4 e) f
        (structStaffData e) (extractBase64Image e).

Definition with_images (e : Env) : Env :=
  mkEnv (JSON_parse e) (JSON_stringify e) (Date_getTime e) (http_get_login e)
        (http_post_login e) (http_post_details e) (fs_reply e) (template_file e)
        (Date_now e) (toISOString_now e) (redis_fails e) (redis_scan e) (s3_list e)
        (s3_delete_fails e) (s3_upload_fails e) (uuidv4 e) (structActivityData e)
        (structStaffData e) (fun dataUrl => Ok (Image.extractBase64Image dataUrl)).

Definition with_s3_delete_fails (f : nat -> bool) (e : Env) : Env :=
  mkEnv (JSON_parse e) (JSON_stringify e) (Date_getTime e) (http_get_login e)
        (http_post_login e) (http_post_details e) (fs_reply e) (template_file e)
        (Date_now e) (toISOString_now e) (redis_fails e) (redis_scan e) (s3_list e)
        f (s3_upload_fails e) (uuidv4 e) (structActivityData e)
        (structStaffData e) (extractBase64Image e).

(** The cookie file can be neither written nor removed. *)
Definition locked : Env := with_fs_reply (fun _ => Fails "EACCES") Demo.rejecting.

(** The file cannot be removed at the first operation; later ones work. *)
Definition locked_once : Env :=
  with_fs_reply (fun t => match t with O => Fails "EBUSY" | _ => Gives tt end)
                Demo.rejecting.

(** The login page is down. *)
Definition no_login : Env := with_get_login (fun _ => Fails (Some 503)) Demo.rejecting.

(** The details of an activity, as the portal wraps them. *)
Definition inner : json := JObj [("isError", JBool false); ("newRows", JArr [])].
Definition outer : json := JObj [("d", JStr (Demo.JSON_text inner))].
Definition payload : string := Demo.JSON_text outer.

(** The portal serves the details to every request. *)
Definition serving : Env :=
  Demo.env_of [outer; inner] (fun _ => Gives payload) [] [] 0 false.

(** The first request meets a 503, the later ones are served. *)
Definition recovering : Env :=
  Demo.env_of [outer; inner]
    (fun t => match t with O => Fails (Some 503) | _ => Gives payload end) [] [] 0 false.

(** The portal answers every request with an empty object. *)
Definition garbled : Env :=
  Demo.env_of [JObj []] (fun _ => Gives "{}") [] [] 0 false.

End DemoMore.

(** ** The cache and the object store *)

(** The world after an accepted [SET key value]. *)
Definition stored (key value : string) (w : World) : World :=
  mkWorld (S (clock w)) (inMemoryCookie w) (cookieFile w) (<[key := value]> (redis w))
          (trace w ++ [EvRedisSet key value]).

(** The keys of the pages of a scan, in order. *)
Definition keys_of (pages : list (string * option (list string))) : list string :=
  concat (List.map (fun page => default [] (snd page)) pages).

(** An object key as the listing keeps it: not empty, no trailing slash. *)
Definition object_key (k : string) : Prop :=
  Js.nonempty k = true /\ Js.endsWith_char k "/" = false.

(** How many of the [n] deletions that start at reply [t] are rejected. *)
Definition rejected_deletes (env : Env) (t n : nat) : nat :=
  length (List.filter (fun i => s3_delete_fails env (t + i)) (seq 0 n)).

(** The key under which an image of [activityId] is put at [w]. *)
Definition upload_key (env : Env) (cfg : Config) (activityId : string) (w : World)
  : string :=
  PUBLIC_URL_FILE_PREFIX cfg +:+ "/activity-" +:+ activityId +:+ "-"
    +:+ uuidv4 env (clock w) +:+ ".avif".

Module DemoS3.

(** The second deletion of a run is rejected. *)
Definition env : Env :=
  DemoMore.with_s3_delete_fails (fun t => Nat.eqb t 1) DemoStore.env.

(** The surroundings of [DemoStore] with the image splitter of the code. *)
Definition imaging : Env := DemoMore.with_images DemoStore.env.

Definition with_photo : list (string * json) :=
  [("id", JStr "7"); ("photo", JStr "data:image/png;base64,iVBORw0KGgo=")].

(** A two-page scan and one that breaks off after its first page. *)
Definition scanned : list (Reply unit (string * option (list string))) :=
  [Gives ("17", Some ["activity:1"; "activity:2"]); Gives ("0", Some ["activity:3"])].

Definition broken : list (Reply unit (string * option (list string))) :=
  [Gives ("17", Some ["activity:1"; "activity:2"]); Fails tt].

Definition scanning (replies : list (Reply unit (string * option (list string)))) : Env :=
  Demo.env_of [] (fun _ => Fails (Some 503)) replies [] 0 false.

End DemoS3.

(** ** The cache writers and the routes *)

(** [x] is what the last interaction of [w'] wrote under [key], and what
    the cache holds there when Redis rejects nothing. *)
Definition just_cached (env : Env) (key : string) (x : json) (w' : World) : Prop :=
  last (trace w') = Some (EvRedisSet key (JSON_stringify env x)) /\
  ((forall t, redis_fails env t = false) ->
   redis w' !! key = Some (JSON_stringify env x)).

(** The record that the cache writers store for a failure at time [now]. *)
Definition error_record (now : string) : json :=
  JObj [("lastCheck", JStr now); ("error", JStr "Failed to fetch or process")].

(** The record stored for an activity that yielded no data. *)
Definition empty_record (now : string) : json :=
  JObj [("lastCheck", JStr now); ("source", JStr "api-fetch-empty")].

(** The process of [DemoStore] without [API_PASSWORD]. *)
Definition cfg_no_password : Config :=
  {| API_USERNAME := Some "user"; API_PASSWORD := None;
     MIN_ACTIVITY_ID_SCAN := 1; MAX_ACTIVITY_ID_SCAN := 3;
     CLUB_UPDATE_INTERVAL_MINS := 60; STAFF_UPDATE_INTERVAL_MINS := 60;
     FIXED_STAFF_ACTIVITY_ID := Some "3350";
     S3_ENDPOINT := Some "https://s3.example.com/"; BUCKET_NAME := Some "cca";
     S3_PUBLIC_URL_PREFIX := None;
     s3Client_configured := true; redisClient_configured := true |}.

(** What the staff route may write: under the staff key, an object with a
    [lastCheck] time stamp and the marker [cache: "MISS"]. *)
Definition staff_miss_write (env : Env) (ev : Effect) : Prop :=
  match ev with
  | EvRedisSet key value =>
      key = STAFF_KEY /\
      exists fields ts,
        value = JSON_stringify env (JObj fields) /\
        Obj.get "lastCheck" fields = Some (JStr ts) /\
        Obj.get "cache" fields = Some (JStr "MISS")
  | _ => True
  end.

Definition staff_miss_record (key : string) (data : json) : Prop :=
  key = STAFF_KEY /\
  exists fields ts,
    data = JObj fields /\
    Obj.get "lastCheck" fields = Some (JStr ts) /\
    Obj.get "cache" fields = Some (JStr "MISS").

(** What a sweep over [keys] may process and write: the activities of
    those keys, under the keys rebuilt from their ids. *)
Definition touches_only (keys : list string) (ev : Effect) : Prop :=
  match ev with
  | EvProcess activityId => In activityId (List.map activityId_of_key keys)
  | EvRedisSet key _ =>
      In key (List.map (fun k => ACTIVITY_KEY_PREFIX +:+ activityId_of_key k) keys)
  | _ => True
  end.

Definition sweep_storable (keys : list string) (key : string) (data : json) : Prop :=
  In key (List.map (fun k => ACTIVITY_KEY_PREFIX +:+ activityId_of_key k) keys).

(** The activities processed among the effects [evs], in order. *)
Definition processed (evs : list Effect) : list string :=
  omap (fun ev => match ev with EvProcess activityId => Some activityId | _ => None end) evs.

(** ** The paths of [fetchActivityData] to its two requests *)

Section FetchPaths.
Context (env : Env) (userName userPwd templateFileName : string) (forceLogin : bool).

(** [reaches_login w w0]: started at [w], the orchestrator holds no usable
    cookie at [w0] and logs in from there: the login was forced, the cache
    held nothing, or the cached cookie failed its probe and the cache was
    cleared. *)
Inductive reaches_login (w : World) : World -> Prop :=
| login_forced :
    forceLogin = true ->
    reaches_login w w
| login_nothing_cached (w1 : World) :
    forceLogin = false ->
    loadCachedCookie env w = (Ok None, w1) ->
    reaches_login w w1
| login_probe_failed (cached : string) (w1 w2 : World) :
    forceLogin = false ->
    loadCachedCookie env w = (Ok (Some cached), w1) ->
    testCookieValidity env cached w1 = (Ok false, w2) ->
    reaches_login w (after (clearCookieCache env) w2).

(** [fetches_with w cookie w1]: started at [w], the orchestrator makes its
    first fetch at [w1] with [cookie]: the cached cookie that passed its
    probe, or the cookie of a login, saved to the cache. *)
Inductive fetches_with (w : World) : string -> World -> Prop :=
| fetch_cached (cached : string) (w1 w2 : World) :
    forceLogin = false ->
    loadCachedCookie env w = (Ok (Some cached), w1) ->
    testCookieValidity env cached w1 = (Ok true, w2) ->
    fetches_with w cached w2
| fetch_fresh (w0 w1 : World) (fresh : string) :
    reaches_login w w0 ->
    getCompleteCookies env userName userPwd templateFileName w0 = (Ok fresh, w1) ->
    fetches_with w fresh (after (saveCookieToCache env fresh) w1).

End FetchPaths.

(** ** A cache that rejects one read *)

Module DemoOutage.

Definition with_redis_fails (f : nat -> bool) (e : Env) : Env :=
  mkEnv (JSON_parse e) (JSON_stringify e) (Date_getTime e) (http_get_login e)
        (http_post_login e) (http_post_details e) (fs_reply e) (template_file e)
        (Date_now e) (toISOString_now e) f (redis_scan e) (s3_list e)
        (s3_delete_fails e) (s3_upload_fails e) (uuidv4 e) (structActivityData e)
        (structStaffData e) (extractBase64Image e).

(** The surroundings of [DemoStore], where Redis rejects the command sent at
    clock 19 and answers every other one.  Started from [DemoStore.world], a
    first population pass makes the interactions 0 to 18; the first command
    of a second pass, the read of [activity:1], is the rejected one. *)
Definition env : Env := with_redis_fails (fun t => Nat.eqb t 19) DemoStore.env.

End DemoOutage.

(** ** The entries that a staleness sweep reads *)

(** The entry is due for a refresh: its [lastCheck] is older than the
    threshold, or it is marked errored, or it is missing or empty. *)
Definition refresh_due (env : Env) (now updateIntervalMs : Z) (x : json) : Prop :=
  exceeds_threshold env now updateIntervalMs x
  \/ marked_errored x
  \/ missing_or_empty x.

(** What the cache returns for a key that the cache writers filled, or did
    not fill: an entry with a [lastCheck], or none. *)
Definition checked_or_absent (x : json) : Prop :=
  has_lastCheck x \/ missing_or_empty x.

(** [read_during env cfg w w' key x]: at some point between [w] and [w'] the
    cache was asked for the entry of [key] and returned [x]. *)
Definition read_during (env : Env) (cfg : Config) (w w' : World)
    (key : string) (x : json) : Prop :=
  exists wj wj',
    extends (fun _ => True) w wj /\
    getActivityData env cfg (activityId_of_key key) wj = (Ok x, wj') /\
    extends (fun _ => True) wj' w'.

(** Effects that neither process an activity nor write to the cache. *)
Definition quiet (ev : Effect) : Prop :=
  match ev with
  | EvProcess _ | EvRedisSet _ _ => False
  | _ => True
  end.

(** Effects that process nothing and write to the cache under [key] only. *)
Definition writes_under (key : string) (ev : Effect) : Prop :=
  match ev with
  | EvProcess _ => False
  | EvRedisSet k _ => k = key
  | _ => True
  end.
(** * Properties of the login handshake *)

Section LoginFacts.

(** A remainder after [n] characters is non-empty only when the string is
    longer than [n]. *)
Lemma substring_from_nonempty (n : nat) (s : string) :
  0 < Js.strlen (Js.substring_from n s) -> Z.of_nat n < Js.strlen s.
Proof.
  unfold Js.strlen. revert s.
  induction n as [|n IH]; intros s H; simpl in *.
  - lia.
  - destruct s as [|c r]; simpl in *; [lia|].
    specialize (IH r H). lia.
Qed.

Lemma has_value_value_part (c : string) :
  has_value (firstPart c) = Js.nonempty (value_part c).
Proof.
  unfold has_value, value_part.
  set (v := Js.substring_from _ _).
  destruct (0 <? Js.strlen v) eqn:Hv.
  - apply Z.ltb_lt in Hv.
    pose proof (substring_from_nonempty _ _ Hv) as Hlen.
    replace (Js.strlen FORMSAUTH_PREFIX <? Js.strlen (firstPart c)) with true.
    + simpl. destruct v; [unfold Js.strlen in Hv; simpl in Hv; lia | reflexivity].
    + symmetry. apply Z.ltb_lt. exact Hlen.
  - rewrite andb_false_r. apply Z.ltb_ge in Hv.
    destruct v; [reflexivity|]. unfold Js.strlen in Hv. simpl in Hv. lia.
Qed.

(** The downward scan over the first [n] candidates finds the last of them
    that passes the test. *)
Lemma scanFormsAuth_take (n : nat) (l : list string) :
  (n <= length l)%nat ->
  scanFormsAuth n l =
  firstPart <$> last (List.filter (fun c => Js.nonempty (value_part c)) (take n l)).
Proof.
  induction n as [|i IH]; intros Hn.
  - reflexivity.
  - destruct (lookup_lt_is_Some_2 l i ltac:(lia)) as [c Hc].
    simpl. rewrite Hc, (take_S_r _ _ _ Hc), List.filter_app. simpl.
    rewrite has_value_value_part.
    destruct (Js.nonempty (value_part c)).
    + rewrite last_snoc. reflexivity.
    + rewrite app_nil_r. apply IH. lia.
Qed.

Lemma selectFormsAuth_last (setCookieHeader : option (list string)) :
  selectFormsAuth setCookieHeader = last_nonempty_candidate setCookieHeader.
Proof.
  unfold selectFormsAuth, last_nonempty_candidate.
  destruct setCookieHeader as [[|c hdr]|]; try reflexivity.
  simpl default. fold (candidates (c :: hdr)).
  destruct (candidates (c :: hdr)) as [|a l] eqn:E; [reflexivity|].
  replace (0 <? length (a :: l))%nat with true by reflexivity.
  rewrite scanFormsAuth_take by lia.
  rewrite firstn_all. reflexivity.
Qed.

(** What [selectFormsAuth] returns is never the empty string. *)
Lemma selectFormsAuth_nonempty (hdr : option (list string)) (v : string) :
  selectFormsAuth hdr = Some v -> Js.nonempty v = true.
Proof.
  rewrite selectFormsAuth_last. unfold last_nonempty_candidate.
  destruct (last _) as [c|] eqn:E; [|discriminate].
  intros [= <-].
  apply last_Some_elem_of, list_elem_of_In, List.filter_In in E as [_ E].
  rewrite <- has_value_value_part in E. unfold has_value in E.
  apply andb_prop in E as [E _]. apply Z.ltb_lt in E.
  destruct (firstPart c); [unfold Js.strlen in E; simpl in E; lia | reflexivity].
Qed.

End LoginFacts.

(** * Composition rules *)

Section Rules.
Context {A B : Type}.

Lemma nothrow_ret (a : A) : nothrow (ret a).
Proof. intros w. exists a. reflexivity. Qed.

Lemma nothrow_bind (m : M A) (k : A -> M B) :
  nothrow m -> (forall a, nothrow (k a)) -> nothrow (bind m k).
Proof.
  intros Hm Hk w. destruct (Hm w) as [a Ha].
  unfold result, bind in *. destruct (m w) as [[a'|e] w']; simpl in Ha; [|discriminate].
  apply Hk.
Qed.

Lemma nothrow_try (m : M A) (h : JsError -> M A) :
  (forall e, nothrow (h e)) -> nothrow (try_catch m h).
Proof.
  intros Hh w. unfold result, try_catch.
  destruct (m w) as [[a|e] w']; [exists a; reflexivity | apply Hh].
Qed.

Context (allowed : Effect -> Prop) (R : World -> World -> Prop) (HR : Closed allowed R).

Lemma steps_ret (a : A) : steps R (ret a).
Proof. intros w. apply (closed_refl _ _ HR). Qed.

Lemma steps_throw (e : JsError) : steps R (@throw A e).
Proof. intros w. apply (closed_refl _ _ HR). Qed.

Lemma steps_bind (m : M A) (k : A -> M B) :
  steps R m -> (forall a, steps R (k a)) -> steps R (bind m k).
Proof.
  intros Hm Hk w. specialize (Hm w). unfold after, bind in *.
  destruct (m w) as [[a|e] w']; simpl in *; [|exact Hm].
  eapply (closed_trans _ _ HR); [exact Hm | apply Hk].
Qed.

Lemma steps_try (m : M A) (h : JsError -> M A) :
  steps R m -> (forall e, steps R (h e)) -> steps R (try_catch m h).
Proof.
  intros Hm Hh w. specialize (Hm w). unfold after, try_catch in *.
  destruct (m w) as [[a|e] w']; simpl in *; [exact Hm|].
  eapply (closed_trans _ _ HR); [exact Hm | apply Hh].
Qed.

End Rules.

Lemma nothrow_get_world : nothrow get_world.
Proof. intros w. exists w. reflexivity. Qed.

Lemma nothrow_tick : nothrow tick.
Proof. intros w. eexists. reflexivity. Qed.

Lemma nothrow_note (ev : Effect) : nothrow (note ev).
Proof. intros w. exists tt. reflexivity. Qed.

Lemma nothrow_interact (ev : Effect) : nothrow (interact ev).
Proof. intros w. eexists. reflexivity. Qed.

Lemma nothrow_set_inMemoryCookie (c : option string) : nothrow (set_inMemoryCookie c).
Proof. intros w. exists tt. reflexivity. Qed.

Lemma nothrow_set_cookieFile (c : option string) : nothrow (set_cookieFile c).
Proof. intros w. exists tt. reflexivity. Qed.

Lemma nothrow_set_redis (r : gmap string string) : nothrow (set_redis r).
Proof. intros w. exists tt. reflexivity. Qed.

Create HintDb nothrow.
#[local] Hint Resolve nothrow_get_world nothrow_tick nothrow_note nothrow_interact
  nothrow_set_inMemoryCookie nothrow_set_cookieFile nothrow_set_redis : nothrow.

(** Walk through a computation built from binds, handlers and branches. *)
Ltac nothrow_go :=
  repeat match goal with
    | |- nothrow (ret _) => apply nothrow_ret
    | |- nothrow (bind _ _) => apply nothrow_bind; [|intros ?]
    | |- nothrow (try_catch _ _) => apply nothrow_try; intros ?
    | |- nothrow (if ?b then _ else _) => destruct b
    | |- nothrow (match ?x with _ => _ end) => destruct x
    | |- nothrow _ => solve [auto with nothrow]
    end.

Section SessionNeverThrows.
Context (env : Env).

Lemma nothrow_loadCachedCookie : nothrow (loadCachedCookie env).
Proof. unfold loadCachedCookie. nothrow_go. Qed.

Lemma nothrow_saveCookieToCache (c : string) : nothrow (saveCookieToCache env c).
Proof. unfold saveCookieToCache. nothrow_go. Qed.

Lemma nothrow_clearCookieCache : nothrow (clearCookieCache env).
Proof. unfold clearCookieCache. nothrow_go. Qed.

Lemma nothrow_testCookieValidity_loop (fuel attempt : nat) (c : string) :
  nothrow (testCookieValidity_loop env fuel attempt c).
Proof.
  revert attempt.
  induction fuel as [|fuel IH]; intros attempt; cbn [testCookieValidity_loop].
  - apply nothrow_ret.
  - destruct (MAX_RETRIES <=? attempt)%nat; [apply nothrow_ret|].
    apply nothrow_bind.
    + apply nothrow_try. intros e. nothrow_go.
    + intros [b|]; [apply nothrow_ret | apply IH].
Qed.

Lemma nothrow_testCookieValidity (c : string) : nothrow (testCookieValidity env c).
Proof.
  unfold testCookieValidity.
  destruct (negb _); [apply nothrow_ret | apply nothrow_testCookieValidity_loop].
Qed.

End SessionNeverThrows.

#[local] Hint Resolve nothrow_loadCachedCookie nothrow_saveCookieToCache
  nothrow_clearCookieCache nothrow_testCookieValidity : nothrow.


(** * Running the primitives *)

Lemma interact_run (ev : Effect) (w : World) :
  interact ev w = (Ok (clock w), noted [ev] w).
Proof.
  unfold interact, bind, note, tick, noted. simpl.
  rewrite Nat.add_1_r. reflexivity.
Qed.

Lemma noted_nil (w : World) : noted [] w = w.
Proof.
  destruct w. unfold noted. simpl. rewrite Nat.add_0_r, app_nil_r. reflexivity.
Qed.

Lemma noted_app (evs evs' : list Effect) (w : World) :
  noted evs' (noted evs w) = noted (evs ++ evs') w.
Proof.
  unfold noted. simpl. rewrite length_app, Nat.add_assoc, app_assoc. reflexivity.
Qed.

Lemma new_effects_noted (evs : list Effect) (w : World) :
  new_effects w (noted evs w) = evs.
Proof. unfold new_effects, noted. simpl. apply drop_app_length. Qed.

Section RunRules.
Context {A B : Type}.

Lemma bind_ok (m : M A) (k : A -> M B) (w w' : World) (a : A) :
  m w = (Ok a, w') -> bind m k w = k a w'.
Proof. intros H. unfold bind. rewrite H. reflexivity. Qed.

Lemma bind_throw (m : M A) (k : A -> M B) (w w' : World) (e : JsError) :
  m w = (Throw e, w') -> bind m k w = (Throw e, w').
Proof. intros H. unfold bind. rewrite H. reflexivity. Qed.

Lemma try_ok (m : M A) (h : JsError -> M A) (w w' : World) (a : A) :
  m w = (Ok a, w') -> try_catch m h w = (Ok a, w').
Proof. intros H. unfold try_catch. rewrite H. reflexivity. Qed.

Lemma try_throw (m : M A) (h : JsError -> M A) (w w' : World) (e : JsError) :
  m w = (Throw e, w') -> try_catch m h w = h e w'.
Proof. intros H. unfold try_catch. rewrite H. reflexivity. Qed.

End RunRules.

Section RunRequests.
Context (env : Env).

Lemma readFile_template_gives (w : World) (data : string) :
  template_file env (clock w) = Gives data ->
  readFile_template env w = (Ok data, noted [EvReadFile] w).
Proof.
  intros H. unfold readFile_template.
  rewrite (bind_ok _ _ _ _ _ (interact_run _ _)), H. reflexivity.
Qed.

Lemma axios_post_login_gives (cookie : string) (w : World) (hdr : option (list string)) :
  http_post_login env (clock w) = Gives hdr ->
  axios_post_login env cookie w = (Ok hdr, noted [EvHttpPostLogin cookie] w).
Proof.
  intros H. unfold axios_post_login.
  rewrite (bind_ok _ _ _ _ _ (interact_run _ _)), H. reflexivity.
Qed.

Lemma axios_post_details_fails (activityId cookie : string) (w : World) (st : option Z) :
  http_post_details env (clock w) = Fails st ->
  axios_post_details env activityId cookie w
  = (Throw (AxiosError st), noted [EvHttpPostDetails activityId cookie] w).
Proof.
  intros H. unfold axios_post_details.
  rewrite (bind_ok _ _ _ _ _ (interact_run _ _)), H. reflexivity.
Qed.

Lemma axios_post_details_gives (activityId cookie : string) (w : World) (data : string) :
  http_post_details env (clock w) = Gives data ->
  axios_post_details env activityId cookie w
  = (Ok data, noted [EvHttpPostDetails activityId cookie] w).
Proof.
  intros H. unfold axios_post_details.
  rewrite (bind_ok _ _ _ _ _ (interact_run _ _)), H. reflexivity.
Qed.

Lemma sleep_run (ms : Z) (w : World) : sleep ms w = (Ok tt, noted [EvSleep ms] w).
Proof.
  unfold sleep. rewrite (bind_ok _ _ _ _ _ (interact_run _ _)). reflexivity.
Qed.

End RunRequests.

(** C8. In the login handshake the forms-authentication fragment is taken
    from the last [.ASPXFORMSAUTH] candidate of the form-submission response
    whose value part is non-empty; the login fails when there is none; and a
    successful login returns the session-id fragment and that fragment
    joined by [; ]. *)
Theorem login_keeps_last_nonempty_candidate
    (env : Env) (userName userPwd templateFilePath : string)
    (w w1 : World) (sessionId templateData : string)
    (setCookieHeader : option (list string)) :
  getSessionId env w = (Ok (Some sessionId), w1) ->
  template_file env (clock w1) = Gives templateData ->
  http_post_login env (S (clock w1)) = Gives setCookieHeader ->
  selectFormsAuth setCookieHeader = last_nonempty_candidate setCookieHeader /\
  result (getMSAUTH env sessionId userName userPwd templateFilePath) w1
    = Ok (last_nonempty_candidate setCookieHeader) /\
  result (getCompleteCookies env userName userPwd templateFilePath) w
    = match last_nonempty_candidate setCookieHeader with
      | Some msAuth => Ok (sessionId +:+ "; " +:+ msAuth)
      | None => Throw (PlainError "Login failed: Could not obtain .ASPXFORMSAUTH cookie.")
      end.
Proof.
  intros Hsid Htpl Hpost.
  pose proof (selectFormsAuth_last setCookieHeader) as Hsel.
  assert (Hms : exists w2,
            getMSAUTH env sessionId userName userPwd templateFilePath w1
            = (Ok (last_nonempty_candidate setCookieHeader), w2)).
  { unfold getMSAUTH.
    eexists. erewrite try_ok; [reflexivity|].
    erewrite bind_ok by (apply readFile_template_gives; exact Htpl).
    erewrite bind_ok
      by (apply axios_post_login_gives; simpl; rewrite Nat.add_1_r; exact Hpost).
    rewrite Hsel.
    destruct (last_nonempty_candidate setCookieHeader) as [v|] eqn:E.
    - rewrite (selectFormsAuth_nonempty _ _ Hsel). reflexivity.
    - reflexivity. }
  destruct Hms as [w2 Hms].
  split; [exact Hsel|]. split.
  - unfold result. rewrite Hms. reflexivity.
  - unfold result, getCompleteCookies.
    rewrite (bind_ok _ _ _ _ _ Hsid), (bind_ok _ _ _ _ _ Hms).
    destruct (last_nonempty_candidate setCookieHeader); reflexivity.
Qed.

(** * The fetch client *)

Lemma length_retried_attempts (activityId cookies : string) (a k : nat) :
  length (retried_attempts activityId cookies a k) = (2 * k)%nat.
Proof.
  revert a. induction k as [|k IH]; intros a; simpl; [reflexivity|].
  rewrite IH. lia.
Qed.

Section FetchClient.
Context (env : Env) (activityId cookies : string) (maxRetries : nat).

Let request : Effect := EvHttpPostDetails activityId cookies.

Lemma attempt_4xx (attempt : nat) (w : World) (status : Z) :
  http_post_details env (clock w) = Fails (Some status) ->
  400 <= status <= 499 ->
  getActivityDetailsRaw_attempt env activityId cookies maxRetries attempt w
  = (Throw (AuthenticationError status), noted [request] w).
Proof.
  intros Hreply Hst. unfold getActivityDetailsRaw_attempt.
  erewrite try_throw
    by (erewrite bind_throw; [reflexivity | apply axios_post_details_fails; exact Hreply]).
  cbn [error_response].
  replace ((400 <=? status) && (status <? 500)) with true
    by (symmetry; apply andb_true_intro; split; [apply Z.leb_le | apply Z.ltb_lt]; lia).
  unfold new_AuthenticationError.
  replace (status =? 0) with false by (symmetry; apply Z.eqb_neq; lia).
  reflexivity.
Qed.

Lemma attempt_transient (attempt : nat) (w : World) (st : option Z) :
  http_post_details env (clock w) = Fails st ->
  is_4xx st = false ->
  getActivityDetailsRaw_attempt env activityId cookies maxRetries attempt w
  = if (attempt =? maxRetries - 1)%nat
    then (Throw (AxiosError st), noted [request] w)
    else (Ok Continue,
          noted [request; EvSleep (1000 * (Z.of_nat attempt + 1))] w).
Proof.
  intros Hreply Hst. unfold getActivityDetailsRaw_attempt.
  erewrite try_throw
    by (erewrite bind_throw; [reflexivity | apply axios_post_details_fails; exact Hreply]).
  cbn [error_response].
  assert (Hcommon :
    (if (attempt =? maxRetries - 1)%nat then throw (AxiosError st)
     else sleep (1000 * (Z.of_nat attempt + 1));;; ret Continue) (noted [request] w)
    = if (attempt =? maxRetries - 1)%nat
      then (Throw (AxiosError st), noted [request] w)
      else (Ok (@Continue (option string)),
            noted [request; EvSleep (1000 * (Z.of_nat attempt + 1))] w)).
  { destruct (attempt =? maxRetries - 1)%nat; [reflexivity|].
    rewrite (bind_ok _ _ _ _ _ (sleep_run _ _)), noted_app. reflexivity. }
  destruct st as [s|]; [|exact Hcommon].
  simpl in Hst. rewrite Hst. exact Hcommon.
Qed.

(** [k] attempts that fail without a 4xx status, none of them the last one,
    leave the loop at attempt [a + k], having made the interactions of
    [retried_attempts]. *)
Lemma loop_retries (k : nat) :
  forall (fuel a : nat) (w : World),
    (a + k < maxRetries)%nat ->
    (forall i, (i < k)%nat ->
       exists st, http_post_details env (clock w + 2 * i) = Fails st /\ is_4xx st = false) ->
    getActivityDetailsRaw_loop env (k + fuel) activityId cookies maxRetries a w
    = getActivityDetailsRaw_loop env fuel activityId cookies maxRetries (a + k)
        (noted (retried_attempts activityId cookies a k) w).
Proof.
  induction k as [|k IH]; intros fuel a w Hlt Hfail.
  - rewrite Nat.add_0_r, noted_nil. reflexivity.
  - destruct (Hfail 0%nat ltac:(lia)) as (st & Hreply & Hst).
    rewrite Nat.mul_0_r, Nat.add_0_r in Hreply.
    cbn [Nat.add getActivityDetailsRaw_loop].
    replace (maxRetries <=? a)%nat with false by (symmetry; apply Nat.leb_gt; lia).
    erewrite bind_ok; cycle 1.
    { rewrite (attempt_transient _ _ _ Hreply Hst).
      replace (a =? maxRetries - 1)%nat with false by (symmetry; apply Nat.eqb_neq; lia).
      reflexivity. }
    cbv beta iota. rewrite IH.
    + rewrite noted_app. replace (S a + k)%nat with (a + S k)%nat by lia. reflexivity.
    + lia.
    + intros i Hi. destruct (Hfail (S i) ltac:(lia)) as (st' & Hr' & Hst').
      exists st'. split; [|exact Hst'].
      rewrite <- Hr'. f_equal. simpl. lia.
Qed.

End FetchClient.

(** C4. In [getActivityDetailsRaw], after any number [k] of attempts that
    failed without a 4xx status and were retried, (a) a response whose status
    lies in 400..499 raises [AuthenticationError] with that status at once:
    the request is the last interaction, no pause follows it and no further
    attempt is made; (b) when the attempt is the last of the budget and it
    fails without a 4xx status, that error is re-raised as it is.  Each of
    the [k] retried attempts is followed by a pause of 1000 ms times the
    attempt's number (1000, then 2000 with the default budget of 3). *)
Theorem fetch_client_retry_policy
    (env : Env) (activityId cookies : string) (maxRetries k : nat) (w : World) :
  (k < maxRetries)%nat ->
  (forall i, (i < k)%nat ->
     exists st, http_post_details env (clock w + 2 * i) = Fails st /\ is_4xx st = false) ->
  (forall status,
     400 <= status <= 499 ->
     http_post_details env (clock w + 2 * k) = Fails (Some status) ->
     getActivityDetailsRaw env activityId cookies maxRetries w
     = (Throw (AuthenticationError status),
        noted (retried_attempts activityId cookies 0 k
               ++ [EvHttpPostDetails activityId cookies]) w))
  /\
  (forall st,
     k = (maxRetries - 1)%nat ->
     http_post_details env (clock w + 2 * k) = Fails st ->
     is_4xx st = false ->
     getActivityDetailsRaw env activityId cookies maxRetries w
     = (Throw (AxiosError st),
        noted (retried_attempts activityId cookies 0 k
               ++ [EvHttpPostDetails activityId cookies]) w)).
Proof.
  intros Hk Hfail.
  assert (Hloop :
    getActivityDetailsRaw env activityId cookies maxRetries w
    = getActivityDetailsRaw_loop env (maxRetries - k) activityId cookies maxRetries k
        (noted (retried_attempts activityId cookies 0 k) w)).
  { unfold getActivityDetailsRaw.
    replace maxRetries with (k + (maxRetries - k))%nat at 1 by lia.
    rewrite loop_retries by (auto; lia). reflexivity. }
  assert (Hclock : clock (noted (retried_attempts activityId cookies 0 k) w)
                   = (clock w + 2 * k)%nat).
  { simpl. rewrite length_retried_attempts. reflexivity. }
  destruct (maxRetries - k)%nat as [|fuel] eqn:Hfuel; [lia|].
  rewrite Hloop. cbn [getActivityDetailsRaw_loop].
  replace (maxRetries <=? k)%nat with false by (symmetry; apply Nat.leb_gt; lia).
  split.
  - intros status Hst Hreply.
    erewrite bind_throw; cycle 1.
    { apply attempt_4xx; [rewrite Hclock; exact Hreply | exact Hst]. }
    rewrite noted_app. reflexivity.
  - intros st Hlast Hreply Hst.
    erewrite bind_throw; cycle 1.
    { rewrite (attempt_transient env activityId cookies maxRetries k _ st);
        [|rewrite Hclock; exact Hreply | exact Hst].
      replace (k =? maxRetries - 1)%nat with true by (symmetry; apply Nat.eqb_eq; lia).
      reflexivity. }
    rewrite noted_app. reflexivity.
Qed.

(** * What the session code leaves alone *)

Section StepsPrimitives.
Context (allowed : Effect -> Prop) (R : World -> World -> Prop) (HR : Closed allowed R).

Lemma steps_get_world : steps R get_world.
Proof. intros w. apply (closed_refl _ _ HR). Qed.

Lemma steps_tick : steps R tick.
Proof. intros w. apply (closed_tick _ _ HR). Qed.

Lemma steps_note (ev : Effect) : allowed ev -> steps R (note ev).
Proof. intros H w. apply (closed_note _ _ HR), H. Qed.

Lemma steps_interact (ev : Effect) : allowed ev -> steps R (interact ev).
Proof.
  intros H. unfold interact.
  eapply steps_bind; [exact HR | apply steps_note, H | intros _; apply steps_tick].
Qed.

Lemma steps_mapM {A B} (f : A -> M B) (l : list A) :
  (forall a, steps R (f a)) -> steps R (mapM f l).
Proof.
  intros Hf. induction l as [|a l IH]; simpl.
  - eapply steps_ret, HR.
  - eapply steps_bind; [exact HR | apply Hf | intros b].
    eapply steps_bind; [exact HR | exact IH | intros bs]. eapply steps_ret, HR.
Qed.

Lemma steps_foldM {A B} (f : B -> A -> M B) (l : list A) (acc : B) :
  (forall b a, steps R (f b a)) -> steps R (foldM f acc l).
Proof.
  intros Hf. revert acc. induction l as [|a l IH]; intros acc; simpl.
  - eapply steps_ret, HR.
  - eapply steps_bind; [exact HR | apply Hf | intros b; apply IH].
Qed.

Lemma steps_for_each {A} (f : A -> M unit) (l : list A) :
  (forall a, steps R (f a)) -> steps R (for_each f l).
Proof.
  intros Hf. induction l as [|a l IH]; simpl.
  - eapply steps_ret, HR.
  - eapply steps_bind; [exact HR | apply Hf | intros _; exact IH].
Qed.

End StepsPrimitives.

Create HintDb steps.
#[local] Hint Extern 1 (io_effect _) => exact I : steps.
#[local] Hint Resolve steps_get_world steps_tick steps_note steps_interact : steps.

(** Walk through a computation, as [nothrow_go] does. *)
Ltac steps_go :=
  repeat match goal with
    | |- steps _ (ret _) => eapply steps_ret; eassumption
    | |- steps _ (throw _) => eapply steps_throw; eassumption
    | |- steps _ (bind _ _) => eapply steps_bind; [eassumption | | intros ?]
    | |- steps _ (try_catch _ _) => eapply steps_try; [eassumption | | intros ?]
    | |- steps _ (if ?b then _ else _) => destruct b
    | |- steps _ (match ?x with _ => _ end) => destruct x
    | |- steps _ _ => solve [eauto with steps]
    end.

Section SessionSteps.
Context (env : Env).
Context (allowed : Effect -> Prop) (R : World -> World -> Prop).
Context (HR : Closed allowed R) (Hio : forall ev, io_effect ev -> allowed ev).

Lemma steps_axios_post_details (activityId cookie : string) :
  steps R (axios_post_details env activityId cookie).
Proof. unfold axios_post_details. steps_go. Qed.

Lemma steps_getActivityDetailsRaw_loop (fuel : nat) (activityId cookies : string)
    (maxRetries attempt : nat) :
  steps R (getActivityDetailsRaw_loop env fuel activityId cookies maxRetries attempt).
Proof.
  revert attempt.
  induction fuel as [|fuel IH]; intros attempt; cbn [getActivityDetailsRaw_loop].
  - steps_go.
  - destruct (maxRetries <=? attempt)%nat; [steps_go|].
    eapply steps_bind; [exact HR | | intros [r|]; [steps_go | apply IH]].
    pose proof steps_axios_post_details.
    unfold getActivityDetailsRaw_attempt, JSON_parse_str, read_prop, sleep.
    steps_go.
Qed.

Lemma steps_getActivityDetailsRaw (activityId cookies : string) (maxRetries : nat) :
  steps R (getActivityDetailsRaw env activityId cookies maxRetries).
Proof. apply steps_getActivityDetailsRaw_loop. Qed.

Lemma steps_testCookieValidity (c : string) : steps R (testCookieValidity env c).
Proof.
  unfold testCookieValidity. destruct (negb _); [steps_go|].
  generalize 0%nat. generalize MAX_RETRIES at 1.
  intros fuel. induction fuel as [|fuel IH]; intros attempt; cbn [testCookieValidity_loop].
  - steps_go.
  - destruct (MAX_RETRIES <=? attempt)%nat; [steps_go|].
    pose proof steps_axios_post_details.
    eapply steps_bind; [exact HR | steps_go | intros [b|]; [steps_go | apply IH]].
Qed.

Lemma steps_getCompleteCookies (userName userPwd templateFilePath : string) :
  steps R (getCompleteCookies env userName userPwd templateFilePath).
Proof.
  unfold getCompleteCookies, getSessionId, getMSAUTH, axios_get_login,
    axios_post_login, readFile_template.
  steps_go.
Qed.

Lemma steps_fetch_and_parse (activityId cookie : string) :
  steps R (fetch_and_parse env activityId cookie).
Proof.
  pose proof steps_getActivityDetailsRaw.
  unfold fetch_and_parse, parse_details, JSON_parse_any, JSON_parse_str, read_prop.
  steps_go.
Qed.

Context (HC : CookieClosed R).

Lemma steps_set_inMemoryCookie (c : option string) : steps R (set_inMemoryCookie c).
Proof. intros w. apply (closed_mem _ HC). Qed.

Lemma steps_set_cookieFile (c : option string) : steps R (set_cookieFile c).
Proof. intros w. apply (closed_file _ HC). Qed.

Lemma steps_loadCachedCookie : steps R (loadCachedCookie env).
Proof.
  pose proof steps_set_inMemoryCookie.
  unfold loadCachedCookie, readFile_cookie. steps_go.
Qed.

Lemma steps_saveCookieToCache (c : string) : steps R (saveCookieToCache env c).
Proof.
  pose proof steps_set_inMemoryCookie. pose proof steps_set_cookieFile.
  unfold saveCookieToCache, writeFile_cookie. steps_go.
Qed.

Lemma steps_clearCookieCache : steps R (clearCookieCache env).
Proof.
  pose proof steps_set_inMemoryCookie. pose proof steps_set_cookieFile.
  unfold clearCookieCache, unlink_cookie. steps_go.
Qed.

Lemma steps_fetchActivityData (activityId userName userPwd templateFileName : string)
    (forceLogin : bool) :
  steps R (fetchActivityData env activityId userName userPwd templateFileName forceLogin).
Proof.
  pose proof steps_loadCachedCookie. pose proof steps_saveCookieToCache.
  pose proof steps_clearCookieCache. pose proof steps_testCookieValidity.
  pose proof steps_getCompleteCookies. pose proof steps_fetch_and_parse.
  unfold fetchActivityData. steps_go.
Qed.

End SessionSteps.

(** * The orchestrator after a rejection *)

Lemma nothrow_unit_run (m : M unit) (w : World) :
  nothrow m -> m w = (Ok tt, after m w).
Proof.
  intros H. destruct (H w) as [[] Ha]. unfold result, after in *.
  destruct (m w) as [o w']. simpl in *. subst o. reflexivity.
Qed.

Lemma same_cookies_closed : Closed (fun _ => True) same_cookies.
Proof.
  split.
  - intros w. split; reflexivity.
  - intros a b c [H1 H2] [H3 H4]. split; congruence.
  - intros w. split; reflexivity.
  - intros w ev _. split; reflexivity.
Qed.

Section Orchestrator.
Context (env : Env).

Lemma loadCachedCookie_truthy (w w1 : World) (c : string) :
  loadCachedCookie env w = (Ok (Some c), w1) -> Js.nonempty c = true.
Proof.
  unfold loadCachedCookie. intros H.
  rewrite (bind_ok _ _ w w w) in H by reflexivity.
  destruct (Js.truthy_str (inMemoryCookie w)) eqn:Hmem.
  - injection H as H _. rewrite H in Hmem. exact Hmem.
  - unfold try_catch, bind at 1 in H.
    destruct (readFile_cookie env w) as [[content|e] w'].
    + destruct (Js.nonempty content) eqn:Hne.
      * unfold bind, set_inMemoryCookie, ret in H. injection H as <- _. exact Hne.
      * discriminate.
    + discriminate.
Qed.

Lemma getCompleteCookies_nonempty (userName userPwd templateFilePath : string)
    (w w' : World) (c : string) :
  getCompleteCookies env userName userPwd templateFilePath w = (Ok c, w') ->
  Js.nonempty c = true.
Proof.
  unfold getCompleteCookies, bind.
  destruct (getSessionId env w) as [[[sid|]|e] w1]; try discriminate.
  destruct (getMSAUTH env sid userName userPwd templateFilePath w1)
    as [[[auth|]|e] w2]; try discriminate.
  intros [= <- _]. destruct sid; reflexivity.
Qed.

(** Saving a non-empty cookie puts it in the in-memory holder, and in the
    file when the write is not rejected. *)
Lemma saveCookieToCache_stores (c : string) (w : World) :
  Js.nonempty c = true ->
  inMemoryCookie (after (saveCookieToCache env c) w) = Some c /\
  (fs_reply env (clock w) = Gives tt ->
   cookieFile (after (saveCookieToCache env c) w) = Some c).
Proof.
  intros Hne. unfold after, saveCookieToCache. rewrite Hne.
  cbv [negb bind set_inMemoryCookie set_cookieFile try_catch writeFile_cookie
       interact note tick ret throw].
  simpl.
  destruct (fs_reply env (clock w)) as [code|[]]; simpl; split;
    intros; (reflexivity || congruence).
Qed.

End Orchestrator.

(** C1 (as amended). When the cached cookie passes its probe, the fetch is
    rejected with a 4xx status, the re-login succeeds and the one retry is
    rejected with a 4xx status as well, [fetchActivityData] returns [null];
    the cookie cache, cleared once before the re-login, ends holding the
    cookie of the re-login: in the in-memory holder, and in the file when
    that write is not rejected. *)
Theorem rejected_retry_returns_null_and_keeps_fresh_cookie
    (env : Env) (activityId userName userPwd templateFileName : string)
    (w w1 w2 w3 w4 w5 : World) (cached fresh : string) (status status' : Z) :
  loadCachedCookie env w = (Ok (Some cached), w1) ->
  testCookieValidity env cached w1 = (Ok true, w2) ->
  getActivityDetailsRaw env activityId cached 3 w2
    = (Throw (AuthenticationError status), w3) ->
  getCompleteCookies env userName userPwd templateFileName
      (after (clearCookieCache env) w3) = (Ok fresh, w4) ->
  getActivityDetailsRaw env activityId fresh 3 (after (saveCookieToCache env fresh) w4)
    = (Throw (AuthenticationError status'), w5) ->
  fetchActivityData env activityId userName userPwd templateFileName false w
    = (Ok JNull, w5) /\
  inMemoryCookie w5 = Some fresh /\
  fresh <> "" /\
  (fs_reply env (clock w4) = Gives tt -> cookieFile w5 = Some fresh).
Proof.
  intros Hload Hprobe Hfetch Hlogin Hretry.
  pose proof (loadCachedCookie_truthy _ _ _ _ Hload) as Hcached.
  pose proof (getCompleteCookies_nonempty _ _ _ _ _ _ _ Hlogin) as Hfresh.
  destruct (saveCookieToCache_stores env fresh w4 Hfresh) as [Hmem Hfile].
  assert (Hsame : same_cookies (after (saveCookieToCache env fresh) w4) w5).
  { pose proof (steps_getActivityDetailsRaw env _ _ same_cookies_closed
                  (fun _ _ => I) activityId fresh 3
                  (after (saveCookieToCache env fresh) w4)) as Hs.
    unfold after at 2 in Hs. rewrite Hretry in Hs. exact Hs. }
  destruct Hsame as [Hm Hf].
  split; [|split; [congruence | split]].
  - unfold fetchActivityData. cbn [andb].
    rewrite (bind_ok _ _ _ _ _ Hload).
    rewrite (bind_ok _ _ _ w1 (Some cached)) by reflexivity.
    cbn [Js.truthy_str default]. rewrite Hcached.
    erewrite bind_ok
      by (rewrite (bind_ok _ _ _ _ _ Hprobe); reflexivity).
    cbn [Js.truthy_str default]. rewrite Hcached. cbn [negb].
    rewrite (bind_ok _ _ _ w2 (Continue_with cached)) by reflexivity.
    rewrite Hcached. cbn [negb].
    erewrite try_throw
      by (unfold fetch_and_parse; erewrite bind_throw; [reflexivity | exact Hfetch]).
    cbv beta iota.
    rewrite (bind_ok _ _ _ _ _
               (nothrow_unit_run _ w3 (nothrow_clearCookieCache env))).
    erewrite try_throw; [reflexivity|].
    rewrite (bind_ok _ _ _ _ _ Hlogin).
    rewrite (bind_ok _ _ _ _ _
               (nothrow_unit_run _ w4 (nothrow_saveCookieToCache env fresh))).
    unfold fetch_and_parse. erewrite bind_throw; [reflexivity | exact Hretry].
  - intros ->. discriminate.
  - intros Hw. rewrite Hf. exact (Hfile Hw).
Qed.

(** * The orchestrator never throws *)

Lemma nothrow_ok {A} (m : M A) (w : World) :
  nothrow m -> exists a w', m w = (Ok a, w').
Proof.
  intros H. destruct (H w) as [a Ha]. unfold result in Ha.
  destruct (m w) as [o w']. simpl in Ha. subst o. eauto.
Qed.

(** With a budget of [maxRetries] attempts that all fail without a 4xx
    status, the fetch client re-raises the last failure. *)
Lemma getActivityDetailsRaw_exhausted
    (env : Env) (activityId cookies : string) (maxRetries : nat) (w : World) :
  (0 < maxRetries)%nat ->
  (forall i, (i < maxRetries)%nat ->
     exists st, http_post_details env (clock w + 2 * i) = Fails st /\ is_4xx st = false) ->
  exists st,
    getActivityDetailsRaw env activityId cookies maxRetries w
    = (Throw (AxiosError st),
       noted (retried_attempts activityId cookies 0 (maxRetries - 1)
              ++ [EvHttpPostDetails activityId cookies]) w).
Proof.
  intros Hpos Hfail.
  set (k := (maxRetries - 1)%nat).
  destruct (Hfail k ltac:(lia)) as (st & Hreply & Hst).
  exists st. unfold getActivityDetailsRaw.
  replace maxRetries with (k + 1)%nat at 1 by lia.
  rewrite loop_retries by (try lia; intros i Hi; apply Hfail; lia).
  cbn [getActivityDetailsRaw_loop Nat.add].
  replace (maxRetries <=? k)%nat with false by (symmetry; apply Nat.leb_gt; lia).
  erewrite bind_throw; cycle 1.
  { rewrite (attempt_transient env activityId cookies maxRetries k _ st);
      [| simpl; rewrite length_retried_attempts; exact Hreply | exact Hst].
    replace (k =? maxRetries - 1)%nat with true by (symmetry; apply Nat.eqb_eq; lia).
    reflexivity. }
  rewrite noted_app. reflexivity.
Qed.

Lemma classic_auth (e : JsError) :
  (exists status, e = AuthenticationError status) \/
  (forall status, e <> AuthenticationError status).
Proof.
  destruct e as [r|s|c| | |m]; try (right; intros ?; discriminate).
  left. eauto.
Qed.

Section FetchNull.
Context (env : Env) (activityId userName userPwd templateFileName : string)
        (forceLogin : bool).

Let run : M json :=
  fetchActivityData env activityId userName userPwd templateFileName forceLogin.

(** The handler of the first fetch. *)
Let on_error (error : JsError) : M json :=
  match error with
  | AuthenticationError _ =>
      clearCookieCache env ;;;
      try_catch
        (fresh <- getCompleteCookies env userName userPwd templateFileName ;;
         saveCookieToCache env fresh ;;;
         fetch_and_parse env activityId fresh)
        (fun retryLoginOrFetchError => ret JNull)
  | _ => ret JNull
  end.

Let after_login (login : LoginStep) : M json :=
  match login with
  | Return_null => ret JNull
  | Continue_with currentCookie =>
      if negb (Js.nonempty currentCookie) then ret JNull
      else try_catch (fetch_and_parse env activityId currentCookie) on_error
  end.

Let from_login : M json :=
  login <- try_catch
             (fresh <- getCompleteCookies env userName userPwd templateFileName ;;
              saveCookieToCache env fresh ;;;
              ret (Continue_with fresh))
             (fun loginError => ret Return_null) ;;
  after_login login.

Lemma run_from_login (w w0 : World) :
  reaches_login env forceLogin w w0 -> run w = from_login w0.
Proof.
  intros H. unfold run, fetchActivityData.
  destruct H as [Hforce | w1 Hforce Hload | cached w1 w2 Hforce Hload Hprobe];
    rewrite Hforce; cbn [andb].
  - reflexivity.
  - rewrite (bind_ok _ _ _ _ _ Hload). reflexivity.
  - pose proof (loadCachedCookie_truthy _ _ _ _ Hload) as Hcached.
    rewrite (bind_ok _ _ _ _ _ Hload).
    rewrite (bind_ok _ _ _ w1 (Some cached)) by reflexivity.
    cbn [Js.truthy_str default]. rewrite Hcached.
    erewrite bind_ok; cycle 1.
    { rewrite (bind_ok _ _ _ _ _ Hprobe). cbn [negb].
      rewrite (bind_ok _ _ _ _ _
                 (nothrow_unit_run _ w2 (nothrow_clearCookieCache env))).
      reflexivity. }
    reflexivity.
Qed.

Lemma run_from_fetch (w w1 : World) (cookie : string) :
  fetches_with env userName userPwd templateFileName forceLogin w cookie w1 ->
  Js.nonempty cookie = true /\
  run w = try_catch (fetch_and_parse env activityId cookie) on_error w1.
Proof.
  intros H.
  destruct H as [cached w1 w2 Hforce Hload Hprobe | w0 w1 fresh Hreach Hlogin].
  - pose proof (loadCachedCookie_truthy _ _ _ _ Hload) as Hcached.
    split; [exact Hcached|].
    unfold run, fetchActivityData. rewrite Hforce. cbn [andb].
    rewrite (bind_ok _ _ _ _ _ Hload).
    rewrite (bind_ok _ _ _ w1 (Some cached)) by reflexivity.
    cbn [Js.truthy_str default]. rewrite Hcached.
    erewrite bind_ok
      by (rewrite (bind_ok _ _ _ _ _ Hprobe); reflexivity).
    cbn [Js.truthy_str default]. rewrite Hcached. cbn [negb].
    rewrite (bind_ok _ _ _ w2 (Continue_with cached)) by reflexivity.
    rewrite Hcached. reflexivity.
  - pose proof (getCompleteCookies_nonempty _ _ _ _ _ _ _ Hlogin) as Hfresh.
    split; [exact Hfresh|].
    rewrite (run_from_login _ _ Hreach). unfold from_login.
    erewrite bind_ok; cycle 1.
    { apply try_ok. rewrite (bind_ok _ _ _ _ _ Hlogin).
      rewrite (bind_ok _ _ _ _ _
                 (nothrow_unit_run _ w1 (nothrow_saveCookieToCache env fresh))).
      reflexivity. }
    unfold after_login. rewrite Hfresh. reflexivity.
Qed.

Lemma run_login_failed (w w0 w1 : World) (e : JsError) :
  reaches_login env forceLogin w w0 ->
  getCompleteCookies env userName userPwd templateFileName w0 = (Throw e, w1) ->
  run w = (Ok JNull, w1).
Proof.
  intros Hreach Hlogin. rewrite (run_from_login _ _ Hreach). unfold from_login.
  erewrite bind_ok; cycle 1.
  { erewrite try_throw; [reflexivity|].
    erewrite bind_throw; [reflexivity | exact Hlogin]. }
  reflexivity.
Qed.

Lemma on_error_other (e : JsError) (w : World) :
  (forall status, e <> AuthenticationError status) ->
  on_error e w = (Ok JNull, w).
Proof.
  intros H. destruct e as [r|s|c| | |m]; try reflexivity. destruct (H s eq_refl).
Qed.

Lemma on_error_login_failed (status : Z) (w w' : World) (e : JsError) :
  getCompleteCookies env userName userPwd templateFileName
    (after (clearCookieCache env) w) = (Throw e, w') ->
  on_error (AuthenticationError status) w = (Ok JNull, w').
Proof.
  intros Hlogin. unfold on_error.
  rewrite (bind_ok _ _ _ _ _
             (nothrow_unit_run _ w (nothrow_clearCookieCache env))).
  erewrite try_throw; [reflexivity|].
  erewrite bind_throw; [reflexivity | exact Hlogin].
Qed.

Lemma on_error_retry (status : Z) (w w' : World) (fresh : string) :
  getCompleteCookies env userName userPwd templateFileName
    (after (clearCookieCache env) w) = (Ok fresh, w') ->
  on_error (AuthenticationError status) w
  = try_catch (fetch_and_parse env activityId fresh) (fun _ => ret JNull)
      (after (saveCookieToCache env fresh) w').
Proof.
  intros Hlogin. unfold on_error.
  rewrite (bind_ok _ _ _ _ _
             (nothrow_unit_run _ w (nothrow_clearCookieCache env))).
  unfold try_catch at 1.
  rewrite (bind_ok _ _ _ _ _ Hlogin).
  rewrite (bind_ok _ _ _ _ _
             (nothrow_unit_run _ w' (nothrow_saveCookieToCache env fresh))).
  reflexivity.
Qed.

(** A value of a fetch: [null], or what a successful request for the
    details gave, the run ending where that request ended. *)
Let fetched (v : json) (w' : World) : Prop :=
  v <> JNull ->
  exists cookie w0,
    Js.nonempty cookie = true /\
    fetch_and_parse env activityId cookie w0 = (Ok v, w').

Lemma fetched_null (w' : World) : fetched JNull w'.
Proof. intros H. destruct (H eq_refl). Qed.

Lemma on_error_returns (e : JsError) (w : World) :
  exists v w', on_error e w = (Ok v, w') /\ fetched v w'.
Proof.
  destruct (classic_auth e) as [[status ->]|Hother].
  - destruct (getCompleteCookies env userName userPwd templateFileName
                (after (clearCookieCache env) w)) as [[fresh|e'] w4] eqn:Hlogin.
    + rewrite (on_error_retry _ _ _ _ Hlogin).
      pose proof (getCompleteCookies_nonempty _ _ _ _ _ _ _ Hlogin) as Hfresh.
      destruct (fetch_and_parse env activityId fresh
                  (after (saveCookieToCache env fresh) w4)) as [[v|e''] w5] eqn:Hretry.
      * exists v, w5. split; [apply try_ok; exact Hretry|].
        intros _. eauto.
      * exists JNull, w5. split; [|apply fetched_null].
        erewrite try_throw; [reflexivity | exact Hretry].
    + exists JNull, w4. split; [|apply fetched_null].
      apply (on_error_login_failed _ _ _ _ Hlogin).
  - exists JNull, w. split; [|apply fetched_null]. apply on_error_other, Hother.
Qed.

Lemma run_returns_from_fetch (w w1 : World) (cookie : string) :
  fetches_with env userName userPwd templateFileName forceLogin w cookie w1 ->
  exists v w', run w = (Ok v, w') /\ fetched v w'.
Proof.
  intros Hpath. destruct (run_from_fetch _ _ _ Hpath) as [Hne ->].
  destruct (fetch_and_parse env activityId cookie w1) as [[v|e] w2] eqn:Hfetch.
  - exists v, w2. split; [apply try_ok; exact Hfetch|]. intros _. eauto.
  - destruct (on_error_returns e w2) as (v & w' & Hv & Hf).
    exists v, w'. split; [|exact Hf].
    erewrite try_throw; [exact Hv | exact Hfetch].
Qed.

Lemma run_returns_from_login (w w0 : World) :
  reaches_login env forceLogin w w0 ->
  exists v w', run w = (Ok v, w') /\ fetched v w'.
Proof.
  intros Hreach.
  destruct (getCompleteCookies env userName userPwd templateFileName w0)
    as [[fresh|e] w1] eqn:Hlogin.
  - apply (run_returns_from_fetch w (after (saveCookieToCache env fresh) w1) fresh).
    econstructor 2; eassumption.
  - exists JNull, w1. split; [|apply fetched_null].
    apply (run_login_failed _ _ _ _ Hreach Hlogin).
Qed.

Lemma run_returns (w : World) : exists v w', run w = (Ok v, w') /\ fetched v w'.
Proof.
  destruct (Bool.bool_dec forceLogin true) as [Hforce|Hforce].
  - apply (run_returns_from_login w w). constructor 1. exact Hforce.
  - apply Bool.not_true_is_false in Hforce.
    destruct (nothrow_ok _ w (nothrow_loadCachedCookie env)) as ([cached|] & w1 & Hload).
    + destruct (nothrow_ok _ w1 (nothrow_testCookieValidity env cached))
        as ([|] & w2 & Hprobe).
      * apply (run_returns_from_fetch w w2 cached). econstructor 1; eauto.
      * apply (run_returns_from_login w (after (clearCookieCache env) w2)).
        econstructor 3; eauto.
    + apply (run_returns_from_login w w1). econstructor 2; eauto.
Qed.

End FetchNull.


(** * The statements on concrete surroundings *)

Example demo_last_candidate :
  last_nonempty_candidate Demo.forms_header = Some ".ASPXFORMSAUTH=TOKEN".
Proof. vm_compute. reflexivity. Qed.

Example demo_retry_trace :
  getActivityDetailsRaw Demo.flaky "42" "c" 3 Demo.cold
  = (Throw (AuthenticationError 401),
     noted [EvHttpPostDetails "42" "c"; EvSleep 1000;
            EvHttpPostDetails "42" "c"; EvSleep 2000;
            EvHttpPostDetails "42" "c"] Demo.cold).
Proof. vm_compute. reflexivity. Qed.


Lemma login_keeps_last_nonempty_candidate_witness :
  result (getCompleteCookies Demo.rejecting "u" "p" "login_template.txt") Demo.cold
  = Ok Demo.fresh_cookie.
Proof.
  refine (proj2 (proj2 (login_keeps_last_nonempty_candidate Demo.rejecting
            "u" "p" "login_template.txt" Demo.cold _ "ASP.NET_SessionId=abc123" _
            Demo.forms_header _ _ _))).
  - vm_compute. reflexivity.
  - vm_compute. reflexivity.
  - vm_compute. reflexivity.
Defined.

Lemma fetch_client_retry_policy_witness :
  getActivityDetailsRaw Demo.flaky "42" "c" 3 Demo.cold
  = (Throw (AuthenticationError 401),
     noted (retried_attempts "42" "c" 0 2 ++ [EvHttpPostDetails "42" "c"]) Demo.cold).
Proof.
  refine (proj1 (fetch_client_retry_policy Demo.flaky "42" "c" 3 2 Demo.cold _ _)
            401 _ _).
  - lia.
  - intros [|[|i]] Hi.
    + exists (Some 503). split; reflexivity.
    + exists (Some 502). split; reflexivity.
    + lia.
  - lia.
  - reflexivity.
Defined.

Lemma rejected_retry_returns_null_and_keeps_fresh_cookie_witness :
  exists w5,
    fetchActivityData Demo.rejecting "42" "u" "p" "login_template.txt" false Demo.warm
    = (Ok JNull, w5) /\
    inMemoryCookie w5 = Some Demo.fresh_cookie /\
    Demo.fresh_cookie <> "" /\
    cookieFile w5 = Some Demo.fresh_cookie.
Proof.
  pose (w1 := after (loadCachedCookie Demo.rejecting) Demo.warm).
  pose (w2 := after (testCookieValidity Demo.rejecting "old") w1).
  pose (w3 := after (getActivityDetailsRaw Demo.rejecting "42" "old" 3) w2).
  pose (w4 := after (getCompleteCookies Demo.rejecting "u" "p" "login_template.txt")
                (after (clearCookieCache Demo.rejecting) w3)).
  pose (w5 := after (getActivityDetailsRaw Demo.rejecting "42" Demo.fresh_cookie 3)
                (after (saveCookieToCache Demo.rejecting Demo.fresh_cookie) w4)).
  exists w5.
  destruct (rejected_retry_returns_null_and_keeps_fresh_cookie Demo.rejecting
              "42" "u" "p" "login_template.txt" Demo.warm w1 w2 w3 w4 w5
              "old" Demo.fresh_cookie 401 401)
    as (H1 & H2 & H3 & H4); try (vm_compute; reflexivity).
  split; [exact H1|]. split; [exact H2|]. split; [exact H3|].
  apply H4. vm_compute. reflexivity.
Defined.

(** C1 (as stated) fails: in the scenario of the claim the cookie cache does
    not end empty. *)
Lemma rejected_retry_store_not_empty :
  ~ (forall (env : Env) (activityId userName userPwd templateFileName : string)
       (w w1 w2 w3 w4 w5 : World) (cached fresh : string) (status status' : Z),
       loadCachedCookie env w = (Ok (Some cached), w1) ->
       testCookieValidity env cached w1 = (Ok true, w2) ->
       400 <= status <= 499 ->
       getActivityDetailsRaw env activityId cached 3 w2
         = (Throw (AuthenticationError status), w3) ->
       getCompleteCookies env userName userPwd templateFileName
           (after (clearCookieCache env) w3) = (Ok fresh, w4) ->
       400 <= status' <= 499 ->
       getActivityDetailsRaw env activityId fresh 3
           (after (saveCookieToCache env fresh) w4)
         = (Throw (AuthenticationError status'), w5) ->
       let run := fetchActivityData env activityId userName userPwd
                    templateFileName false in
       result run w = Ok JNull /\
       inMemoryCookie (after run w) = None /\
       cookieFile (after run w) = None).
Proof.
  intros H.
  pose (w1 := after (loadCachedCookie Demo.rejecting) Demo.warm).
  pose (w2 := after (testCookieValidity Demo.rejecting "old") w1).
  pose (w3 := after (getActivityDetailsRaw Demo.rejecting "42" "old" 3) w2).
  pose (w4 := after (getCompleteCookies Demo.rejecting "u" "p" "login_template.txt")
                (after (clearCookieCache Demo.rejecting) w3)).
  pose (w5 := after (getActivityDetailsRaw Demo.rejecting "42" Demo.fresh_cookie 3)
                (after (saveCookieToCache Demo.rejecting Demo.fresh_cookie) w4)).
  destruct (H Demo.rejecting "42" "u" "p" "login_template.txt" Demo.warm
              w1 w2 w3 w4 w5 "old" Demo.fresh_cookie 401 401)
    as (_ & Hmem & _); try (vm_compute; reflexivity); try lia.
  vm_compute in Hmem. discriminate Hmem.
Qed.

(** * Objects *)

Lemma Obj_get_set_eq (k : string) (v : json) (fs : list (string * json)) :
  Obj.get k (Obj.set k v fs) = Some v.
Proof.
  induction fs as [|[k' v'] fs IH]; simpl.
  - rewrite String.eqb_refl. reflexivity.
  - destruct (String.eqb k' k) eqn:E; simpl; rewrite E; [reflexivity | exact IH].
Qed.

Lemma Obj_get_set_ne (k k' : string) (v : json) (fs : list (string * json)) :
  k <> k' -> Obj.get k' (Obj.set k v fs) = Obj.get k' fs.
Proof.
  intros Hne. induction fs as [|[k0 v0] fs IH]; simpl.
  - destruct (String.eqb k k') eqn:E; [apply String.eqb_eq in E; contradiction | reflexivity].
  - destruct (String.eqb k0 k) eqn:E; simpl.
    + apply String.eqb_eq in E. subst k0.
      destruct (String.eqb k k') eqn:E'; [apply String.eqb_eq in E'; contradiction | reflexivity].
    + rewrite IH. reflexivity.
Qed.

(** * The engine never throws *)

Lemma nothrow_mapM {A B} (f : A -> M B) (l : list A) :
  (forall a, nothrow (f a)) -> nothrow (mapM f l).
Proof. intros Hf. induction l as [|a l IH]; simpl; nothrow_go; auto. Qed.

Lemma nothrow_foldM {A B} (f : B -> A -> M B) (l : list A) (acc : B) :
  (forall b a, nothrow (f b a)) -> nothrow (foldM f acc l).
Proof.
  intros Hf. revert acc. induction l as [|a l IH]; intros acc; simpl; nothrow_go; auto.
Qed.

Lemma nothrow_for_each {A} (f : A -> M unit) (l : list A) :
  (forall a, nothrow (f a)) -> nothrow (for_each f l).
Proof. intros Hf. induction l as [|a l IH]; simpl; nothrow_go; auto. Qed.

Lemma nothrow_fetchActivityData (env : Env) (id u p t : string) (force : bool) :
  nothrow (fetchActivityData env id u p t force).
Proof. unfold fetchActivityData. nothrow_go. Qed.

#[local] Hint Resolve nothrow_fetchActivityData : nothrow.

Section EngineNeverThrows.
Context (env : Env) (cfg : Config).

Lemma nothrow_get_parsed (key : string) : nothrow (get_parsed env cfg key).
Proof. unfold get_parsed. nothrow_go. Qed.

Lemma nothrow_set_stringified (key : string) (data : json) :
  nothrow (set_stringified env cfg key data).
Proof. unfold set_stringified. nothrow_go. Qed.

Lemma nothrow_getActivityData (id : string) : nothrow (getActivityData env cfg id).
Proof. apply nothrow_get_parsed. Qed.

Lemma nothrow_setActivityData (id : string) (data : json) :
  nothrow (setActivityData env cfg id data).
Proof. apply nothrow_set_stringified. Qed.

Lemma nothrow_getAllActivityKeys : nothrow (getAllActivityKeys env cfg).
Proof. unfold getAllActivityKeys. nothrow_go. Qed.

Lemma nothrow_listS3Objects (pfx : string) : nothrow (listS3Objects env cfg pfx).
Proof. unfold listS3Objects. nothrow_go. Qed.

Lemma nothrow_s3_delete (key : string) : nothrow (s3_delete env key).
Proof. unfold s3_delete. nothrow_go. Qed.

Lemma nothrow_deleteS3Objects (keys : list string) : nothrow (deleteS3Objects env cfg keys).
Proof. unfold deleteS3Objects. nothrow_go. Qed.

Lemma nothrow_new_Date_toISOString : nothrow (new_Date_toISOString env).
Proof. unfold new_Date_toISOString. nothrow_go. Qed.

Lemma nothrow_processAndCacheActivity (id : string) :
  nothrow (processAndCacheActivity env cfg id).
Proof.
  pose proof nothrow_setActivityData. pose proof nothrow_new_Date_toISOString.
  unfold processAndCacheActivity, processAndCacheActivity_try. nothrow_go.
Qed.

Lemma nothrow_collect_referenced (keys : list string) :
  nothrow (collect_referenced env cfg keys).
Proof.
  pose proof nothrow_getActivityData.
  unfold collect_referenced. apply nothrow_foldM. intros b a. nothrow_go.
Qed.

Lemma nothrow_cleanupOrphanedS3Images : nothrow (cleanupOrphanedS3Images env cfg).
Proof. unfold cleanupOrphanedS3Images. nothrow_go. Qed.

End EngineNeverThrows.

#[local] Hint Resolve nothrow_get_parsed nothrow_set_stringified nothrow_getActivityData
  nothrow_setActivityData nothrow_getAllActivityKeys nothrow_listS3Objects
  nothrow_s3_delete nothrow_deleteS3Objects nothrow_new_Date_toISOString
  nothrow_processAndCacheActivity nothrow_collect_referenced
  nothrow_cleanupOrphanedS3Images : nothrow.

(** * What the engine leaves alone *)

#[local] Hint Extern 1 (read_effect _) => exact I : steps.

Section EngineSteps.
Context (env : Env) (cfg : Config).
Context (allowed : Effect -> Prop) (R : World -> World -> Prop).
Context (HR : Closed allowed R) (HC : CookieClosed R).
Context (Hio : forall ev, io_effect ev -> allowed ev).
Context (Hrd : forall ev, read_effect ev -> allowed ev).
Context (storable : string -> json -> Prop).
Context (Hset : forall key data,
            storable key data -> steps R (redis_set env key (JSON_stringify env data))).

Lemma steps_get_parsed (key : string) : steps R (get_parsed env cfg key).
Proof. unfold get_parsed, redis_get, JSON_parse_str. steps_go. Qed.

Lemma steps_set_stringified (key : string) (data : json) :
  storable key data -> steps R (set_stringified env cfg key data).
Proof. intros H. pose proof (Hset _ _ H). unfold set_stringified. steps_go. Qed.

Lemma steps_scan_loop (replies : list (Reply unit (string * option (list string))))
    (keys : list string) :
  steps R (scan_loop replies keys).
Proof.
  revert keys. induction replies as [|r rest IH]; intros keys; simpl; [steps_go|].
  destruct r as [|[cursor found]]; [steps_go|].
  destruct (String.eqb cursor "0"); [steps_go | apply IH].
Qed.

Lemma steps_getAllActivityKeys : steps R (getAllActivityKeys env cfg).
Proof. pose proof steps_scan_loop. unfold getAllActivityKeys. steps_go. Qed.

Lemma steps_listS3Objects_loop (pages : list (Reply unit S3Page)) (acc : list string) :
  steps R (listS3Objects_loop pages acc).
Proof.
  revert acc. induction pages as [|p rest IH]; intros acc; simpl; [steps_go|].
  destruct p as [|page]; [steps_go|].
  destruct (contents page) as [[|i items]|]; [steps_go| |].
  - destruct (default false (isTruncated page)); [apply IH | steps_go].
  - destruct (default false (isTruncated page)); [apply IH | steps_go].
Qed.

Lemma steps_listS3Objects (pfx : string) : steps R (listS3Objects env cfg pfx).
Proof. pose proof steps_listS3Objects_loop. unfold listS3Objects. steps_go. Qed.

Lemma steps_uploadImageFromBase64 (data format id : string) :
  steps R (uploadImageFromBase64 env cfg data format id).
Proof. unfold uploadImageFromBase64. steps_go. Qed.

Lemma steps_offload_photo (id : string) (o : list (string * json)) :
  steps R (offload_photo env cfg id o).
Proof.
  pose proof steps_uploadImageFromBase64. unfold offload_photo. steps_go.
Qed.

Lemma steps_new_Date_toISOString : steps R (new_Date_toISOString env).
Proof. unfold new_Date_toISOString. steps_go. Qed.

Lemma steps_Date_now_ms : steps R (Date_now_ms env).
Proof. unfold Date_now_ms. steps_go. Qed.

Lemma steps_run_structActivityData (raw : json) : steps R (run_structActivityData env raw).
Proof. unfold run_structActivityData. steps_go. Qed.

Lemma steps_run_structStaffData (raw : json) : steps R (run_structStaffData env raw).
Proof. unfold run_structStaffData. steps_go. Qed.

Lemma steps_collect_referenced (keys : list string) :
  steps R (collect_referenced env cfg keys).
Proof.
  pose proof steps_get_parsed.
  unfold collect_referenced, getActivityData.
  eapply steps_foldM; [exact HR|]. intros b a. steps_go.
Qed.

(** An activity record that carries a [lastCheck] may be stored for [id]. *)
Let records_storable (id : string) : Prop :=
  forall fields ts,
    Obj.get "lastCheck" fields = Some (JStr ts) ->
    storable (ACTIVITY_KEY_PREFIX +:+ id) (JObj fields).

Lemma steps_store_record (id : string) (fields : list (string * json)) (ts : string) :
  records_storable id ->
  Obj.get "lastCheck" fields = Some (JStr ts) ->
  steps R (setActivityData env cfg id (JObj fields)).
Proof. intros Hrecord H. eapply steps_set_stringified, Hrecord, H. Qed.

Lemma steps_processAndCacheActivity_try (id : string) :
  records_storable id -> steps R (processAndCacheActivity_try env cfg id).
Proof.
  intros Hrecord.
  pose proof (steps_fetchActivityData env _ _ HR Hio HC).
  pose proof steps_new_Date_toISOString. pose proof steps_run_structActivityData.
  pose proof steps_offload_photo.
  assert (Hs1 : forall now o,
            steps R (setActivityData env cfg id
                       (JObj (Obj.set "lastCheck" (JStr now) o)))).
  { intros. eapply steps_store_record; [exact Hrecord | apply Obj_get_set_eq]. }
  assert (Hs2 : forall now rest,
            steps R (setActivityData env cfg id (JObj (("lastCheck", JStr now) :: rest)))).
  { intros. eapply steps_store_record; [exact Hrecord | reflexivity]. }
  unfold processAndCacheActivity_try. steps_go.
Qed.

Lemma steps_processAndCacheActivity (id : string) :
  records_storable id -> allowed (EvProcess id) ->
  steps R (processAndCacheActivity env cfg id).
Proof.
  intros Hrecord Hproc. pose proof (steps_processAndCacheActivity_try id Hrecord).
  unfold processAndCacheActivity. steps_go.
Qed.

Lemma steps_fetchProcessAndStoreActivity (id : string) :
  records_storable id -> steps R (fetchProcessAndStoreActivity env cfg id).
Proof.
  intros Hrecord.
  pose proof (steps_fetchActivityData env _ _ HR Hio HC).
  pose proof steps_new_Date_toISOString. pose proof steps_run_structActivityData.
  pose proof steps_offload_photo.
  assert (Hs1 : forall now o,
            steps R (setActivityData env cfg id
                       (JObj (Obj.set "lastCheck" (JStr now) o)))).
  { intros. eapply steps_store_record; [exact Hrecord | apply Obj_get_set_eq]. }
  assert (Hs2 : forall now rest,
            steps R (setActivityData env cfg id (JObj (("lastCheck", JStr now) :: rest)))).
  { intros. eapply steps_store_record; [exact Hrecord | reflexivity]. }
  unfold fetchProcessAndStoreActivity. steps_go.
Qed.

Lemma steps_mapM_s3_delete (keys : list string) :
  (forall k, In k keys -> allowed (EvS3Delete k)) ->
  steps R (mapM (s3_delete env) keys).
Proof.
  induction keys as [|k keys IH]; intros Hk; simpl; [steps_go|].
  eapply steps_bind; [exact HR | | intros b].
  - unfold s3_delete. eapply steps_bind; [exact HR | | intros t; steps_go].
    apply (steps_interact _ _ HR). apply Hk. left. reflexivity.
  - eapply steps_bind; [exact HR | | intros bs; steps_go].
    apply IH. intros k' Hk'. apply Hk. right. exact Hk'.
Qed.

Lemma steps_deleteS3Objects (keys : list string) :
  (forall k, In k keys -> allowed (EvS3Delete k)) ->
  steps R (deleteS3Objects env cfg keys).
Proof.
  intros Hk.
  assert (Hloop : forall fuel remaining s e,
            (forall k, In k remaining -> In k keys) ->
            steps R (deleteS3Objects_loop env fuel remaining s e)).
  { induction fuel as [|fuel IH]; intros remaining s e Hsub; simpl; [steps_go|].
    destruct remaining as [|k0 rest]; [steps_go|].
    eapply steps_bind; [exact HR | | intros results].
    - apply steps_mapM_s3_delete. intros k Hin. apply Hk, Hsub.
      apply list_elem_of_In, (subseteq_take BATCH_SIZE), list_elem_of_In, Hin.
    - apply IH. intros k Hin. apply Hsub.
      apply list_elem_of_In, (subseteq_drop BATCH_SIZE), list_elem_of_In, Hin. }
  unfold deleteS3Objects.
  destruct (negb _); [steps_go|]. destruct keys as [|k0 rest]; [steps_go|].
  eapply steps_try; [exact HR | | intros e; steps_go].
  eapply steps_bind; [exact HR | apply Hloop; auto | intros c; steps_go].
Qed.

Lemma steps_cleanupOrphanedS3Images :
  (forall k, constructS3Url cfg k <> "" -> allowed (EvS3Delete k)) ->
  steps R (cleanupOrphanedS3Images env cfg).
Proof.
  intros Hk.
  pose proof steps_getAllActivityKeys. pose proof steps_collect_referenced.
  pose proof steps_listS3Objects.
  assert (Hdel : forall refd listed,
            steps R (deleteS3Objects env cfg (select_orphans cfg refd listed))).
  { intros. apply steps_deleteS3Objects. intros k Hin. apply Hk.
    apply List.filter_In in Hin as [_ Hin]. apply andb_prop in Hin as [Hne _].
    intros E. rewrite E in Hne. discriminate. }
  unfold cleanupOrphanedS3Images.
  eapply steps_try; [exact HR | | intros e; steps_go].
  eapply steps_bind; [exact HR | auto | intros keys].
  eapply steps_bind; [exact HR | auto | intros refd].
  eapply steps_bind; [exact HR | auto | intros listed].
  destruct listed as [|l0 rest]; [steps_go|].
  destruct (select_orphans cfg refd (l0 :: rest)) eqn:E; [steps_go|].
  rewrite <- E. eapply steps_bind; [exact HR | apply Hdel | intros b; steps_go].
Qed.

Context (Hrecord : forall id, records_storable id).
Context (Hproc : forall id, allowed (EvProcess id)).

Lemma steps_init_job (id : string) : steps R (init_job env cfg id).
Proof.
  pose proof steps_get_parsed.
  pose proof (steps_processAndCacheActivity id (Hrecord id) (Hproc id)).
  unfold init_job, getActivityData. steps_go.
Qed.

Lemma steps_initializeClubCache : steps R (initializeClubCache env cfg).
Proof.
  unfold initializeClubCache. eapply steps_for_each; [exact HR|]. apply steps_init_job.
Qed.

Lemma steps_stale_job (now interval : Z) (id : string) :
  steps R (stale_job env cfg now interval id).
Proof.
  pose proof steps_get_parsed.
  pose proof (steps_processAndCacheActivity id (Hrecord id) (Hproc id)).
  unfold stale_job, getActivityData. steps_go.
Qed.

Lemma steps_updateStaleClubs :
  (forall k, constructS3Url cfg k <> "" -> allowed (EvS3Delete k)) ->
  steps R (updateStaleClubs env cfg).
Proof.
  intros Hk.
  pose proof steps_Date_now_ms. pose proof steps_getAllActivityKeys.
  pose proof (steps_cleanupOrphanedS3Images Hk).
  unfold updateStaleClubs.
  eapply steps_bind; [exact HR | auto | intros now].
  eapply steps_bind; [exact HR | auto | intros keys].
  eapply steps_bind; [exact HR | auto | intros _].
  eapply steps_for_each; [exact HR|]. intros key. apply steps_stale_job.
Qed.

End EngineSteps.

(** * Traces *)

Lemma extends_closed (allowed : Effect -> Prop) : Closed allowed (extends allowed).
Proof.
  split.
  - intros w. exists []. rewrite app_nil_r. split; [reflexivity | constructor].
  - intros a b c (e1 & H1 & F1) (e2 & H2 & F2). exists (e1 ++ e2)%list.
    rewrite H2, H1, app_assoc. split; [reflexivity | apply Forall_app; split; assumption].
  - intros w. exists []. simpl. rewrite app_nil_r. split; [reflexivity | constructor].
  - intros w ev H. exists [ev]. split; [reflexivity | repeat constructor; exact H].
Qed.

Lemma extends_cookie_closed (allowed : Effect -> Prop) : CookieClosed (extends allowed).
Proof.
  split; intros w c; exists []; simpl; rewrite app_nil_r;
    (split; [reflexivity | constructor]).
Qed.

Lemma extends_new_effects (allowed : Effect -> Prop) (w w' : World) :
  extends allowed w w' -> Forall allowed (new_effects w w').
Proof.
  intros (evs & H & F). unfold new_effects. rewrite H, drop_app_length. exact F.
Qed.

Lemma steps_redis_set_extends (env : Env) (allowed : Effect -> Prop) (key value : string) :
  allowed (EvRedisSet key value) -> steps (extends allowed) (redis_set env key value).
Proof.
  intros H w. unfold after, redis_set.
  rewrite (bind_ok _ _ _ _ _ (interact_run _ _)).
  exists [EvRedisSet key value].
  split; [|repeat constructor; exact H].
  destruct (redis_fails env (clock w)); reflexivity.
Qed.

(** * Orphan cleanup *)

Lemma constructS3Url_empty (cfg : Config) (key : string) :
  constructS3Url cfg key = "" <->
  Js.truthy_str (S3_ENDPOINT cfg) = false \/ Js.truthy_str (BUCKET_NAME cfg) = false.
Proof.
  unfold constructS3Url.
  destruct (Js.truthy_str (S3_ENDPOINT cfg)), (Js.truthy_str (BUCKET_NAME cfg));
    simpl; try tauto.
  split; [|intros [H|H]; discriminate].
  destruct (Js.strip_trailing_slash _); discriminate.
Qed.

(** C10. Orphan cleanup never deletes a listed object whose public URL is
    the empty string; when the endpoint or the bucket is not configured the
    URL of every key is empty and the cleanup deletes nothing. *)
Theorem cleanup_never_deletes_without_url (env : Env) (cfg : Config) (w : World) :
  (forall key,
     In (EvS3Delete key) (new_effects w (after (cleanupOrphanedS3Images env cfg) w)) ->
     constructS3Url cfg key <> "") /\
  (Js.truthy_str (S3_ENDPOINT cfg) = false \/ Js.truthy_str (BUCKET_NAME cfg) = false ->
   forall key,
     constructS3Url cfg key = "" /\
     ~ In (EvS3Delete key) (new_effects w (after (cleanupOrphanedS3Images env cfg) w))).
Proof.
  assert (Hrun : Forall (deletes_only_with_url cfg)
                   (new_effects w (after (cleanupOrphanedS3Images env cfg) w))).
  { apply extends_new_effects.
    apply (steps_cleanupOrphanedS3Images env cfg _ _ (extends_closed _)).
    - intros [] H; (exact I || destruct H).
    - intros k Hk. exact Hk. }
  assert (Hfirst : forall key,
            In (EvS3Delete key) (new_effects w (after (cleanupOrphanedS3Images env cfg) w)) ->
            constructS3Url cfg key <> "").
  { intros key Hin. rewrite List.Forall_forall in Hrun. exact (Hrun _ Hin). }
  split; [exact Hfirst|].
  intros Hcfg key.
  assert (Hurl : constructS3Url cfg key = "") by (apply constructS3Url_empty, Hcfg).
  split; [exact Hurl|]. intros Hin. exact (Hfirst key Hin Hurl).
Qed.

(** * Every record written carries a time stamp *)

Section CacheKept.
Context (env : Env).

Lemma cache_kept_refl (w : World) : cache_kept env w w.
Proof.
  split; [apply (closed_refl _ _ (extends_closed _)) | intros key; left; reflexivity].
Qed.

Lemma cache_kept_same_redis (w w' : World) :
  extends (activity_write env) w w' -> redis w' = redis w -> cache_kept env w w'.
Proof. intros He Hr. split; [exact He | intros key; left; rewrite Hr; reflexivity]. Qed.

Lemma cache_kept_closed : Closed (activity_write env) (cache_kept env).
Proof.
  split.
  - apply cache_kept_refl.
  - intros a b c [E1 K1] [E2 K2]. split.
    + exact (closed_trans _ _ (extends_closed _) _ _ _ E1 E2).
    + intros key. destruct (K2 key) as [Hsame|Hnew]; [|right; exact Hnew].
      rewrite Hsame. apply K1.
  - intros w. apply cache_kept_same_redis; [|reflexivity].
    apply (closed_tick _ _ (extends_closed _)).
  - intros w ev H. apply cache_kept_same_redis; [|reflexivity].
    apply (closed_note _ _ (extends_closed _)), H.
Qed.

Lemma cache_kept_cookie_closed : CookieClosed (cache_kept env).
Proof.
  split; intros w c; (apply cache_kept_same_redis; [|reflexivity]).
  - apply (closed_mem _ (extends_cookie_closed _)).
  - apply (closed_file _ (extends_cookie_closed _)).
Qed.

Lemma cache_kept_redis_set (key : string) (data : json) :
  record_with_lastCheck key data ->
  steps (cache_kept env) (redis_set env key (JSON_stringify env data)).
Proof.
  intros [Hkey (fields & ts & -> & Hts)] w.
  assert (Hc : carries_lastCheck env (JSON_stringify env (JObj fields)))
    by (exists fields, ts; split; [reflexivity | exact Hts]).
  split.
  - apply steps_redis_set_extends. split; assumption.
  - intros k. unfold after, redis_set.
    rewrite (bind_ok _ _ _ _ _ (interact_run _ _)).
    destruct (redis_fails env (clock w)); [left; reflexivity|].
    cbn. destruct (decide (key = k)) as [<-|Hne].
    + right. split; [exact Hkey|]. eexists. split; [apply lookup_insert_eq | exact Hc].
    + left. apply lookup_insert_ne, Hne.
Qed.

End CacheKept.

(** C9. Every write to the per-entity activity cache stores a record with a
    [lastCheck] time stamp: whatever [processAndCacheActivity] (normalised
    record, confirmed-empty record, error record), the route helper
    [fetchProcessAndStoreActivity], the population pass and the staleness
    sweep write to Redis is the text of an object that has [lastCheck], and
    every cache entry they change ends as such a text. *)
Theorem every_activity_write_carries_lastCheck
    (env : Env) (cfg : Config) (activityId : string) (w : World) :
  cache_kept env w (after (processAndCacheActivity env cfg activityId) w) /\
  cache_kept env w (after (fetchProcessAndStoreActivity env cfg activityId) w) /\
  cache_kept env w (after (initializeClubCache env cfg) w) /\
  cache_kept env w (after (updateStaleClubs env cfg) w).
Proof.
  assert (Hio : forall ev, io_effect ev -> activity_write env ev)
    by (intros [] H; (exact I || destruct H)).
  assert (Hrd : forall ev, read_effect ev -> activity_write env ev)
    by (intros [] H; (exact I || destruct H)).
  assert (Hrecord : forall id fields ts,
            Obj.get "lastCheck" fields = Some (JStr ts) ->
            record_with_lastCheck (ACTIVITY_KEY_PREFIX +:+ id) (JObj fields)).
  { intros id fields ts H. split; [exists id; reflexivity|].
    exists fields, ts. split; [reflexivity | exact H]. }
  split; [|split; [|split]].
  - apply (steps_processAndCacheActivity env cfg _ _ (cache_kept_closed env)
             (cache_kept_cookie_closed env) Hio Hrd _
             (cache_kept_redis_set env) activityId (Hrecord activityId) I w).
  - apply (steps_fetchProcessAndStoreActivity env cfg _ _ (cache_kept_closed env)
             (cache_kept_cookie_closed env) Hio Hrd _
             (cache_kept_redis_set env) activityId (Hrecord activityId) w).
  - apply (steps_initializeClubCache env cfg _ _ (cache_kept_closed env)
             (cache_kept_cookie_closed env) Hio Hrd _
             (cache_kept_redis_set env) Hrecord (fun _ => I) w).
  - apply (steps_updateStaleClubs env cfg _ _ (cache_kept_closed env)
             (cache_kept_cookie_closed env) Hio Hrd _
             (cache_kept_redis_set env) Hrecord (fun _ => I) (fun _ _ => I) w).
Qed.

(** * What the cleanup deletes *)

#[local] Set Warnings "-clear-no-such-hyp".

Lemma bind_ok_inv {A B} (m : M A) (k : A -> M B) (w w' : World) (b : B) :
  bind m k w = (Ok b, w') ->
  exists a w1, m w = (Ok a, w1) /\ k a w1 = (Ok b, w').
Proof.
  unfold bind. destruct (m w) as [[a|e] w1]; [|discriminate].
  intros H. exists a, w1. split; [reflexivity | exact H].
Qed.

Lemma steps_run {A} (R : World -> World -> Prop) (m : M A) (w w' : World) (o : Outcome A) :
  steps R m -> m w = (o, w') -> R w w'.
Proof. intros Hs H. specialize (Hs w). unfold after in Hs. rewrite H in Hs. exact Hs. Qed.

Section Cleanup.
Context (env : Env) (cfg : Config).

Let read (redisKey : string) : M json :=
  getActivityData env cfg (activityId_of_key redisKey).

(** The referenced set is the set of the photos that count, among the
    records read in the pass over the keys. *)
Lemma collect_referenced_reads (keys : list string) :
  forall (acc : gset string) (w w' : World) (records : list json),
    mapM read keys w = (Ok records, w') ->
    foldM (fun (referenced : gset string) redisKey =>
             activityData <- read redisKey ;;
             match photo_reference cfg activityData with
             | Some photo => ret ({[photo]} ∪ referenced)
             | None => ret referenced
             end) acc keys w
    = (Ok (list_to_set (omap (photo_reference cfg) records) ∪ acc), w').
Proof.
  induction keys as [|k keys IH]; intros acc w w' records H.
  - simpl in *. unfold ret in *. simplify_eq. simpl. f_equal. f_equal. set_solver.
  - cbn [mapM] in H.
    apply bind_ok_inv in H as (r & w1 & Hr & H).
    apply bind_ok_inv in H as (rs & w2 & Hrs & H).
    unfold ret in H. simplify_eq.
    cbn [foldM].
    rewrite (bind_ok _ _ w w1 (match photo_reference cfg r with
                               | Some photo => {[photo]} ∪ acc
                               | None => acc
                               end)).
    + rewrite (IH _ _ _ _ Hrs). f_equal. f_equal. simpl.
      destruct (photo_reference cfg r); simpl; set_solver.
    + rewrite (bind_ok _ _ _ _ _ Hr). destruct (photo_reference cfg r); reflexivity.
Qed.

Lemma mapM_s3_delete_run (keys : list string) (w : World) :
  exists bs, mapM (s3_delete env) keys w = (Ok bs, noted (map EvS3Delete keys) w).
Proof.
  revert w. induction keys as [|k keys IH]; intros w; simpl.
  - exists []. rewrite noted_nil. reflexivity.
  - destruct (IH (noted [EvS3Delete k] w)) as [bs Hbs].
    eexists. erewrite bind_ok; cycle 1.
    { unfold s3_delete. rewrite (bind_ok _ _ _ _ _ (interact_run _ _)). reflexivity. }
    rewrite (bind_ok _ _ _ _ _ Hbs), noted_app. reflexivity.
Qed.

Lemma deleteS3Objects_loop_run (fuel : nat) :
  forall (remaining : list string) (s e : nat) (w : World),
    (length remaining <= fuel)%nat ->
    exists c, deleteS3Objects_loop env fuel remaining s e w
              = (Ok c, noted (map EvS3Delete remaining) w).
Proof.
  induction fuel as [|fuel IH]; intros remaining s e w Hlen.
  - destruct remaining; [|simpl in Hlen; lia].
    eexists. simpl. rewrite noted_nil. reflexivity.
  - destruct remaining as [|k rest].
    + eexists. simpl. rewrite noted_nil. reflexivity.
    + cbn [deleteS3Objects_loop].
      destruct (mapM_s3_delete_run (take BATCH_SIZE (k :: rest)) w) as [bs Hbs].
      rewrite (bind_ok _ _ _ _ _ Hbs).
      edestruct (IH (drop BATCH_SIZE (k :: rest))) as [c Hc]; cycle 1.
      * eexists. rewrite Hc, noted_app, <- map_app, take_drop. reflexivity.
      * rewrite length_drop. simpl in *. unfold BATCH_SIZE. lia.
Qed.

Lemma deleteS3Objects_run (keys : list string) (w : World) :
  s3Client_configured cfg = true ->
  exists b, deleteS3Objects env cfg keys w = (Ok b, noted (map EvS3Delete keys) w).
Proof.
  intros Hc. unfold deleteS3Objects. rewrite Hc. cbn [negb].
  destruct keys as [|k rest].
  - eexists. simpl. rewrite noted_nil. reflexivity.
  - destruct (deleteS3Objects_loop_run (length (k :: rest)) (k :: rest) 0 0 w
                ltac:(lia)) as [c Hloop].
    eexists. erewrite try_ok; [reflexivity|].
    rewrite (bind_ok _ _ _ _ _ Hloop). reflexivity.
Qed.

Lemma listS3Objects_configured (pfx : string) (w w' : World) (listed : list string) :
  listS3Objects env cfg pfx w = (Ok listed, w') ->
  listed <> [] -> s3Client_configured cfg = true.
Proof.
  unfold listS3Objects. destruct (s3Client_configured cfg); [reflexivity|].
  simpl. intros [= <- _] H. contradiction.
Qed.

(** The run of the cleanup, given what its three reads returned. *)
Lemma cleanup_run (w w1 w2 w3 : World) (keys : list string) (records : list json)
    (listed : list string) :
  getAllActivityKeys env cfg w = (Ok keys, w1) ->
  mapM read keys w1 = (Ok records, w2) ->
  listS3Objects env cfg (s3ObjectListPrefix cfg) w2 = (Ok listed, w3) ->
  after (cleanupOrphanedS3Images env cfg) w
  = noted (map EvS3Delete
             (select_orphans cfg (list_to_set (omap (photo_reference cfg) records)) listed))
          w3.
Proof.
  intros Hkeys Hrecords Hlisted.
  pose proof (collect_referenced_reads _ ∅ _ _ _ Hrecords) as Hcollect.
  replace (list_to_set (omap (photo_reference cfg) records) ∪ ∅)
    with (list_to_set (omap (photo_reference cfg) records) : gset string)
    in Hcollect by set_solver.
  set (refd := list_to_set (omap (photo_reference cfg) records) : gset string) in *.
  unfold after, cleanupOrphanedS3Images.
  rewrite (try_ok _ _ w (noted (map EvS3Delete (select_orphans cfg refd listed)) w3) tt);
    [reflexivity|].
  rewrite (bind_ok _ _ _ _ _ Hkeys).
  unfold collect_referenced. fold read. rewrite (bind_ok _ _ _ _ _ Hcollect).
  rewrite (bind_ok _ _ _ _ _ Hlisted).
  assert (Hconf : listed <> [] -> s3Client_configured cfg = true)
    by (apply (listS3Objects_configured _ _ _ _ Hlisted)).
  clear Hlisted Hcollect.
  destruct listed as [|l0 rest].
  - simpl. rewrite noted_nil. reflexivity.
  - specialize (Hconf ltac:(discriminate)).
    remember (select_orphans cfg refd (l0 :: rest)) as orphans eqn:Eo.
    destruct orphans as [|o0 orest].
    + simpl. rewrite noted_nil. reflexivity.
    + destruct (deleteS3Objects_run (o0 :: orest) w3 Hconf) as [b Hb].
      rewrite (bind_ok _ _ _ _ _ Hb). reflexivity.
Qed.

End Cleanup.

(** C2 (as amended). Given what the cleanup read (the scanned keys, the
    record of each, the listed objects), it deletes a listed object exactly
    when the object's public URL is not empty and is not the photo of a
    record read whose photo is a string that starts with [http] and with the
    configured endpoint.  Error and source markers are not looked at; the
    error record and the confirmed-empty record that the cache writers store
    have no photo and so reference nothing. *)
Theorem orphan_cleanup_deletes_unreferenced
    (env : Env) (cfg : Config) (w w1 w2 w3 : World)
    (keys : list string) (records : list json) (listed : list string) :
  getAllActivityKeys env cfg w = (Ok keys, w1) ->
  mapM (fun redisKey => getActivityData env cfg (activityId_of_key redisKey)) keys w1
    = (Ok records, w2) ->
  listS3Objects env cfg (s3ObjectListPrefix cfg) w2 = (Ok listed, w3) ->
  (forall key,
     In (EvS3Delete key) (new_effects w (after (cleanupOrphanedS3Images env cfg) w)) <->
     In key listed /\
     constructS3Url cfg key <> "" /\
     ~ exists record,
         In record records /\ photo_reference cfg record = Some (constructS3Url cfg key))
  /\
  (forall now,
     photo_reference cfg
       (JObj [("lastCheck", JStr now); ("error", JStr "Failed to fetch or process")]) = None /\
     photo_reference cfg
       (JObj [("lastCheck", JStr now); ("source", JStr "api-fetch-empty")]) = None).
Proof.
  intros Hkeys Hrecords Hlisted.
  split; [|intros now; split; reflexivity].
  assert (Hrd : forall ev, read_effect ev -> not_a_delete ev)
    by (intros [] H; (exact I || destruct H)).
  pose proof (extends_closed not_a_delete) as HR.
  assert (Hreads : extends not_a_delete w w3).
  { eapply (closed_trans _ _ HR); [|eapply (closed_trans _ _ HR)].
    - exact (steps_run _ _ _ _ _ (steps_getAllActivityKeys env cfg _ _ HR Hrd) Hkeys).
    - refine (steps_run _ _ _ _ _ (steps_mapM _ _ HR _ keys _) Hrecords).
      intros k. apply (steps_get_parsed env cfg _ _ HR Hrd).
    - exact (steps_run _ _ _ _ _ (steps_listS3Objects env cfg _ _ HR Hrd _) Hlisted). }
  destruct Hreads as (evs0 & Htrace & Hnone).
  intros key. rewrite (cleanup_run env cfg _ _ _ _ _ _ _ Hkeys Hrecords Hlisted).
  set (refd := list_to_set (omap (photo_reference cfg) records) : gset string).
  assert (Hnew : new_effects w (noted (map EvS3Delete (select_orphans cfg refd listed)) w3)
                 = (evs0 ++ map EvS3Delete (select_orphans cfg refd listed))%list).
  { unfold new_effects, noted. cbn [trace].
    rewrite Htrace, <- app_assoc, drop_app_length. reflexivity. }
  rewrite Hnew, in_app_iff.
  assert (Hrefd : constructS3Url cfg key ∈ refd <->
                  exists record, In record records /\
                    photo_reference cfg record = Some (constructS3Url cfg key)).
  { unfold refd. rewrite elem_of_list_to_set, list_elem_of_omap.
    split; intros (r & Hr & Hp); exists r; (split; [apply list_elem_of_In, Hr | exact Hp]). }
  split.
  - intros [Hin|Hin].
    + rewrite List.Forall_forall in Hnone. destruct (Hnone _ Hin).
    + apply in_map_iff in Hin as (k & [= ->] & Hin).
      apply List.filter_In in Hin as [Hl Hsel].
      apply andb_prop in Hsel as [Hne Hnot].
      split; [exact Hl|]. split.
      * intros E. rewrite E in Hne. discriminate.
      * rewrite <- Hrefd. apply negb_true_iff, bool_decide_eq_false in Hnot. exact Hnot.
  - intros (Hl & Hne & Hnot). right. apply in_map, List.filter_In.
    split; [exact Hl|]. apply andb_true_intro. split.
    + destruct (constructS3Url cfg key); [contradiction | reflexivity].
    + apply negb_true_iff, bool_decide_eq_false. rewrite Hrefd. exact Hnot.
Qed.

Lemma orphan_cleanup_deletes_unreferenced_witness :
  let effects :=
    new_effects DemoStore.world
      (after (cleanupOrphanedS3Images DemoStore.env DemoStore.cfg) DemoStore.world) in
  In (EvS3Delete "files/activity-2-old.avif") effects /\
  ~ In (EvS3Delete "files/activity-1-a.avif") effects.
Proof.
  pose (w1 := after (getAllActivityKeys DemoStore.env DemoStore.cfg) DemoStore.world).
  pose (read := fun redisKey =>
                  getActivityData DemoStore.env DemoStore.cfg (activityId_of_key redisKey)).
  pose (keys := ["activity:1"; "activity:2"; "activity:3"]).
  pose (w2 := after (mapM read keys) w1).
  pose (w3 := after (listS3Objects DemoStore.env DemoStore.cfg
                       (s3ObjectListPrefix DemoStore.cfg)) w2).
  destruct (orphan_cleanup_deletes_unreferenced DemoStore.env DemoStore.cfg
              DemoStore.world w1 w2 w3 keys
              [DemoStore.club; DemoStore.emptied; DemoStore.failed]
              ["files/activity-1-a.avif"; "files/activity-2-old.avif"])
    as [Hiff _]; try (vm_compute; reflexivity).
  split.
  - apply Hiff. split; [right; left; reflexivity|]. split; [vm_compute; discriminate|].
    intros (r & [<-|[<-|[<-|[]]]] & Hr); vm_compute in Hr; discriminate.
  - intros Hin.
    destruct (proj1 (Hiff "files/activity-1-a.avif") Hin) as (_ & _ & Hnot). apply Hnot.
    exists DemoStore.club. split; [left; reflexivity | vm_compute; reflexivity].
Defined.

(** The cleanup does not look at the markers of a record: a photo under the
    endpoint counts as a reference even next to an error marker. *)
Example photo_reference_ignores_markers :
  photo_reference DemoStore.cfg
    (JObj [("photo", JStr DemoStore.photo_url); ("error", JStr "Failed to fetch or process")])
  = Some DemoStore.photo_url.
Proof. vm_compute. reflexivity. Qed.

(** C2 (as stated) fails: without a configured endpoint the public URL of
    every key is empty, no record references it, and yet nothing is deleted. *)
Lemma orphan_cleanup_spares_unreferenced_without_url :
  ~ (forall (env : Env) (cfg : Config) (w w1 w2 w3 : World)
       (keys : list string) (records : list json) (listed : list string),
       getAllActivityKeys env cfg w = (Ok keys, w1) ->
       mapM (fun redisKey => getActivityData env cfg (activityId_of_key redisKey)) keys w1
         = (Ok records, w2) ->
       listS3Objects env cfg (s3ObjectListPrefix cfg) w2 = (Ok listed, w3) ->
       forall key,
         In (EvS3Delete key) (new_effects w (after (cleanupOrphanedS3Images env cfg) w)) <->
         In key listed /\
         ~ exists record,
             In record records /\ active_record record /\
             prop "photo" record = Some (JStr (constructS3Url cfg key))).
Proof.
  intros H.
  pose (w1 := after (getAllActivityKeys DemoStore.env DemoStore.cfg_no_endpoint)
                DemoStore.world).
  pose (read := fun redisKey =>
                  getActivityData DemoStore.env DemoStore.cfg_no_endpoint
                    (activityId_of_key redisKey)).
  pose (keys := ["activity:1"; "activity:2"; "activity:3"]).
  pose (w2 := after (mapM read keys) w1).
  pose (w3 := after (listS3Objects DemoStore.env DemoStore.cfg_no_endpoint
                       (s3ObjectListPrefix DemoStore.cfg_no_endpoint)) w2).
  specialize (H DemoStore.env DemoStore.cfg_no_endpoint DemoStore.world w1 w2 w3 keys
                [DemoStore.club; DemoStore.emptied; DemoStore.failed]
                ["files/activity-1-a.avif"; "files/activity-2-old.avif"]
                ltac:(vm_compute; reflexivity) ltac:(vm_compute; reflexivity)
                ltac:(vm_compute; reflexivity) "files/activity-2-old.avif").
  destruct H as [_ H].
  assert (Hin : In (EvS3Delete "files/activity-2-old.avif")
                  (new_effects DemoStore.world
                     (after (cleanupOrphanedS3Images DemoStore.env DemoStore.cfg_no_endpoint)
                        DemoStore.world))).
  { apply H. split; [right; left; reflexivity|].
    intros (r & [<-|[<-|[<-|[]]]] & _ & Hr); vm_compute in Hr; discriminate. }
  vm_compute in Hin.
  repeat (destruct Hin as [Hin|Hin]; [discriminate Hin|]). destruct Hin.
Qed.

(** * The staleness sweep *)

Lemma has_prop_has_keys (k : string) (x : json) :
  truthy_opt (prop k x) = true -> has_no_keys x = false.
Proof. destruct x as [| | | | |[|f fs]]; simpl; (discriminate || reflexivity). Qed.

Lemma older_than_exceeds (env : Env) (now interval : Z) (x : json) :
  older_than env now interval (prop "lastCheck" x) = true <->
  exceeds_threshold env now interval x.
Proof.
  unfold older_than, exceeds_threshold. split.
  - destruct (prop "lastCheck" x) as [lc|]; [|discriminate].
    destruct (Date_getTime env lc) as [t|] eqn:Et; [|discriminate].
    intros H. apply Z.ltb_lt in H. exists lc, t. auto.
  - intros (lc & t & -> & -> & H). apply Z.ltb_lt, H.
Qed.

Lemma needs_refresh_iff (env : Env) (now interval : Z) (x : json) :
  needs_refresh env now interval x = true <->
  (has_lastCheck x /\ (exceeds_threshold env now interval x \/ marked_errored x))
  \/ missing_or_empty x.
Proof.
  unfold needs_refresh, has_lastCheck, marked_errored, missing_or_empty.
  rewrite <- older_than_exceeds.
  destruct (truthy x) eqn:Ht; simpl.
  - destruct (truthy_opt (prop "lastCheck" x)) eqn:Hl; simpl.
    + rewrite (has_prop_has_keys _ _ Hl), orb_true_iff.
      split; [intros H; left; auto | intros [[_ H]|[H|H]]; [exact H | discriminate..]].
    + split; [intros H; right; right; exact H|].
      intros [[[_ H] _]|[H|H]]; (discriminate || exact H).
  - split; [intros _; right; left; reflexivity | reflexivity].
Qed.

Section ProcessEffects.
Context (env : Env) (cfg : Config).

Lemma steps_redis_set_any (allowed : Effect -> Prop) :
  (forall key value, allowed (EvRedisSet key value)) ->
  forall key data, True ->
    steps (extends allowed) (redis_set env key (JSON_stringify env data)).
Proof. intros H key data _. apply steps_redis_set_extends, H. Qed.

(** A run of [processAndCacheActivity] announces its identifier, once. *)
Lemma processAndCacheActivity_effects (id : string) (w : World) :
  exists evs,
    trace (after (processAndCacheActivity env cfg id) w)
    = (trace w ++ EvProcess id :: evs)%list /\
    Forall not_process evs.
Proof.
  assert (Hio : forall ev, io_effect ev -> not_process ev)
    by (intros [] H; (exact I || destruct H)).
  assert (Hrd : forall ev, read_effect ev -> not_process ev)
    by (intros [] H; (exact I || destruct H)).
  pose proof (steps_processAndCacheActivity_try env cfg _ _
                (extends_closed not_process) (extends_cookie_closed _) Hio Hrd
                (fun _ _ => True) (steps_redis_set_any _ (fun _ _ => I))
                id (fun _ _ _ => I) (after (note (EvProcess id)) w))
    as (evs & Htrace & Hevs).
  exists evs. split; [|exact Hevs].
  unfold after, processAndCacheActivity in *.
  rewrite (bind_ok _ _ w (snd (note (EvProcess id) w)) tt) by reflexivity.
  rewrite Htrace. simpl. rewrite <- app_assoc. reflexivity.
Qed.

Lemma getActivityData_effects (id : string) (w w1 : World) (o : Outcome json) :
  getActivityData env cfg id w = (o, w1) -> extends not_process w w1.
Proof.
  apply steps_run.
  apply (steps_get_parsed env cfg _ _ (extends_closed not_process)).
  intros [] H; (exact I || destruct H).
Qed.

End ProcessEffects.

Lemma after_bind_unit {A} (m : M A) (k : M unit) (w : World) :
  nothrow m -> after (m ;;; k) w = after k (after m w).
Proof.
  intros H. destruct (H w) as [a Ha]. unfold after, result, bind in *.
  destruct (m w) as [[a'|e] w']; simpl in *; [reflexivity | discriminate].
Qed.

(** * The population pass *)

Lemma needs_init_iff (x : json) :
  needs_init x = true <->
  missing_or_empty x \/ truthy_opt (prop "lastCheck" x) = false \/ marked_errored x.
Proof.
  unfold needs_init, missing_or_empty, marked_errored.
  rewrite !orb_true_iff, !negb_true_iff. tauto.
Qed.

Lemma needs_init_false (x : json) :
  has_lastCheck x -> ~ marked_errored x -> needs_init x = false.
Proof.
  intros [Ht Hl] He. destruct (needs_init x) eqn:E; [|reflexivity].
  apply needs_init_iff in E as [[H|H]|[H|H]].
  - congruence.
  - rewrite (has_prop_has_keys _ _ Hl) in H. discriminate.
  - congruence.
  - contradiction.
Qed.

Section Population.
Context (env : Env) (cfg : Config).
Context (Hredis : forall t, redis_fails env t = false).

(** With Redis answering, a read returns the value of the stored text and
    changes nothing but the trace. *)
Lemma get_parsed_run (key : string) (w : World) :
  exists w1,
    get_parsed env cfg key w = (Ok (cached_value env cfg (redis w) key), w1) /\
    redis w1 = redis w /\
    extends not_process w w1.
Proof.
  unfold get_parsed, cached_value.
  destruct (redisClient_configured cfg); cbn [negb].
  - exists (noted [EvRedisGet key] w). split; [|split].
    + unfold redis_get.
      assert (Hget : (t <- interact (EvRedisGet key);;
                      (if redis_fails env t then throw (PlainError "redis")
                       else w0 <- get_world;; ret (redis w0 !! key))) w
                     = (Ok (redis w !! key), noted [EvRedisGet key] w)).
      { rewrite (bind_ok _ _ _ _ _ (interact_run _ _)), Hredis. reflexivity. }
      destruct (redis w !! key) as [data|] eqn:Ed.
      * destruct (Js.nonempty data) eqn:En.
        -- unfold JSON_parse_str.
           destruct (JSON_parse env data) as [v|] eqn:Ep.
           ++ erewrite try_ok; [reflexivity|].
              rewrite (bind_ok _ _ _ _ _ Hget). simpl. rewrite En, Ep. reflexivity.
           ++ erewrite try_throw; [reflexivity|].
              rewrite (bind_ok _ _ _ _ _ Hget). simpl. rewrite En, Ep. reflexivity.
        -- erewrite try_ok; [reflexivity|].
           rewrite (bind_ok _ _ _ _ _ Hget). simpl. rewrite En. reflexivity.
      * erewrite try_ok; [reflexivity|].
        rewrite (bind_ok _ _ _ _ _ Hget). reflexivity.
    + reflexivity.
    + exists [EvRedisGet key]. split; [reflexivity | repeat constructor].
  - exists w. split; [reflexivity|]. split; [reflexivity|].
    apply (closed_refl _ _ (extends_closed _)).
Qed.

Lemma cached_value_same (s s' : gmap string string) (key : string) :
  s' !! key = s !! key -> cached_value env cfg s' key = cached_value env cfg s key.
Proof. intros H. unfold cached_value. rewrite H. reflexivity. Qed.

Lemma extends_weaken (P Q : Effect -> Prop) (w w' : World) :
  (forall ev, P ev -> Q ev) -> extends P w w' -> extends Q w w'.
Proof.
  intros HPQ (evs & Ht & Hevs). exists evs. split; [exact Ht|].
  eapply Forall_impl; [exact Hevs | exact HPQ].
Qed.

(** The relation that a run of [processAndCacheActivity id] satisfies once
    [id] may be processed. *)
Let processing (store : gmap string string) (id : string) (w w' : World) : Prop :=
  extends (may_process env cfg store) w w' /\ only_key (ACTIVITY_KEY_PREFIX +:+ id) w w'.

Lemma processing_closed (store : gmap string string) (id : string) :
  Closed (may_process env cfg store) (processing store id).
Proof.
  split.
  - intros w. split; [apply (closed_refl _ _ (extends_closed _)) | intros k _; reflexivity].
  - intros a b c [E1 K1] [E2 K2]. split.
    + exact (closed_trans _ _ (extends_closed _) _ _ _ E1 E2).
    + intros k Hk. rewrite (K2 k Hk). apply K1, Hk.
  - intros w. split; [apply (closed_tick _ _ (extends_closed _)) | intros k _; reflexivity].
  - intros w ev H.
    split; [apply (closed_note _ _ (extends_closed _)), H | intros k _; reflexivity].
Qed.

Lemma processing_cookie_closed (store : gmap string string) (id : string) :
  CookieClosed (processing store id).
Proof.
  split; intros w c; (split; [|intros k _; reflexivity]).
  - apply (closed_mem _ (extends_cookie_closed _)).
  - apply (closed_file _ (extends_cookie_closed _)).
Qed.

Lemma processing_redis_set (store : gmap string string) (id : string)
    (key : string) (data : json) :
  key = ACTIVITY_KEY_PREFIX +:+ id ->
  steps (processing store id) (redis_set env key (JSON_stringify env data)).
Proof.
  intros -> w. split.
  - apply steps_redis_set_extends. exact I.
  - intros k Hk. unfold after, redis_set.
    rewrite (bind_ok _ _ _ _ _ (interact_run _ _)), Hredis. cbn.
    apply lookup_insert_ne. congruence.
Qed.

Lemma processAndCacheActivity_processing (store : gmap string string) (id : string)
    (w : World) :
  may_process env cfg store (EvProcess id) ->
  processing store id w (after (processAndCacheActivity env cfg id) w).
Proof.
  intros Hmay.
  assert (Hio : forall ev, io_effect ev -> may_process env cfg store ev)
    by (intros [] H; (exact I || destruct H)).
  assert (Hrd : forall ev, read_effect ev -> may_process env cfg store ev)
    by (intros [] H; (exact I || destruct H)).
  exact (steps_processAndCacheActivity env cfg _ _ (processing_closed store id)
           (processing_cookie_closed store id) Hio Hrd
           (fun key _ => key = ACTIVITY_KEY_PREFIX +:+ id)
           (processing_redis_set store id) id (fun _ _ _ => eq_refl) Hmay w).
Qed.

(** One job of the pass keeps [populated_from]. *)
Lemma init_job_populated (w0 w : World) (id : string) :
  In id (scan_ids cfg) ->
  populated_from env cfg w0 w ->
  populated_from env cfg w0 (after (init_job env cfg id) w).
Proof.
  intros Hid [Hext Hkeys].
  destruct (get_parsed_run (ACTIVITY_KEY_PREFIX +:+ id) w) as (w1 & Hread & Hr1 & He1).
  assert (Hw1 : populated_from env cfg w0 w1).
  { split.
    - eapply (closed_trans _ _ (extends_closed _)); [exact Hext|].
      eapply extends_weaken; [|exact He1]. intros [] H; (exact I || destruct H).
    - intros key. rewrite Hr1. apply Hkeys. }
  unfold after, init_job, getActivityData. rewrite (bind_ok _ _ _ _ _ Hread).
  destruct (needs_init (cached_value env cfg (redis w) (ACTIVITY_KEY_PREFIX +:+ id)))
    eqn:Hneeds; [|exact Hw1].
  assert (Hmay : may_process env cfg (redis w0) (EvProcess id)).
  { split; [exact Hid|].
    destruct (Hkeys (ACTIVITY_KEY_PREFIX +:+ id)) as [Hsame|[_ Hn]]; [|exact Hn].
    rewrite <- (cached_value_same _ _ _ Hsame). exact Hneeds. }
  change (populated_from env cfg w0
            (after (processAndCacheActivity env cfg id ;;; ret tt) w1)).
  rewrite after_bind_unit by apply nothrow_processAndCacheActivity.
  destruct (processAndCacheActivity_processing (redis w0) id w1 Hmay) as [Hpe Hpk].
  destruct Hw1 as [Hext1 Hkeys1]. split.
  - exact (closed_trans _ _ (extends_closed _) _ _ _ Hext1 Hpe).
  - intros key. destruct (decide (key = ACTIVITY_KEY_PREFIX +:+ id)) as [->|Hne].
    + right. split; [exists id; reflexivity | apply Hmay].
    + unfold after, ret. cbn [snd]. fold (after (processAndCacheActivity env cfg id) w1).
      rewrite (Hpk key Hne). apply Hkeys1.
Qed.

Lemma nothrow_init_job (id : string) : nothrow (init_job env cfg id).
Proof. unfold init_job. nothrow_go. Qed.

Lemma for_each_populated (ids : list string) :
  forall w0 w,
    (forall id, In id ids -> In id (scan_ids cfg)) ->
    populated_from env cfg w0 w ->
    populated_from env cfg w0 (after (for_each (init_job env cfg) ids) w).
Proof.
  induction ids as [|id ids IH]; intros w0 w Hsub Hw.
  - exact Hw.
  - cbn [for_each]. rewrite after_bind_unit by apply nothrow_init_job.
    apply IH; [intros i Hi; apply Hsub; right; exact Hi|].
    apply init_job_populated; [apply Hsub; left; reflexivity | exact Hw].
Qed.

Lemma initializeClubCache_populated (w : World) :
  populated_from env cfg w (after (initializeClubCache env cfg) w).
Proof.
  apply for_each_populated; [auto|]. split.
  - apply (closed_refl _ _ (extends_closed _)).
  - intros key. left. reflexivity.
Qed.

End Population.

(** C5 (as amended). With a cache that answers every command, a second run
    of the population pass right after a first leaves every cache entry that
    has a [lastCheck] and no error marker as it is, text and [lastCheck]
    included; a fetch-and-store job is submitted only for an identifier of
    the range whose entry is missing, empty, without [lastCheck] or marked
    errored. *)
Theorem population_pass_is_idempotent (env : Env) (cfg : Config) (w : World) :
  (forall t, redis_fails env t = false) ->
  let w1 := after (initializeClubCache env cfg) w in
  let w2 := after (initializeClubCache env cfg) w1 in
  (forall key,
     has_lastCheck (cached_value env cfg (redis w1) key) ->
     ~ marked_errored (cached_value env cfg (redis w1) key) ->
     redis w2 !! key = redis w1 !! key) /\
  (forall id,
     In (EvProcess id) (new_effects w1 w2) ->
     In id (scan_ids cfg) /\
     let entry := cached_value env cfg (redis w1) (ACTIVITY_KEY_PREFIX +:+ id) in
     missing_or_empty entry
     \/ truthy_opt (prop "lastCheck" entry) = false
     \/ marked_errored entry).
Proof.
  intros Hredis w1 w2.
  destruct (initializeClubCache_populated env cfg Hredis w1) as [Hext Hkeys].
  fold w2 in Hext, Hkeys. split.
  - intros key Hl He. destruct (Hkeys key) as [Hsame|[_ Hn]]; [exact Hsame|].
    rewrite (needs_init_false _ Hl He) in Hn. discriminate.
  - intros id Hin. apply extends_new_effects in Hext.
    rewrite List.Forall_forall in Hext. destruct (Hext _ Hin) as [Hid Hn].
    split; [exact Hid|]. apply needs_init_iff, Hn.
Qed.

(** * The staleness sweep *)

Lemma extends_any (w w' : World) (evs : list Effect) :
  trace w' = (trace w ++ evs)%list -> extends (fun _ => True) w w'.
Proof.
  intros H. exists evs. split; [exact H|].
  apply List.Forall_forall. intros; exact I.
Qed.

Lemma extends_any_trans (a b c : World) :
  extends (fun _ => True) a b -> extends (fun _ => True) b c ->
  extends (fun _ => True) a c.
Proof. apply (closed_trans _ _ (extends_closed _)). Qed.

Lemma read_during_widen (env : Env) (cfg : Config) (w0 w1 w2 w3 : World)
    (key : string) (x : json) :
  extends (fun _ => True) w0 w1 ->
  extends (fun _ => True) w2 w3 ->
  read_during env cfg w1 w2 key x -> read_during env cfg w0 w3 key x.
Proof.
  intros H01 H23 (wj & wj' & Hin & Hread & Hout).
  exists wj, wj'. split; [|split]; [|exact Hread|].
  - exact (extends_any_trans _ _ _ H01 Hin).
  - exact (extends_any_trans _ _ _ Hout H23).
Qed.

Lemma quiet_io (ev : Effect) : io_effect ev -> quiet ev.
Proof. destruct ev; intros H; (exact I || destruct H). Qed.

Lemma quiet_read (ev : Effect) : read_effect ev -> quiet ev.
Proof. destruct ev; intros H; (exact I || destruct H). Qed.

Section SweepJobs.
Context (env : Env) (cfg : Config) (now updateIntervalMs : Z).

Let job (key : string) : M unit :=
  stale_job env cfg now updateIntervalMs (activityId_of_key key).

Let due (x : json) : Prop := needs_refresh env now updateIntervalMs x = true.

(** A processing or a cache write of the job of [id], which read [x]. *)
Let marks (id : string) (x : json) (ev : Effect) : Prop :=
  match ev with
  | EvProcess i => i = id /\ due x
  | EvRedisSet k _ => k = ACTIVITY_KEY_PREFIX +:+ id /\ due x
  | _ => True
  end.

(** A processing or a cache write of one of the jobs of [keys], which read
    [entries]. *)
Let accounted (keys : list string) (entries : list json) (ev : Effect) : Prop :=
  match ev with
  | EvProcess i =>
      exists n key x,
        keys !! n = Some key /\ entries !! n = Some x /\
        i = activityId_of_key key /\ due x
  | EvRedisSet k _ =>
      exists n key x,
        keys !! n = Some key /\ entries !! n = Some x /\
        k = ACTIVITY_KEY_PREFIX +:+ activityId_of_key key /\ due x
  | _ => True
  end.

Lemma quiet_marks (id : string) (x : json) (ev : Effect) : quiet ev -> marks id x ev.
Proof. destruct ev; intros H; (exact I || destruct H). Qed.

Lemma writes_under_marks (id : string) (x : json) (ev : Effect) :
  due x -> writes_under (ACTIVITY_KEY_PREFIX +:+ id) ev -> marks id x ev.
Proof.
  intros Hd. destruct ev; intros H; try exact I; try (destruct H; fail).
  split; [exact H | exact Hd].
Qed.

Lemma marks_accounted (key : string) (x : json) (keys : list string)
    (entries : list json) (ev : Effect) :
  marks (activityId_of_key key) x ev -> accounted (key :: keys) (x :: entries) ev.
Proof.
  destruct ev; intros H; try exact I; destruct H as [H1 H2];
    exists 0%nat, key, x; auto.
Qed.

Lemma accounted_later (key : string) (x : json) (keys : list string)
    (entries : list json) (ev : Effect) :
  accounted keys entries ev -> accounted (key :: keys) (x :: entries) ev.
Proof.
  destruct ev; intros H; try exact I;
    destruct H as (n & k & y & H1 & H2 & H3 & H4); exists (S n), k, y; auto.
Qed.

Lemma processAndCacheActivity_writes_under (id : string) (w : World) :
  exists evs,
    trace (after (processAndCacheActivity env cfg id) w)
    = (trace w ++ EvProcess id :: evs)%list /\
    Forall (writes_under (ACTIVITY_KEY_PREFIX +:+ id)) evs.
Proof.
  set (allowed := writes_under (ACTIVITY_KEY_PREFIX +:+ id)).
  assert (Hio : forall ev, io_effect ev -> allowed ev)
    by (intros [] H; (exact I || destruct H)).
  assert (Hrd : forall ev, read_effect ev -> allowed ev)
    by (intros [] H; (exact I || destruct H)).
  assert (Hset : forall k (data : json),
            k = ACTIVITY_KEY_PREFIX +:+ id ->
            steps (extends allowed) (redis_set env k (JSON_stringify env data))).
  { intros k data H. apply steps_redis_set_extends. exact H. }
  pose proof (steps_processAndCacheActivity_try env cfg _ _
                (extends_closed allowed) (extends_cookie_closed _) Hio Hrd
                (fun k _ => k = ACTIVITY_KEY_PREFIX +:+ id) Hset
                id (fun _ _ _ => eq_refl) (after (note (EvProcess id)) w))
    as (evs & Htrace & Hevs).
  exists evs. split; [|exact Hevs].
  unfold after, processAndCacheActivity in *.
  rewrite (bind_ok _ _ w (snd (note (EvProcess id) w)) tt) by reflexivity.
  rewrite Htrace. simpl. rewrite <- app_assoc. reflexivity.
Qed.

(** One job: it reads its entry, and processes and writes when the entry
    passes the test of the sweep. *)
Lemma job_accounts (key : string) (wj : World) :
  exists x wj' evs,
    getActivityData env cfg (activityId_of_key key) wj = (Ok x, wj') /\
    extends (fun _ => True) wj' (after (job key) wj) /\
    trace (after (job key) wj) = (trace wj ++ evs)%list /\
    Forall (marks (activityId_of_key key) x) evs /\
    (due x -> In (EvProcess (activityId_of_key key)) evs).
Proof.
  set (id := activityId_of_key key).
  destruct (nothrow_ok _ wj (nothrow_getActivityData env cfg id)) as (x & wj' & Hread).
  exists x, wj'.
  assert (Hquiet : extends quiet wj wj').
  { refine (steps_run _ _ _ _ _ _ Hread).
    apply (steps_get_parsed env cfg _ _ (extends_closed quiet) quiet_read). }
  destruct Hquiet as (evs0 & Ht0 & Hevs0).
  assert (Hjob : after (job key) wj
                 = if needs_refresh env now updateIntervalMs x
                   then after (processAndCacheActivity env cfg id) wj'
                   else wj').
  { unfold after, job, stale_job. fold id. rewrite (bind_ok _ _ _ _ _ Hread).
    destruct (needs_refresh env now updateIntervalMs x); [|reflexivity].
    apply (after_bind_unit _ (ret tt) wj'), nothrow_processAndCacheActivity. }
  unfold due. destruct (needs_refresh env now updateIntervalMs x) eqn:Hn.
  - destruct (processAndCacheActivity_writes_under id wj') as (evs & Ht & Hevs).
    exists (evs0 ++ EvProcess id :: evs)%list. rewrite Hjob.
    split; [exact Hread|]. split; [exact (extends_any _ _ _ Ht)|].
    split; [rewrite Ht, Ht0, <- app_assoc; reflexivity|]. split.
    + apply Forall_app. split.
      * eapply Forall_impl; [exact Hevs0 | intros ev; apply quiet_marks].
      * constructor; [split; [reflexivity | exact Hn]|].
        eapply Forall_impl; [exact Hevs | intros ev; apply writes_under_marks; exact Hn].
    + intros _. apply in_or_app. right. left. reflexivity.
  - exists evs0. rewrite Hjob.
    split; [exact Hread|]. split; [apply (extends_any _ _ []); symmetry; apply app_nil_r|].
    split; [exact Ht0|]. split; [|discriminate].
    eapply Forall_impl; [exact Hevs0 | intros ev; apply quiet_marks].
Qed.

Lemma nothrow_job (key : string) : nothrow (job key).
Proof.
  unfold job, stale_job, getActivityData.
  pose proof (nothrow_processAndCacheActivity env cfg). nothrow_go.
Qed.

(** The jobs of a sweep, one after the other. *)
Lemma jobs_account (todo : list string) :
  forall wc : World,
    let w' := after (for_each job todo) wc in
    exists entries evs,
      Forall2 (read_during env cfg wc w') todo entries /\
      trace w' = (trace wc ++ evs)%list /\
      Forall (accounted todo entries) evs /\
      (forall n key x,
         todo !! n = Some key -> entries !! n = Some x -> due x ->
         In (EvProcess (activityId_of_key key)) evs).
Proof.
  induction todo as [|key todo IH]; intros wc w'.
  - exists [], []. split; [constructor|]. split; [symmetry; apply app_nil_r|].
    split; [constructor|]. intros n key x H. discriminate H.
  - destruct (job_accounts key wc) as (x & wj' & evs1 & Hread & Hout & Ht1 & Hm1 & Hd1).
    assert (Hw' : w' = after (for_each job todo) (after (job key) wc)).
    { unfold w'. cbn [for_each]. apply after_bind_unit, nothrow_job. }
    destruct (IH (after (job key) wc)) as (entries & evs2 & Hreads & Ht2 & Hm2 & Hd2).
    cbv zeta in Hreads, Ht2. rewrite <- Hw' in Hreads, Ht2.
    pose proof (extends_any _ _ _ Ht1) as H1.
    pose proof (extends_any _ _ _ Ht2) as H2.
    exists (x :: entries), (evs1 ++ evs2)%list. split; [|split; [|split]].
    + constructor.
      * exists wc, wj'. split; [apply (closed_refl _ _ (extends_closed _))|].
        split; [exact Hread|]. exact (extends_any_trans _ _ _ Hout H2).
      * eapply Forall2_impl; [exact Hreads|]. intros k y.
        apply read_during_widen; [exact H1 | apply (closed_refl _ _ (extends_closed _))].
    + rewrite Ht2, Ht1, <- app_assoc. reflexivity.
    + apply Forall_app. split.
      * eapply Forall_impl; [exact Hm1 | intros ev; apply marks_accounted].
      * eapply Forall_impl; [exact Hm2 | intros ev; apply accounted_later].
    + intros [|n] k y Hk Hy Hdue; simpl in Hk, Hy.
      * injection Hk as <-. injection Hy as <-.
        apply in_or_app. left. exact (Hd1 Hdue).
      * apply in_or_app. right. exact (Hd2 n k y Hk Hy Hdue).
Qed.

End SweepJobs.

Lemma refresh_due_needs_refresh (env : Env) (now updateIntervalMs : Z) (x : json) :
  needs_refresh env now updateIntervalMs x = true -> refresh_due env now updateIntervalMs x.
Proof.
  intros H. apply needs_refresh_iff in H. unfold refresh_due.
  destruct H as [[_ [H|H]]|H]; auto.
Qed.

Lemma needs_refresh_refresh_due (env : Env) (now updateIntervalMs : Z) (x : json) :
  checked_or_absent x -> refresh_due env now updateIntervalMs x ->
  needs_refresh env now updateIntervalMs x = true.
Proof.
  intros Hx Hdue. apply needs_refresh_iff.
  destruct Hx as [Hl|Hm]; [|right; exact Hm].
  destruct Hdue as [H|[H|H]]; [left; auto | left; auto | right; exact H].
Qed.



(** In [DemoStore], at 02:00 with a threshold of 60 minutes: [activity:1]
    was checked at 00:00 and [activity:3] is marked errored, both are
    processed; [activity:2] was checked at 01:50 and is neither processed
    nor written. *)
Example demo_sweep :
  let evs := new_effects DemoStore.world
               (after (updateStaleClubs DemoStore.env DemoStore.cfg) DemoStore.world) in
  In (EvProcess "1") evs /\ In (EvProcess "3") evs /\
  ~ In (EvProcess "2") evs /\
  forall value, ~ In (EvRedisSet "activity:2" value) evs.
Proof.
  vm_compute. repeat split; auto 50.
  - intros H. repeat (destruct H as [H|H]; [discriminate H|]). exact H.
  - intros value H. repeat (destruct H as [H|H]; [discriminate H|]). exact H.
Qed.

Lemma population_pass_is_idempotent_witness :
  let w1 := after (initializeClubCache DemoStore.env DemoStore.cfg) DemoStore.world in
  let w2 := after (initializeClubCache DemoStore.env DemoStore.cfg) w1 in
  redis w2 !! "activity:1" = redis w1 !! "activity:1".
Proof.
  intros w1 w2.
  destruct (population_pass_is_idempotent DemoStore.env DemoStore.cfg DemoStore.world
              (fun _ => eq_refl)) as [Hkeep _].
  apply (Hkeep "activity:1").
  - split; vm_compute; reflexivity.
  - unfold marked_errored. vm_compute. discriminate.
Defined.

(** C5 (as stated) fails: a read that Redis rejects makes [getActivityData]
    return [null], and the pass then fetches and stores the activity anew.
    In [DemoOutage] the first pass leaves [activity:1] with its [lastCheck]
    of 00:00 and no error marker; the second pass, whose read of that key is
    rejected, overwrites it with a record checked at 02:00. *)
Lemma population_pass_rewrites_entry_after_rejected_read :
  ~ (forall (env : Env) (cfg : Config) (w : World),
       let w1 := after (initializeClubCache env cfg) w in
       let w2 := after (initializeClubCache env cfg) w1 in
       (forall key,
          has_lastCheck (cached_value env cfg (redis w1) key) ->
          ~ marked_errored (cached_value env cfg (redis w1) key) ->
          redis w2 !! key = redis w1 !! key) /\
       (forall id,
          In (EvProcess id) (new_effects w1 w2) ->
          In id (scan_ids cfg) /\
          let entry := cached_value env cfg (redis w1) (ACTIVITY_KEY_PREFIX +:+ id) in
          missing_or_empty entry
          \/ truthy_opt (prop "lastCheck" entry) = false
          \/ marked_errored entry)).
Proof.
  intros H.
  destruct (H DemoOutage.env DemoStore.cfg DemoStore.world) as [Hkeep _].
  specialize (Hkeep "activity:1").
  assert (Hl : has_lastCheck
                 (cached_value DemoOutage.env DemoStore.cfg
                    (redis (after (initializeClubCache DemoOutage.env DemoStore.cfg)
                              DemoStore.world)) "activity:1"))
    by (split; vm_compute; reflexivity).
  assert (He : ~ marked_errored
                 (cached_value DemoOutage.env DemoStore.cfg
                    (redis (after (initializeClubCache DemoOutage.env DemoStore.cfg)
                              DemoStore.world)) "activity:1"))
    by (unfold marked_errored; vm_compute; discriminate).
  specialize (Hkeep Hl He). vm_compute in Hkeep. discriminate.
Qed.

Lemma cleanup_never_deletes_without_url_witness :
  constructS3Url DemoStore.cfg_no_endpoint "files/activity-2-old.avif" = "" /\
  ~ In (EvS3Delete "files/activity-2-old.avif")
       (new_effects DemoStore.world
          (after (cleanupOrphanedS3Images DemoStore.env DemoStore.cfg_no_endpoint)
             DemoStore.world)).
Proof.
  apply (proj2 (cleanup_never_deletes_without_url DemoStore.env
                  DemoStore.cfg_no_endpoint DemoStore.world)).
  left. reflexivity.
Defined.

(** * The staff record *)

Lemma untouched_store_closed : Closed not_a_write untouched_store.
Proof.
  split.
  - intros w. split; [reflexivity | apply (closed_refl _ _ (extends_closed _))].
  - intros a b c [R1 E1] [R2 E2]. split; [congruence|].
    exact (closed_trans _ _ (extends_closed _) _ _ _ E1 E2).
  - intros w. split; [reflexivity | apply (closed_tick _ _ (extends_closed _))].
  - intros w ev H. split; [reflexivity | apply (closed_note _ _ (extends_closed _)), H].
Qed.

Lemma untouched_store_cookie_closed : CookieClosed untouched_store.
Proof.
  split; intros w c; (split; [reflexivity|]).
  - apply (closed_mem _ (extends_cookie_closed _)).
  - apply (closed_file _ (extends_cookie_closed _)).
Qed.

Lemma Obj_set_keys (k : string) (v : json) (fs : list (string * json)) :
  Obj.get k fs <> None -> map fst (Obj.set k v fs) = map fst fs.
Proof.
  induction fs as [|[k' v'] fs IH]; simpl; [congruence|].
  destruct (String.eqb k' k); simpl; [reflexivity|].
  intros H. rewrite (IH H). reflexivity.
Qed.

Section Staff.
Context (env : Env) (cfg : Config).

Lemma redis_get_run (key : string) (w : World) :
  redis_get env key w
  = if redis_fails env (clock w)
    then (Throw (PlainError "redis"), noted [EvRedisGet key] w)
    else (Ok (redis w !! key), noted [EvRedisGet key] w).
Proof.
  unfold redis_get. rewrite (bind_ok _ _ _ _ _ (interact_run _ _)).
  destruct (redis_fails env (clock w)); reflexivity.
Qed.

(** What a read returns is [null] or the value of the stored text. *)
Lemma get_parsed_value (key : string) (w w1 : World) (v : json) :
  get_parsed env cfg key w = (Ok v, w1) ->
  v = JNull \/
  (redisClient_configured cfg = true /\
   exists text, redis w !! key = Some text /\ JSON_parse env text = Some v).
Proof.
  unfold get_parsed. destruct (redisClient_configured cfg); cbn [negb].
  - unfold try_catch, bind. rewrite redis_get_run.
    destruct (redis_fails env (clock w)).
    + intros [= <- _]. left. reflexivity.
    + destruct (redis w !! key) as [text|]; simpl.
      * destruct (Js.nonempty text); [|intros [= <- _]; left; reflexivity].
        unfold JSON_parse_str. destruct (JSON_parse env text) as [x|] eqn:Ep.
        -- intros [= <- _]. right. split; [reflexivity|]. exists text. auto.
        -- intros [= <- _]. left. reflexivity.
      * intros [= <- _]. left. reflexivity.
  - intros [= <- _]. left. reflexivity.
Qed.

Lemma get_parsed_untouched (key : string) (w w1 : World) (o : Outcome json) :
  get_parsed env cfg key w = (o, w1) -> untouched_store w w1.
Proof.
  apply steps_run.
  apply (steps_get_parsed env cfg _ _ untouched_store_closed).
  intros [] H; (exact I || destruct H).
Qed.

Lemma fetchActivityData_untouched (id u p t : string) (force : bool)
    (w w' : World) (o : Outcome json) :
  fetchActivityData env id u p t force w = (o, w') -> untouched_store w w'.
Proof.
  apply steps_run.
  apply (steps_fetchActivityData env _ _ untouched_store_closed);
    [intros [] H; (exact I || destruct H) | apply untouched_store_cookie_closed].
Qed.

Lemma has_lastCheck_object (x : json) :
  has_lastCheck x -> exists fields, x = JObj fields /\ Obj.get "lastCheck" fields <> None.
Proof.
  intros [_ H]. destruct x; try discriminate.
  exists fields. split; [reflexivity|]. simpl in H.
  destruct (Obj.get "lastCheck" fields); [discriminate | discriminate].
Qed.

Lemma lacks_lastCheck_needs_update (force : bool) (now interval : Z) (x : json) :
  ~ has_lastCheck x -> staff_needs_update env force now interval x = true.
Proof.
  intros H. unfold staff_needs_update.
  destruct (truthy x) eqn:Ht; [|reflexivity].
  destruct (truthy_opt (prop "lastCheck" x)) eqn:Hl; [|reflexivity].
  exfalso. apply H. split; assumption.
Qed.

End Staff.

(** C7. When the staff refresh is due and its fetch yields nothing: if the
    record that was read has a [lastCheck], the record is stored again with
    only [lastCheck] replaced by the current time, every other field and the
    order of the fields as read; if it has none, the run ends where the
    fetch ended, with the cache as it was and no write; and when the stored
    text is not a record with [lastCheck], every later read of the same
    text makes a non-forced call due again. *)
Theorem staff_refresh_when_fetch_absent
    (env : Env) (cfg : Config) (forceUpdate : bool)
    (w w1 w3 : World) (cachedStaffData activityJson : json) :
  getStaffData env cfg w = (Ok cachedStaffData, w1) ->
  staff_credentials cfg = true ->
  staff_needs_update env forceUpdate (Date_now env (clock w1))
    (STAFF_UPDATE_INTERVAL_MINS cfg * 60 * 1000) cachedStaffData = true ->
  fetchActivityData env (default "" (FIXED_STAFF_ACTIVITY_ID cfg))
      (default "" (API_USERNAME cfg)) (default "" (API_PASSWORD cfg))
      LOGIN_TEMPLATE false (after (Date_now_ms env) w1)
    = (Ok activityJson, w3) ->
  truthy activityJson = false ->
  let run := initializeOrUpdateStaffCache env cfg forceUpdate in
  (has_lastCheck cachedStaffData ->
   exists fields,
     cachedStaffData = JObj fields /\
     let iso := toISOString_now env (clock w3) in
     let bumped := Obj.set "lastCheck" (JStr iso) fields in
     after run w
       = after (setStaffData env cfg (JObj bumped)) (after (new_Date_toISOString env) w3) /\
     new_effects w3 (after run w)
       = [EvRedisSet STAFF_KEY (JSON_stringify env (JObj bumped))] /\
     Obj.get "lastCheck" bumped = Some (JStr iso) /\
     (forall k, k <> "lastCheck" -> Obj.get k bumped = Obj.get k fields) /\
     map fst bumped = map fst fields)
  /\
  (~ has_lastCheck cachedStaffData ->
   after run w = w3 /\ redis w3 = redis w /\ Forall not_a_write (new_effects w w3))
  /\
  (stored_lacks_lastCheck env (redis w !! STAFF_KEY) ->
   ~ has_lastCheck cachedStaffData /\
   forall (w' w1' : World) (cached' : json) (now' : Z),
     redis w' !! STAFF_KEY = redis w !! STAFF_KEY ->
     getStaffData env cfg w' = (Ok cached', w1') ->
     staff_needs_update env false now'
       (STAFF_UPDATE_INTERVAL_MINS cfg * 60 * 1000) cached' = true).
Proof.
  intros Hread Hcred Hdue Hfetch Habsent run.
  assert (Hnow : Date_now_ms env w1 = (Ok (Date_now env (clock w1)), after (Date_now_ms env) w1))
    by reflexivity.
  assert (Hrun : after run w
                 = after (if truthy cachedStaffData
                             && truthy_opt (prop "lastCheck" cachedStaffData)
                          then iso <- new_Date_toISOString env ;;
                               setStaffData env cfg
                                 (assign_lastCheck (JStr iso) cachedStaffData)
                          else ret tt) w3).
  { unfold after at 1. unfold run, initializeOrUpdateStaffCache.
    assert (Htail : nothrow (if truthy cachedStaffData
                                && truthy_opt (prop "lastCheck" cachedStaffData)
                             then iso <- new_Date_toISOString env ;;
                                  setStaffData env cfg
                                    (assign_lastCheck (JStr iso) cachedStaffData)
                             else ret tt)).
    { pose proof (nothrow_set_stringified env cfg STAFF_KEY).
      unfold setStaffData. nothrow_go. }
    erewrite try_ok; [reflexivity|].
    rewrite (bind_ok _ _ _ _ _ Hread), (bind_ok _ _ _ _ _ Hnow).
    cbv zeta. rewrite Hdue, Hcred. cbn [andb].
    rewrite (bind_ok _ _ _ _ _ Hfetch), Habsent.
    apply nothrow_unit_run, Htail. }
  split; [|split].
  - intros Hl. destruct (has_lastCheck_object _ Hl) as (fields & -> & Hsome).
    exists fields. split; [reflexivity|]. cbv zeta.
    destruct Hl as [Ht Hl]. rewrite Hrun, Ht, Hl. cbn [andb assign_lastCheck].
    assert (Hiso : new_Date_toISOString env w3
                   = (Ok (toISOString_now env (clock w3)),
                      after (new_Date_toISOString env) w3)) by reflexivity.
    assert (Hafter : after (iso <- new_Date_toISOString env ;;
                            setStaffData env cfg
                              (JObj (Obj.set "lastCheck" (JStr iso) fields))) w3
                     = after (setStaffData env cfg
                                (JObj (Obj.set "lastCheck"
                                         (JStr (toISOString_now env (clock w3))) fields)))
                         (after (new_Date_toISOString env) w3)).
    { unfold after at 1. rewrite (bind_ok _ _ _ _ _ Hiso). reflexivity. }
    split; [exact Hafter|]. split; [|split; [|split]].
    + rewrite Hafter.
      destruct (get_parsed_value env cfg _ _ _ _ Hread) as [E|[Hconf _]]; [discriminate|].
      unfold after at 1, setStaffData, set_stringified. rewrite Hconf. cbn [negb].
      unfold try_catch, redis_set.
      rewrite (bind_ok _ _ _ _ _ (interact_run _ _)).
      unfold new_effects.
      destruct (redis_fails env _); cbn; rewrite drop_app_length; reflexivity.
    + apply Obj_get_set_eq.
    + intros k Hk. apply Obj_get_set_ne. congruence.
    + apply Obj_set_keys, Hsome.
  - intros Hl.
    assert (Hcond : truthy cachedStaffData
                    && truthy_opt (prop "lastCheck" cachedStaffData) = false).
    { destruct (truthy cachedStaffData) eqn:Ht; [|reflexivity].
      destruct (truthy_opt (prop "lastCheck" cachedStaffData)) eqn:Hc; [|reflexivity].
      exfalso. apply Hl. split; assumption. }
    rewrite Hrun, Hcond. split; [reflexivity|].
    destruct (get_parsed_untouched env cfg _ _ _ _ Hread) as [R1 E1].
    destruct (fetchActivityData_untouched env _ _ _ _ _ _ _ _ Hfetch) as [R3 E3].
    split; [rewrite R3; exact R1|].
    apply extends_new_effects.
    exact (closed_trans _ _ (extends_closed _) _ _ _ E1 E3).
  - intros Hstore.
    assert (Hlacks : forall w' w1' cached',
              redis w' !! STAFF_KEY = redis w !! STAFF_KEY ->
              getStaffData env cfg w' = (Ok cached', w1') -> ~ has_lastCheck cached').
    { intros w' w1' cached' Hsame Hr.
      destruct (get_parsed_value env cfg _ _ _ _ Hr) as [->|(_ & text & Ht & Hp)].
      - intros [H _]. discriminate.
      - rewrite Hsame in Ht. exact (Hstore _ _ Ht Hp). }
    split; [exact (Hlacks w w1 cachedStaffData eq_refl Hread)|].
    intros w' w1' cached' now' Hsame Hr.
    apply lacks_lastCheck_needs_update. exact (Hlacks _ _ _ Hsame Hr).
Qed.

Lemma staff_refresh_when_fetch_absent_witness :
  let run := initializeOrUpdateStaffCache DemoStore.env DemoStore.cfg false in
  redis (after run DemoStaff.world) !! "staffs:all"
    = Some (Demo.JSON_text DemoStaff.bumped) /\
  redis (after run DemoStore.world) = redis DemoStore.world.
Proof.
  intros run. split.
  - pose (w1 := after (getStaffData DemoStore.env DemoStore.cfg) DemoStaff.world).
    pose (w3 := after (fetchActivityData DemoStore.env "3350" "user" "secret"
                         LOGIN_TEMPLATE false) (after (Date_now_ms DemoStore.env) w1)).
    destruct (staff_refresh_when_fetch_absent DemoStore.env DemoStore.cfg false
                DemoStaff.world w1 w3 DemoStore.staff JNull
                ltac:(vm_compute; reflexivity) ltac:(vm_compute; reflexivity)
                ltac:(vm_compute; reflexivity) ltac:(vm_compute; reflexivity)
                ltac:(vm_compute; reflexivity))
      as (Hbump & _ & _).
    destruct Hbump as (fields & Hfields & Hafter & _);
      [split; vm_compute; reflexivity|].
    injection Hfields as <-. fold run in Hafter. rewrite Hafter.
    vm_compute. reflexivity.
  - pose (w1 := after (getStaffData DemoStore.env DemoStore.cfg) DemoStore.world).
    pose (w3 := after (fetchActivityData DemoStore.env "3350" "user" "secret"
                         LOGIN_TEMPLATE false) (after (Date_now_ms DemoStore.env) w1)).
    destruct (staff_refresh_when_fetch_absent DemoStore.env DemoStore.cfg false
                DemoStore.world w1 w3 JNull JNull
                ltac:(vm_compute; reflexivity) ltac:(vm_compute; reflexivity)
                ltac:(vm_compute; reflexivity) ltac:(vm_compute; reflexivity)
                ltac:(vm_compute; reflexivity))
      as (_ & Hnone & _).
    destruct Hnone as (Hafter & Hredis & _); [intros [H _]; discriminate|].
    fold run in Hafter. rewrite Hafter. exact Hredis.
Defined.

(** * Further properties of the code *)

(** ** utils/image-processor.ts *)

Lemma append_cons (c : ascii) (p s : string) : String c p +:+ s = String c (p +:+ s).
Proof. reflexivity. Qed.

Lemma append_nil (s : string) : "" +:+ s = s.
Proof. reflexivity. Qed.

Lemma startsWith_split (s p : string) :
  Js.startsWith s p = true -> s = p +:+ Js.substring_from (String.length p) s.
Proof.
  unfold Js.startsWith. revert s.
  induction p as [|c p IH]; intros s H.
  - reflexivity.
  - destruct s as [|d s]; [discriminate|]. simpl in H.
    destruct (ascii_dec c d) as [->|]; [|discriminate].
    rewrite append_cons. simpl. f_equal. apply IH, H.
Qed.

Lemma startsWith_app (p s : string) : Js.startsWith (p +:+ s) p = true.
Proof.
  unfold Js.startsWith. induction p as [|c p IH].
  - rewrite append_nil. destruct s; reflexivity.
  - rewrite append_cons. simpl. destruct (ascii_dec c c); [exact IH | contradiction].
Qed.

Lemma substring_from_app (p s : string) :
  Js.substring_from (String.length p) (p +:+ s) = s.
Proof.
  induction p as [|c p IH]; [rewrite append_nil; destruct s; reflexivity|].
  rewrite append_cons. simpl. exact IH.
Qed.

Lemma first_marker_sound (ms : list (string * string)) (u c f : string) :
  Image.first_marker ms u = Some (c, f) ->
  exists pfx, In (pfx, f) ms /\ u = pfx +:+ c.
Proof.
  induction ms as [|[pfx format] ms IH]; simpl; [discriminate|].
  destruct (Js.startsWith u pfx) eqn:E.
  - intros [= <- <-]. exists pfx. split; [left; reflexivity | apply startsWith_split, E].
  - intros H. destruct (IH H) as (p & Hin & Hu). exists p. split; [right; exact Hin | exact Hu].
Qed.

(** X1. [extractBase64Image] splits a data URL at its marker: for each of
    the six known markers the content after the marker and the marker's
    format come back (`svg+xml` as `svg`); whatever it returns rebuilds the
    input; and it returns nothing for a string that does not start with
    `data:image/`. *)
Theorem extractBase64Image_splits_at_marker :
  (forall pfx format content,
     In (pfx, format) Image.markers ->
     Image.extractBase64Image (pfx +:+ content) = Some (content, format)) /\
  (forall dataUrl content format,
     Image.extractBase64Image dataUrl = Some (content, format) ->
     exists pfx, In (pfx, format) Image.markers /\ dataUrl = pfx +:+ content) /\
  (forall dataUrl,
     Js.startsWith dataUrl "data:image/" = false ->
     Image.extractBase64Image dataUrl = None).
Proof.
  split; [|split].
  - intros pfx format content Hin.
    unfold Image.markers in Hin. simpl in Hin.
    destruct Hin as [H|[H|[H|[H|[H|[H|[]]]]]]]; injection H as <- <-;
      destruct content; vm_compute; reflexivity.
  - intros u c f. unfold Image.extractBase64Image.
    destruct (negb _); [discriminate|]. apply first_marker_sound.
  - intros u H. unfold Image.extractBase64Image. rewrite H. reflexivity.
Qed.

Lemma extractBase64Image_splits_at_marker_witness :
  Image.extractBase64Image "data:image/svg+xml;base64,PHN2Zz4=" = Some ("PHN2Zz4=", "svg").
Proof.
  apply (proj1 extractBase64Image_splits_at_marker "data:image/svg+xml;base64," "svg").
  right. right. right. right. left. reflexivity.
Defined.

(** ** engage-api/struct-staff.ts *)

Section StaffMapFacts.
Import StructStaff StaffSpec.

Lemma map_get_None (m : StaffMap) (k : string) :
  map_get k m = None <-> ~ In k (List.map fst m).
Proof.
  induction m as [|[k' v] m IH]; simpl.
  - tauto.
  - destruct (String.eqb_spec k' k) as [->|Hne].
    + split; [discriminate | intros H; exfalso; apply H; left; reflexivity].
    + rewrite IH. split; [intros H [H'|H']; [congruence | exact (H H')] | tauto].
Qed.

Lemma map_get_In (m : StaffMap) (k v : string) :
  List.NoDup (List.map fst m) -> (map_get k m = Some v <-> In (k, v) m).
Proof.
  induction m as [|[k' v'] m IH]; simpl; intros Hnd.
  - split; [discriminate | tauto].
  - apply List.NoDup_cons_iff in Hnd as [Hk Hnd].
    destruct (String.eqb_spec k' k) as [->|Hne].
    + split.
      * intros [= ->]. left; reflexivity.
      * intros [[= ->]|Hin]; [reflexivity|].
        exfalso. apply Hk. apply (in_map fst) in Hin. exact Hin.
    + rewrite (IH Hnd). split; [tauto | intros [[= -> _]|H]; [congruence | exact H]].
Qed.

Lemma map_get_set (m : StaffMap) (k k' v : string) :
  map_get k' (map_set k v m) = if String.eqb k k' then Some v else map_get k' m.
Proof.
  induction m as [|[k0 v0] m IH]; simpl.
  - reflexivity.
  - destruct (String.eqb_spec k0 k) as [->|Hne]; simpl.
    + destruct (String.eqb_spec k k'); reflexivity.
    + rewrite IH. destruct (String.eqb_spec k0 k') as [->|]; [|reflexivity].
      destruct (String.eqb_spec k k'); [congruence | reflexivity].
Qed.

Lemma map_set_keys (m : StaffMap) (k v x : string) :
  In x (List.map fst (map_set k v m)) -> x = k \/ In x (List.map fst m).
Proof.
  induction m as [|[k0 v0] m IH]; simpl.
  - intros [<-|[]]. left; reflexivity.
  - destruct (String.eqb_spec k0 k) as [->|Hne]; simpl; tauto.
Qed.

Lemma map_set_NoDup (m : StaffMap) (k v : string) :
  List.NoDup (List.map fst m) -> List.NoDup (List.map fst (map_set k v m)).
Proof.
  induction m as [|[k0 v0] m IH]; simpl; intros Hnd.
  - constructor; [intros [] | constructor].
  - apply List.NoDup_cons_iff in Hnd as [Hk Hnd].
    destruct (String.eqb_spec k0 k) as [->|Hne]; simpl.
    + constructor; assumption.
    + constructor; [|exact (IH Hnd)].
      intros Hin. apply map_set_keys in Hin as [->|Hin]; [congruence | exact (Hk Hin)].
Qed.

Lemma map_delete_keys (m : StaffMap) (k x : string) :
  In x (List.map fst (map_delete k m)) -> In x (List.map fst m).
Proof.
  induction m as [|[k0 v0] m IH]; simpl; [tauto|].
  destruct (String.eqb_spec k0 k); simpl; tauto.
Qed.

Lemma map_delete_NoDup (m : StaffMap) (k : string) :
  List.NoDup (List.map fst m) -> List.NoDup (List.map fst (map_delete k m)).
Proof.
  induction m as [|[k0 v0] m IH]; simpl; intros Hnd; [constructor|].
  apply List.NoDup_cons_iff in Hnd as [Hk Hnd].
  destruct (String.eqb_spec k0 k); simpl; [exact Hnd|].
  constructor; [|exact (IH Hnd)].
  intros Hin. exact (Hk (map_delete_keys _ _ _ Hin)).
Qed.

Lemma map_get_delete (m : StaffMap) (k k' : string) :
  List.NoDup (List.map fst m) ->
  map_get k' (map_delete k m) = if String.eqb k k' then None else map_get k' m.
Proof.
  induction m as [|[k0 v0] m IH]; simpl; intros Hnd.
  - destruct (String.eqb k k'); reflexivity.
  - apply List.NoDup_cons_iff in Hnd as [Hk Hnd].
    destruct (String.eqb_spec k0 k) as [->|Hne]; simpl.
    + destruct (String.eqb_spec k k') as [Heq|]; [|reflexivity].
      subst. apply map_get_None, Hk.
    + rewrite (IH Hnd). destruct (String.eqb_spec k0 k') as [->|]; [|reflexivity].
      destruct (String.eqb_spec k k'); [congruence | reflexivity].
Qed.

(** The first loop of [dropOddName]. *)
Lemma delete_all (bl : list string) (m : StaffMap) :
  List.NoDup (List.map fst m) ->
  List.NoDup (List.map fst (fold_left (fun m k => map_delete k m) bl m)) /\
  forall k, map_get k (fold_left (fun m k => map_delete k m) bl m)
            = if existsb (fun b => String.eqb b k) bl then None else map_get k m.
Proof.
  revert m. induction bl as [|b bl IH]; simpl; intros m Hnd.
  - split; [exact Hnd | reflexivity].
  - destruct (IH (map_delete b m) (map_delete_NoDup _ _ Hnd)) as [Hnd' Hget].
    split; [exact Hnd'|]. intros k. rewrite Hget, (map_get_delete _ _ _ Hnd).
    destruct (String.eqb b k); simpl; [|reflexivity].
    destruct (existsb _ bl); reflexivity.
Qed.

Lemma correct_name_keys (o c : string) (m : StaffMap) :
  List.map fst (correct_name o c m) = List.map fst m.
Proof.
  unfold correct_name. induction m as [|[id name] m IH]; simpl; [reflexivity|].
  rewrite IH. destruct (String.eqb name o); reflexivity.
Qed.

Lemma map_get_correct_name (o c : string) (m : StaffMap) (k : string) :
  map_get k (correct_name o c m)
  = (fun n => if String.eqb n o then c else n) <$> map_get k m.
Proof.
  unfold correct_name. induction m as [|[id name] m IH]; simpl; [reflexivity|].
  destruct (String.eqb name o) eqn:E; simpl; destruct (String.eqb id k); simpl;
    rewrite ?E; auto.
Qed.

Lemma correct_all (l : list (string * string)) (m : StaffMap) :
  List.map fst (fold_left (fun m '(o, c) => correct_name o c m) l m) = List.map fst m /\
  forall k, map_get k (fold_left (fun m '(o, c) => correct_name o c m) l m)
            = (fun n => fold_left correction_step l n) <$> map_get k m.
Proof.
  revert m. induction l as [|[o c] l IH]; simpl; intros m.
  - split; [reflexivity|]. intros k. destruct (map_get k m); reflexivity.
  - destruct (IH (correct_name o c m)) as [Hk Hget]. split.
    + rewrite Hk. apply correct_name_keys.
    + intros k. rewrite Hget, map_get_correct_name.
      destruct (map_get k m); reflexivity.
Qed.

Lemma correction_step_fixed (l : list (string * string)) (n : string) :
  ~ In n (List.map fst l) -> fold_left correction_step l n = n.
Proof.
  revert n. induction l as [|[o c] l IH]; simpl; intros n Hn; [reflexivity|].
  destruct (String.eqb_spec n o) as [->|Hne]; [tauto|]. apply IH. tauto.
Qed.

Lemma correction_is_lookup (l : list (string * string)) (n : string) :
  (forall c, In c (List.map snd l) -> ~ In c (List.map fst l)) ->
  fold_left correction_step l n = default n (map_get n l).
Proof.
  revert n. induction l as [|[o c] l IH]; simpl; intros n Hl; [reflexivity|].
  destruct (String.eqb_spec n o) as [->|Hne].
  - rewrite String.eqb_refl. simpl. apply correction_step_fixed.
    intros Hin. apply (Hl c); [left; reflexivity | right; exact Hin].
  - destruct (String.eqb_spec o n) as [->|_]; [congruence|].
    apply IH. intros c' Hc' Hin. apply (Hl c'); [right; exact Hc' | right; exact Hin].
Qed.

Lemma oddNames_settled :
  forall c, In c (List.map snd oddNames) -> ~ In c (List.map fst oddNames).
Proof.
  assert (H : forallb (fun c => negb (existsb (String.eqb c) (List.map fst oddNames)))
                      (List.map snd oddNames) = true) by (vm_compute; reflexivity).
  intros c Hc Ho. rewrite forallb_forall in H. specialize (H c Hc).
  apply negb_true_iff in H.
  assert (H' : existsb (String.eqb c) (List.map fst oddNames) = true).
  { apply existsb_exists. exists c. split; [exact Ho | apply String.eqb_refl]. }
  congruence.
Qed.

Lemma corrected_settled (n : string) : ~ In (corrected n) (List.map fst oddNames).
Proof.
  unfold corrected. destruct (map_get n oddNames) as [c|] eqn:E; simpl.
  - apply oddNames_settled.
    clear -E. induction oddNames as [|[o c'] l IH]; simpl in *; [discriminate|].
    destruct (String.eqb o n); [injection E as ->; left; reflexivity | right; auto].
  - exact (proj1 (map_get_None oddNames n) E).
Qed.

Lemma dropOddName_NoDup (m : StaffMap) :
  List.NoDup (List.map fst m) -> List.NoDup (List.map fst (dropOddName m)).
Proof.
  intros Hnd. unfold dropOddName.
  rewrite (proj1 (correct_all _ _)). apply delete_all, Hnd.
Qed.

Lemma map_get_dropOddName (m : StaffMap) (k : string) :
  List.NoDup (List.map fst m) ->
  map_get k (dropOddName m)
  = if existsb (fun b => String.eqb b k) blackList then None
    else corrected <$> map_get k m.
Proof.
  intros Hnd. unfold dropOddName.
  rewrite (proj2 (correct_all _ _)), (proj2 (delete_all _ _ Hnd)).
  destruct (existsb _ blackList); [reflexivity|].
  destruct (map_get k m) as [n|]; [|reflexivity].
  change (Some (fold_left correction_step oddNames n) = Some (corrected n)).
  f_equal. exact (correction_is_lookup oddNames n oddNames_settled).
Qed.

Lemma set_all (l : list (option Staff)) (m : StaffMap) :
  List.NoDup (List.map fst m) ->
  List.NoDup (List.map fst (fold_left set_step l m)) /\
  forall k, map_get k (fold_left set_step l m)
            = match latest k l with Some v => Some v | None => map_get k m end.
Proof.
  intros Hnd. induction l as [|x l IH] using rev_ind.
  - split; [exact Hnd | reflexivity].
  - destruct IH as [Hnd' Hget]. rewrite fold_left_app. simpl. split.
    + destruct x as [st|]; simpl; [|exact Hnd'].
      destruct (Js.nonempty (key st)); [apply map_set_NoDup|]; exact Hnd'.
    + intros k. unfold latest in *. rewrite omap_app, List.filter_app.
      destruct x as [st|]; simpl.
      * destruct (Js.nonempty (key st)); simpl.
        -- rewrite map_get_set. destruct (String.eqb (key st) k); simpl.
           ++ rewrite last_snoc. reflexivity.
           ++ rewrite app_nil_r. apply Hget.
        -- rewrite app_nil_r. apply Hget.
      * rewrite app_nil_r. apply Hget.
Qed.

Lemma updateStaffMap_fold (m : StaffMap) (l : list (option Staff)) :
  updateStaffMap m (Some l) = dropOddName (fold_left set_step l m).
Proof. reflexivity. Qed.

Lemma clean_nil : clean [].
Proof.
  split; [constructor | split; [reflexivity | intros ? ? []]].
Qed.

End StaffMapFacts.

(** X2. The staff map stays clean across calls of [structStaffData]: when
    the map held no id twice, no black-listed id and no odd name before the
    call, it holds none after it, whatever the response was. *)
Theorem structStaffData_keeps_map_clean
    (staffs : StructStaff.StaffMap) (newRows : list StructStaff.ActivityRow) :
  StaffSpec.clean staffs ->
  StaffSpec.clean (StructStaff.structStaffData staffs newRows).
Proof.
  intros Hclean. unfold StructStaff.structStaffData.
  destruct (StructStaff.first_staff_field newRows) as [field|]; [|exact Hclean].
  destruct (StructStaff.lParms field) as [l|]; [|exact Hclean].
  rewrite updateStaffMap_fold.
  destruct Hclean as (Hnd & _ & _).
  destruct (set_all l staffs Hnd) as [Hnd1 _].
  pose proof (dropOddName_NoDup _ Hnd1) as Hnd2.
  split; [exact Hnd2 | split].
  - intros k Hk. rewrite (map_get_dropOddName _ _ Hnd1).
    replace (existsb (fun b => String.eqb b k) StructStaff.blackList) with true;
      [reflexivity|].
    symmetry. apply existsb_exists. exists k. split; [exact Hk | apply String.eqb_refl].
  - intros id name Hin. apply (map_get_In _ _ _ Hnd2) in Hin.
    rewrite (map_get_dropOddName _ _ Hnd1) in Hin.
    destruct (existsb _ StructStaff.blackList); [discriminate|].
    destruct (StructStaff.map_get id (fold_left StructStaff.set_step l staffs)); [|discriminate].
    injection Hin as <-. apply corrected_settled.
Qed.

Lemma structStaffData_keeps_map_clean_witness :
  StaffSpec.clean (StructStaff.structStaffData [] StaffSpec.rows).
Proof.
  apply structStaffData_keeps_map_clean.
  split; [constructor | split; [reflexivity | intros ? ? []]].
Defined.

(** X3. What [updateStaffMap] leaves under an id: nothing when the id is
    black-listed; otherwise the value of the last entry of the response with
    that id, or else what the map held before, with an odd name replaced by
    its correction. *)
Theorem updateStaffMap_lookup
    (staffs : StructStaff.StaffMap) (lParms : list (option StructStaff.Staff)) (k : string) :
  List.NoDup (List.map fst staffs) ->
  StructStaff.map_get k (StructStaff.updateStaffMap staffs (Some lParms))
  = if bool_decide (In k StructStaff.blackList) then None
    else StaffSpec.corrected <$>
           match StaffSpec.latest k lParms with
           | Some v => Some v
           | None => StructStaff.map_get k staffs
           end.
Proof.
  intros Hnd. rewrite updateStaffMap_fold.
  destruct (set_all lParms staffs Hnd) as [Hnd1 Hget].
  rewrite (map_get_dropOddName _ _ Hnd1), Hget.
  destruct (existsb (fun b => String.eqb b k) StructStaff.blackList) eqn:E.
  - rewrite bool_decide_eq_true_2; [reflexivity|].
    apply existsb_exists in E as (b & Hb & Heq). apply String.eqb_eq in Heq. subst b. exact Hb.
  - rewrite bool_decide_eq_false_2; [reflexivity|].
    intros Hin. assert (existsb (fun b => String.eqb b k) StructStaff.blackList = true).
    { apply existsb_exists. exists k. split; [exact Hin | apply String.eqb_refl]. }
    congruence.
Qed.

Lemma updateStaffMap_lookup_witness :
  StructStaff.map_get "CL1-200"
    (StructStaff.updateStaffMap [("CL1-200", "Mr Stale")]
       (Some [Some (StructStaff.mkStaff "CL1-200" "Mr Old");
              Some (StructStaff.mkStaff "CL1-200" "Ms SiSi Li")]))
  = Some "Ms Sisi Li".
Proof.
  rewrite updateStaffMap_lookup.
  - vm_compute. reflexivity.
  - constructor; [intros [] | constructor].
Defined.

(** ** engage-api/get-activity.ts: the cookie cache *)

Lemma loadCachedCookie_memory (env : Env) (w : World) (c : string) :
  inMemoryCookie w = Some c -> Js.nonempty c = true ->
  loadCachedCookie env w = (Ok (Some c), w).
Proof.
  intros Hmem Hne. unfold loadCachedCookie.
  rewrite (bind_ok _ _ w w w) by reflexivity.
  rewrite Hmem. simpl. rewrite Hne. reflexivity.
Qed.

(** X4. A cookie that was saved is what the next load returns, from memory
    and without touching the file: the load changes nothing, whether the
    write of the file worked or not. *)
Theorem saved_cookie_is_served_from_memory (env : Env) (c : string) (w : World) :
  Js.nonempty c = true ->
  loadCachedCookie env (after (saveCookieToCache env c) w)
  = (Ok (Some c), after (saveCookieToCache env c) w).
Proof.
  intros Hne. apply loadCachedCookie_memory; [|exact Hne].
  apply saveCookieToCache_stores, Hne.
Qed.

Lemma saved_cookie_is_served_from_memory_witness :
  let w1 := after (saveCookieToCache DemoMore.locked "k=v") Demo.cold in
  cookieFile w1 = None /\
  loadCachedCookie DemoMore.locked w1 = (Ok (Some "k=v"), w1).
Proof.
  split; [reflexivity|].
  apply (saved_cookie_is_served_from_memory DemoMore.locked "k=v" Demo.cold).
  reflexivity.
Defined.

Lemma clearCookieCache_run (env : Env) (w : World) :
  clearCookieCache env w
  = (Ok tt,
     mkWorld (S (clock w)) None
       (match fs_reply env (clock w) with
        | Gives _ => None
        | Fails _ => cookieFile w
        end)
       (redis w) (trace w ++ [EvUnlink])).
Proof.
  unfold clearCookieCache.
  cbv [bind set_inMemoryCookie set_cookieFile try_catch unlink_cookie
       interact note tick ret throw get_world].
  simpl.
  destruct (fs_reply env (clock w)) as [code|[]]; simpl; [reflexivity|].
  destruct (cookieFile w); reflexivity.
Qed.

Lemma loadCachedCookie_file (env : Env) (w : World) :
  inMemoryCookie w = None ->
  loadCachedCookie env w
  = match fs_reply env (clock w), cookieFile w with
    | Gives _, Some c =>
        if Js.nonempty c
        then (Ok (Some c),
              mkWorld (S (clock w)) (Some c) (cookieFile w) (redis w)
                      (trace w ++ [EvReadFile]))
        else (Ok None, noted [EvReadFile] w)
    | _, _ => (Ok None, noted [EvReadFile] w)
    end.
Proof.
  intros Hmem. unfold loadCachedCookie.
  rewrite (bind_ok _ _ w w w) by reflexivity. rewrite Hmem. simpl.
  cbv [bind set_inMemoryCookie try_catch readFile_cookie
       interact note tick ret throw get_world noted].
  simpl. rewrite Nat.add_1_r.
  destruct (fs_reply env (clock w)) as [code|[]]; simpl; [reflexivity|].
  destruct (cookieFile w) as [c|]; [|reflexivity].
  destruct (Js.nonempty c); reflexivity.
Qed.

(** X5. When the removal of the cookie file is not rejected, clearing the
    cache leaves no cookie in memory and no file, its one interaction is the
    removal, and the next load returns nothing. *)
Theorem cleared_cookie_stays_cleared (env : Env) (w : World) :
  fs_reply env (clock w) = Gives tt ->
  let w1 := after (clearCookieCache env) w in
  inMemoryCookie w1 = None /\ cookieFile w1 = None /\
  new_effects w w1 = [EvUnlink] /\
  result (loadCachedCookie env) w1 = Ok None.
Proof.
  intros Hfs. unfold after, result. rewrite clearCookieCache_run, Hfs. simpl.
  split; [reflexivity|]. split; [reflexivity|]. split.
  - unfold new_effects. simpl. apply drop_app_length.
  - rewrite loadCachedCookie_file by reflexivity. simpl.
    destruct (fs_reply env (S (clock w))); reflexivity.
Qed.

Lemma cleared_cookie_stays_cleared_witness :
  let w1 := after (clearCookieCache Demo.rejecting) Demo.warm in
  inMemoryCookie w1 = None /\ cookieFile w1 = None /\
  new_effects Demo.warm w1 = [EvUnlink] /\
  result (loadCachedCookie Demo.rejecting) w1 = Ok None.
Proof.
  apply (cleared_cookie_stays_cleared Demo.rejecting Demo.warm). reflexivity.
Defined.

(** X6. When the removal of the cookie file is rejected, the cleared cookie
    comes back: the file still holds it, and the next load that can read the
    file returns it and puts it in memory again. *)
Theorem rejected_unlink_brings_cookie_back
    (env : Env) (w : World) (code c : string) :
  fs_reply env (clock w) = Fails code ->
  cookieFile w = Some c ->
  Js.nonempty c = true ->
  let w1 := after (clearCookieCache env) w in
  fs_reply env (clock w1) = Gives tt ->
  inMemoryCookie w1 = None /\
  result (loadCachedCookie env) w1 = Ok (Some c) /\
  inMemoryCookie (after (loadCachedCookie env) w1) = Some c.
Proof.
  intros Hfs Hfile Hne. unfold after, result. rewrite clearCookieCache_run, Hfs. simpl.
  intros Hfs'. split; [reflexivity|].
  rewrite loadCachedCookie_file by reflexivity. simpl.
  rewrite Hfs', Hfile, Hne. split; reflexivity.
Qed.

Lemma rejected_unlink_brings_cookie_back_witness :
  let w1 := after (clearCookieCache DemoMore.locked_once) Demo.warm in
  inMemoryCookie w1 = None /\
  result (loadCachedCookie DemoMore.locked_once) w1 = Ok (Some "old") /\
  inMemoryCookie (after (loadCachedCookie DemoMore.locked_once) w1) = Some "old".
Proof.
  apply (rejected_unlink_brings_cookie_back DemoMore.locked_once Demo.warm "EBUSY" "old");
    reflexivity.
Defined.

(** ** The validity probe *)

Lemma testCookieValidity_loop_step (env : Env) (fuel attempt : nat) (c : string) (w : World) :
  (attempt < MAX_RETRIES)%nat ->
  testCookieValidity_loop env (S fuel) attempt c w
  = if accepted env (clock w) then (Ok true, noted [probe c] w)
    else if (MAX_RETRIES <=? S attempt)%nat then (Ok false, noted [probe c] w)
         else testCookieValidity_loop env fuel (S attempt) c (noted [probe c] w).
Proof.
  intros Hlt. cbn [testCookieValidity_loop].
  destruct (Nat.leb_spec MAX_RETRIES attempt) as [Hle|_]; [lia|].
  unfold accepted, probe.
  destruct (http_post_details env (clock w)) as [st|data] eqn:E.
  - rewrite (bind_ok _ _ w (noted [EvHttpPostDetails "3350" c] w)
               (if (MAX_RETRIES <=? S attempt)%nat then Return false else Continue)).
    + destruct (MAX_RETRIES <=? S attempt)%nat; reflexivity.
    + erewrite try_throw.
      2:{ erewrite bind_throw; [reflexivity|]. apply axios_post_details_fails, E. }
      destruct (MAX_RETRIES <=? S attempt)%nat; reflexivity.
  - rewrite (bind_ok _ _ w (noted [EvHttpPostDetails "3350" c] w) (Return true)).
    + reflexivity.
    + apply try_ok. erewrite bind_ok; [reflexivity|].
      apply axios_post_details_gives, E.
Qed.

(** X7. The validity probe of a non-empty cookie asks for activity 3350
    with that cookie, up to three times and without a pause: it stops at the
    first accepted response, and it answers [true] exactly when one of the
    three replies that it could see is accepted.  It leaves the cookie cache
    as it was. *)
Theorem testCookieValidity_probes (env : Env) (c : string) (w : World) :
  Js.nonempty c = true ->
  let t := clock w in
  result (testCookieValidity env c) w
  = Ok (accepted env t || accepted env (t + 1) || accepted env (t + 2)) /\
  exists k, (1 <= k <= 3)%nat /\
    after (testCookieValidity env c) w = noted (repeat (probe c) k) w /\
    (forall i, (i < k - 1)%nat -> accepted env (t + i) = false) /\
    (k < 3 -> accepted env (t + (k - 1)) = true)%nat.
Proof.
  intros Hne t. unfold testCookieValidity, result, after. rewrite Hne.
  cbn [negb].
  change (testCookieValidity_loop env MAX_RETRIES 0 c) with (testCookieValidity_loop env 3 0 c).
  rewrite testCookieValidity_loop_step by (unfold MAX_RETRIES; lia). fold t.
  destruct (accepted env t) eqn:E0.
  { split; [reflexivity|]. exists 1%nat. simpl. rewrite Nat.add_0_r.
    repeat split; try lia. intros _. exact E0. }
  change (MAX_RETRIES <=? 1)%nat with false. cbv iota.
  rewrite testCookieValidity_loop_step by (unfold MAX_RETRIES; lia).
  change (clock (noted [probe c] w)) with (t + 1)%nat.
  destruct (accepted env (t + 1)) eqn:E1.
  { split; [reflexivity|]. exists 2%nat. rewrite noted_app. simpl.
    repeat split; try lia.
    - intros i Hi. assert (i = 0)%nat as -> by lia. rewrite Nat.add_0_r. exact E0.
    - intros _. exact E1. }
  change (MAX_RETRIES <=? 2)%nat with false. cbv iota.
  rewrite noted_app.
  rewrite testCookieValidity_loop_step by (unfold MAX_RETRIES; lia).
  change (clock (noted ([probe c] ++ [probe c]) w)) with (t + 2)%nat.
  change (MAX_RETRIES <=? 3)%nat with true. cbv iota.
  assert (H01 : forall i, (i < 3 - 1)%nat -> accepted env (t + i) = false).
  { intros i Hi. assert (i = 0 \/ i = 1)%nat as [-> | ->] by lia;
      [rewrite Nat.add_0_r; exact E0 | exact E1]. }
  destruct (accepted env (t + 2)) eqn:E2; rewrite noted_app;
    (split; [reflexivity|]); exists 3%nat; (repeat split; try lia; try exact H01).
Qed.

Lemma testCookieValidity_probes_witness :
  result (testCookieValidity DemoMore.recovering "c") Demo.cold = Ok true /\
  after (testCookieValidity DemoMore.recovering "c") Demo.cold
  = noted [probe "c"; probe "c"] Demo.cold.
Proof.
  destruct (testCookieValidity_probes DemoMore.recovering "c" Demo.cold eq_refl)
    as (Hres & k & Hk & Hafter & Hfalse & Htrue).
  split; [exact Hres|].
  rewrite Hafter.
  assert (k = 2)%nat as ->; [|reflexivity].
  destruct k as [|[|[|k]]]; [lia | | reflexivity |].
  - specialize (Htrue ltac:(lia)). discriminate Htrue.
  - specialize (Hfalse 1%nat ltac:(lia)). discriminate Hfalse.
Defined.

(** ** The fetch client, accepted responses *)

Section FetchClientAccepts.
Context (env : Env) (activityId cookies : string) (maxRetries : nat).

Lemma JSON_parse_str_run (text : string) (x : json) (w : World) :
  JSON_parse env text = Some x -> JSON_parse_str env text w = (Ok x, w).
Proof. intros H. unfold JSON_parse_str. rewrite H. reflexivity. Qed.

Lemma prop_truthy (key : string) (x v : json) : prop key x = Some v -> truthy x = true.
Proof. destruct x; simpl; try discriminate. reflexivity. Qed.

Lemma attempt_well_formed (attempt : nat) (w : World) (data : string) (inner : json) :
  http_post_details env (clock w) = Gives data ->
  well_formed env data inner ->
  getActivityDetailsRaw_attempt env activityId cookies maxRetries attempt w
  = (Ok (Return (if truthy_opt (prop "isError" inner) then None else Some data)),
     noted [EvHttpPostDetails activityId cookies] w).
Proof.
  intros Hreply (outer & d & Ho & Hd & Hi & Hnn). unfold getActivityDetailsRaw_attempt.
  apply try_ok.
  rewrite (bind_ok _ _ _ _ _ (axios_post_details_gives env _ _ _ _ Hreply)).
  rewrite (bind_ok _ _ _ _ _ (JSON_parse_str_run _ _ _ Ho)).
  rewrite (prop_truthy _ _ _ Hd), Hd.
  rewrite (bind_ok _ _ _ _ _ (JSON_parse_str_run _ _ _ Hi)).
  rewrite (bind_ok _ _ _ (noted [EvHttpPostDetails activityId cookies] w) (prop "isError" inner)).
  - destruct (truthy_opt (prop "isError" inner)); reflexivity.
  - unfold read_prop. destruct inner; try reflexivity. congruence.
Qed.

Lemma attempt_malformed (attempt : nat) (w : World) :
  malformed env (http_post_details env (clock w)) ->
  getActivityDetailsRaw_attempt env activityId cookies maxRetries attempt w
  = (Ok Continue, noted [EvHttpPostDetails activityId cookies] w).
Proof.
  intros (data & outer & Hreply & Ho & Hd). unfold getActivityDetailsRaw_attempt.
  apply try_ok.
  rewrite (bind_ok _ _ _ _ _ (axios_post_details_gives env _ _ _ _ Hreply)).
  rewrite (bind_ok _ _ _ _ _ (JSON_parse_str_run _ _ _ Ho)).
  destruct (truthy outer); [|reflexivity].
  destruct (prop "d" outer) as [[| | |d| |]|] eqn:E; try reflexivity.
  exfalso. exact (Hd d eq_refl).
Qed.

Lemma loop_malformed (n : nat) :
  forall (fuel attempt : nat) (w : World),
    (attempt + n = maxRetries)%nat ->
    (forall i, (i < n)%nat -> malformed env (http_post_details env (clock w + i))) ->
    getActivityDetailsRaw_loop env (n + fuel) activityId cookies maxRetries attempt w
    = (Ok None, noted (repeat (EvHttpPostDetails activityId cookies) n) w).
Proof.
  induction n as [|n IH]; intros fuel attempt w Hsum Hall.
  - rewrite noted_nil. cbn [Nat.add]. destruct fuel; cbn [getActivityDetailsRaw_loop];
      [reflexivity|].
    replace (maxRetries <=? attempt)%nat with true by (symmetry; apply Nat.leb_le; lia).
    reflexivity.
  - cbn [Nat.add getActivityDetailsRaw_loop].
    replace (maxRetries <=? attempt)%nat with false by (symmetry; apply Nat.leb_gt; lia).
    rewrite (bind_ok _ _ _ _ _ (attempt_malformed attempt w ltac:(
      specialize (Hall 0%nat ltac:(lia)); rewrite Nat.add_0_r in Hall; exact Hall))).
    rewrite IH.
    + rewrite noted_app. reflexivity.
    + lia.
    + intros i Hi. specialize (Hall (S i) ltac:(lia)).
      replace (clock (noted [EvHttpPostDetails activityId cookies] w) + i)%nat
        with (clock w + S i)%nat by (simpl; lia).
      exact Hall.
Qed.

End FetchClientAccepts.

(** X8. In [getActivityDetailsRaw], after any number [k] of attempts that
    failed without a 4xx status and were retried, an accepted response whose
    [d] parses ends the loop with that request: the raw text of the response
    is returned as it came, or nothing when the parsed details say
    [isError]. *)
Theorem fetch_client_returns_accepted_text
    (env : Env) (activityId cookies : string) (maxRetries k : nat) (w : World)
    (data : string) (inner : json) :
  (k < maxRetries)%nat ->
  (forall i, (i < k)%nat ->
     exists st, http_post_details env (clock w + 2 * i) = Fails st /\ is_4xx st = false) ->
  http_post_details env (clock w + 2 * k) = Gives data ->
  well_formed env data inner ->
  getActivityDetailsRaw env activityId cookies maxRetries w
  = (Ok (if truthy_opt (prop "isError" inner) then None else Some data),
     noted (retried_attempts activityId cookies 0 k
            ++ [EvHttpPostDetails activityId cookies]) w).
Proof.
  intros Hk Hfail Hreply Hwf. unfold getActivityDetailsRaw.
  replace maxRetries with (k + (maxRetries - k))%nat at 1 by lia.
  rewrite loop_retries by (auto; lia).
  destruct (maxRetries - k)%nat as [|fuel] eqn:Hfuel; [lia|].
  cbn [Nat.add getActivityDetailsRaw_loop].
  replace (maxRetries <=? k)%nat with false by (symmetry; apply Nat.leb_gt; lia).
  erewrite bind_ok; cycle 1.
  { apply attempt_well_formed; [|exact Hwf].
    simpl. rewrite length_retried_attempts. exact Hreply. }
  rewrite noted_app. reflexivity.
Qed.

Lemma fetch_client_returns_accepted_text_witness :
  getActivityDetailsRaw DemoMore.recovering "42" "c" 3 Demo.cold
  = (Ok (Some DemoMore.payload),
     noted [EvHttpPostDetails "42" "c"; EvSleep 1000; EvHttpPostDetails "42" "c"]
           Demo.cold).
Proof.
  refine (fetch_client_returns_accepted_text DemoMore.recovering "42" "c" 3 1 Demo.cold
            DemoMore.payload DemoMore.inner _ _ _ _).
  - lia.
  - intros i Hi. assert (i = 0)%nat as -> by lia.
    exists (Some 503). split; reflexivity.
  - reflexivity.
  - exists DemoMore.outer, (Demo.JSON_text DemoMore.inner).
    split; [vm_compute; reflexivity|]. split; [reflexivity|].
    split; [vm_compute; reflexivity | discriminate].
Defined.

(** X9. Accepted responses that parse but carry no string [d] are retried at
    once: when every reply is of that kind, [getActivityDetailsRaw] makes
    [maxRetries] requests with no pause between them and returns nothing. *)
Theorem fetch_client_malformed_replies
    (env : Env) (activityId cookies : string) (maxRetries : nat) (w : World) :
  (forall i, (i < maxRetries)%nat ->
     malformed env (http_post_details env (clock w + i))) ->
  getActivityDetailsRaw env activityId cookies maxRetries w
  = (Ok None, noted (repeat (EvHttpPostDetails activityId cookies) maxRetries) w).
Proof.
  intros Hall. unfold getActivityDetailsRaw.
  rewrite <- (Nat.add_0_r maxRetries) at 1.
  apply loop_malformed; [reflexivity | exact Hall].
Qed.

Lemma fetch_client_malformed_replies_witness :
  getActivityDetailsRaw DemoMore.garbled "42" "c" 3 Demo.cold
  = (Ok None, noted (repeat (EvHttpPostDetails "42" "c") 3) Demo.cold).
Proof.
  apply (fetch_client_malformed_replies DemoMore.garbled "42" "c" 3 Demo.cold).
  intros i Hi. exists "{}", (JObj []).
  split; [reflexivity|]. split; [reflexivity | intros d; discriminate].
Defined.

(** ** The fetch orchestrator *)

(** X10. A forced login that fails leaves the cached cookie alone: with
    [forceLogin] the cache is neither read nor cleared, so when the login
    throws, [fetchActivityData] returns [null] in the world the login left,
    and both copies of the cookie are what they were. *)
Theorem failed_forced_login_keeps_cached_cookie
    (env : Env) (activityId userName userPwd templateFileName : string)
    (w w' : World) (e : JsError) :
  getCompleteCookies env userName userPwd templateFileName w = (Throw e, w') ->
  fetchActivityData env activityId userName userPwd templateFileName true w
  = (Ok JNull, w') /\
  same_cookies w w'.
Proof.
  intros Hlogin. split.
  - unfold fetchActivityData. cbn [andb negb Js.truthy_str].
    rewrite (bind_ok _ _ w w None) by reflexivity. cbn [andb negb Js.truthy_str].
    rewrite (bind_ok _ _ w w None) by reflexivity. cbn [andb negb Js.truthy_str].
    rewrite (bind_ok _ _ w w None) by reflexivity. cbn [andb negb Js.truthy_str].
    rewrite (bind_ok _ _ w w' Return_null); [reflexivity|].
    erewrite try_throw; [reflexivity|].
    erewrite bind_throw; [reflexivity | exact Hlogin].
  - eapply (steps_run same_cookies); [|exact Hlogin].
    apply (steps_getCompleteCookies env _ _ same_cookies_closed). intros; exact I.
Qed.

Lemma failed_forced_login_keeps_cached_cookie_witness :
  fetchActivityData DemoMore.no_login "42" "u" "p" "login_template.txt" true Demo.warm
  = (Ok JNull, noted [EvHttpGetLogin] Demo.warm) /\
  same_cookies Demo.warm (noted [EvHttpGetLogin] Demo.warm).
Proof.
  apply (failed_forced_login_keeps_cached_cookie DemoMore.no_login "42" "u" "p"
           "login_template.txt" Demo.warm (noted [EvHttpGetLogin] Demo.warm)
           (AxiosError (Some 503))).
  vm_compute. reflexivity.
Defined.

(** X11. With a cookie in memory that passes the probe at its first
    request, a fetch is two requests, the probe and the details request with
    that cookie, and no login; it returns the parsed inner payload of the
    response (when that is not flagged [isError]) and leaves the cookie
    cache as it was. *)
Theorem fetch_with_valid_cached_cookie
    (env : Env) (activityId userName userPwd templateFileName : string)
    (w : World) (c data : string) (inner : json) :
  inMemoryCookie w = Some c ->
  Js.nonempty c = true ->
  accepted env (clock w) = true ->
  http_post_details env (clock w + 1) = Gives data ->
  Js.nonempty data = true ->
  well_formed env data inner ->
  truthy_opt (prop "isError" inner) = false ->
  fetchActivityData env activityId userName userPwd templateFileName false w
  = (Ok inner, noted [probe c; EvHttpPostDetails activityId c] w).
Proof.
  intros Hmem Hne Hprobe Hreply Hdata Hwf Herr. unfold fetchActivityData.
  rewrite (bind_ok _ _ w w (Some c)) by (apply loadCachedCookie_memory; assumption).
  cbn [andb]. rewrite (bind_ok _ _ w w (Some c)) by reflexivity.
  change (Js.truthy_str (Some c)) with (Js.nonempty c). rewrite Hne.
  rewrite (bind_ok _ _ w (noted [probe c] w) (Some c)).
  2:{ erewrite bind_ok; cycle 1.
      { change (default "" (Some c)) with c.
        unfold testCookieValidity. rewrite Hne. cbn [negb].
        change (testCookieValidity_loop env MAX_RETRIES 0 c)
          with (testCookieValidity_loop env 3 0 c).
        rewrite testCookieValidity_loop_step by (unfold MAX_RETRIES; lia).
        rewrite Hprobe. reflexivity. }
      reflexivity. }
  change (Js.truthy_str (Some c)) with (Js.nonempty c). rewrite Hne. cbn [negb].
  rewrite (bind_ok _ _ _ (noted [probe c] w) (Continue_with c)) by reflexivity.
  cbv beta iota. rewrite Hne. cbn [negb].
  apply try_ok. unfold fetch_and_parse, getActivityDetailsRaw.
  cbn [getActivityDetailsRaw_loop Nat.leb].
  erewrite bind_ok; cycle 1.
  { erewrite bind_ok; cycle 1.
    { apply attempt_well_formed; [|exact Hwf]. exact Hreply. }
    rewrite Herr. reflexivity. }
  rewrite noted_app.
  change (Js.truthy_str (Some data)) with (Js.nonempty data). rewrite Hdata.
  destruct Hwf as (outer & d & Ho & Hd & Hi & Hnn).
  change (default "" (Some data)) with data. unfold parse_details.
  rewrite (bind_ok _ _ _ _ _ (JSON_parse_str_run env _ _ _ Ho)).
  erewrite bind_ok; cycle 1.
  { unfold read_prop. destruct outer; try discriminate Hd. reflexivity. }
  rewrite Hd. unfold JSON_parse_any. cbn [ToString_opt ToString].
  apply JSON_parse_str_run, Hi.
Qed.

Lemma fetch_with_valid_cached_cookie_witness :
  fetchActivityData DemoMore.serving "42" "u" "p" "login_template.txt" false Demo.warm
  = (Ok DemoMore.inner, noted [probe "old"; EvHttpPostDetails "42" "old"] Demo.warm).
Proof.
  refine (fetch_with_valid_cached_cookie DemoMore.serving "42" "u" "p"
            "login_template.txt" Demo.warm "old" DemoMore.payload DemoMore.inner
            _ _ _ _ _ _ _); try reflexivity.
  exists DemoMore.outer, (Demo.JSON_text DemoMore.inner).
  split; [vm_compute; reflexivity|]. split; [reflexivity|].
  split; [vm_compute; reflexivity | discriminate].
Defined.

(** ** The requests of one fetch *)

Section Budget.
Context (k : Weights).

Lemma total_app (evs evs' : list Effect) :
  total k (evs ++ evs') = (total k evs + total k evs')%nat.
Proof. unfold total. rewrite List.map_app, list_sum_app. reflexivity. Qed.

Lemma within_refl (w : World) : within k 0 w w.
Proof. exists []. split; [symmetry; apply app_nil_r | reflexivity]. Qed.

Lemma within_trans (n n' : nat) (a b c : World) :
  within k n a b -> within k n' b c -> within k (n + n') a c.
Proof.
  intros (e1 & H1 & L1) (e2 & H2 & L2). exists (e1 ++ e2)%list. split.
  - rewrite H2, H1, app_assoc. reflexivity.
  - rewrite total_app. lia.
Qed.

Lemma within_mono (n n' : nat) (a b : World) :
  (n <= n')%nat -> within k n a b -> within k n' a b.
Proof. intros Hle (e & H & L). exists e. split; [exact H | lia]. Qed.

Context {A B : Type}.

Lemma spends_ret (a : A) : spends k 0 (ret a).
Proof. intros w. apply within_refl. Qed.

Lemma spends_throw (e : JsError) : spends k 0 (@throw A e).
Proof. intros w. apply within_refl. Qed.

Lemma spends_mono (n n' : nat) (m : M A) :
  (n <= n')%nat -> spends k n m -> spends k n' m.
Proof. intros Hle H w. exact (within_mono _ _ _ _ Hle (H w)). Qed.

Lemma spends_bind (n n' : nat) (m : M A) (f : A -> M B) :
  spends k n m -> (forall a, spends k n' (f a)) -> spends k (n + n') (bind m f).
Proof.
  intros Hm Hf w. specialize (Hm w). unfold after, bind in *.
  destruct (m w) as [[a|e] w1]; simpl in *.
  - exact (within_trans _ _ _ _ _ Hm (Hf a w1)).
  - apply (within_mono n); [lia | exact Hm].
Qed.

Lemma spends_try (n n' : nat) (m : M A) (h : JsError -> M A) :
  spends k n m -> (forall e, spends k n' (h e)) -> spends k (n + n') (try_catch m h).
Proof.
  intros Hm Hh w. specialize (Hm w). unfold after, try_catch in *.
  destruct (m w) as [[a|e] w1]; simpl in *.
  - apply (within_mono n); [lia | exact Hm].
  - exact (within_trans _ _ _ _ _ Hm (Hh e w1)).
Qed.

End Budget.

Section BudgetPrimitives.
Context (k : Weights).

Lemma spends_get_world : spends k 0 get_world.
Proof. intros w. apply within_refl. Qed.

Lemma spends_tick : spends k 0 tick.
Proof. intros w. exists []. split; [symmetry; apply app_nil_r | reflexivity]. Qed.

Lemma spends_set_inMemoryCookie (c : option string) : spends k 0 (set_inMemoryCookie c).
Proof. intros w. exists []. split; [symmetry; apply app_nil_r | reflexivity]. Qed.

Lemma spends_set_cookieFile (c : option string) : spends k 0 (set_cookieFile c).
Proof. intros w. exists []. split; [symmetry; apply app_nil_r | reflexivity]. Qed.

Lemma spends_interact (ev : Effect) : spends k (cost k ev) (interact ev).
Proof.
  intros w. unfold after. rewrite interact_run. exists [ev]. split; [reflexivity|].
  unfold total. simpl. lia.
Qed.

End BudgetPrimitives.

Ltac spends_leaf :=
  first [ apply spends_ret | apply spends_throw | apply spends_get_world
        | apply spends_tick | apply spends_set_inMemoryCookie
        | apply spends_set_cookieFile ].

Section BudgetSession.
Context (k : Weights) (env : Env).

Let g := per_login_get k.
Let p := per_login_post k.
Let d := per_details_post k.
Let s := per_sleep k.

Lemma spends_readFile_cookie : spends k 0 (readFile_cookie env).
Proof.
  unfold readFile_cookie. apply (spends_bind k 0 0); [apply (spends_interact k EvReadFile)|].
  intros t. destruct (fs_reply env t); [spends_leaf|].
  apply (spends_bind k 0 0); [spends_leaf|]. intros w. destruct (cookieFile w); spends_leaf.
Qed.

Lemma spends_loadCachedCookie : spends k 0 (loadCachedCookie env).
Proof.
  unfold loadCachedCookie. apply (spends_bind k 0 0); [spends_leaf|]. intros w.
  destruct (Js.truthy_str (inMemoryCookie w)); [spends_leaf|].
  apply (spends_try k 0 0); [|intros; spends_leaf].
  apply (spends_bind k 0 0); [apply spends_readFile_cookie|]. intros c.
  destruct (Js.nonempty c); [|spends_leaf].
  apply (spends_bind k 0 0); intros; spends_leaf.
Qed.

Lemma spends_saveCookieToCache (c : string) : spends k 0 (saveCookieToCache env c).
Proof.
  unfold saveCookieToCache. destruct (negb (Js.nonempty c)); [spends_leaf|].
  apply (spends_bind k 0 0); [spends_leaf|]. intros _.
  apply (spends_try k 0 0); [|intros; spends_leaf].
  unfold writeFile_cookie.
  apply (spends_bind k 0 0); [apply (spends_interact k (EvWriteFile c))|].
  intros t. destruct (fs_reply env t); spends_leaf.
Qed.

Lemma spends_clearCookieCache : spends k 0 (clearCookieCache env).
Proof.
  unfold clearCookieCache. apply (spends_bind k 0 0); [spends_leaf|]. intros _.
  apply (spends_try k 0 0); [|intros; spends_leaf].
  unfold unlink_cookie.
  apply (spends_bind k 0 0); [apply (spends_interact k EvUnlink)|].
  intros t. destruct (fs_reply env t); [spends_leaf|].
  apply (spends_bind k 0 0); [spends_leaf|]. intros w. destruct (cookieFile w); spends_leaf.
Qed.

Lemma spends_axios_post_details (activityId cookie : string) :
  spends k d (axios_post_details env activityId cookie).
Proof.
  unfold axios_post_details.
  apply (spends_mono k (d + 0)); [lia|].
  apply spends_bind; [apply (spends_interact k (EvHttpPostDetails activityId cookie))|].
  intros t. destruct (http_post_details env t); spends_leaf.
Qed.

Lemma spends_testCookieValidity_loop (fuel attempt : nat) (c : string) :
  spends k (fuel * d) (testCookieValidity_loop env fuel attempt c).
Proof.
  revert attempt. induction fuel as [|fuel IH]; intros attempt;
    cbn [testCookieValidity_loop]; [spends_leaf|].
  destruct (MAX_RETRIES <=? attempt)%nat; [eapply spends_mono; [|spends_leaf]; lia|].
  apply (spends_mono k (d + fuel * d)); [lia|].
  apply (spends_bind k d (fuel * d)).
  - apply (spends_mono k (d + 0)); [lia|]. apply spends_try.
    + apply (spends_mono k (d + 0)); [lia|].
      apply spends_bind; [apply spends_axios_post_details | intros; spends_leaf].
    + intros e. destruct (MAX_RETRIES <=? S attempt)%nat; spends_leaf.
  - intros [b|]; [eapply spends_mono; [|spends_leaf]; lia | apply IH].
Qed.

Lemma spends_testCookieValidity (c : string) :
  spends k (3 * d) (testCookieValidity env c).
Proof.
  unfold testCookieValidity. destruct (negb (Js.nonempty c)).
  - eapply spends_mono; [|spends_leaf]. lia.
  - apply spends_testCookieValidity_loop.
Qed.

Lemma spends_getSessionId : spends k g (getSessionId env).
Proof.
  unfold getSessionId. apply (spends_mono k (g + 0)); [lia|].
  apply spends_try; [|intros; spends_leaf].
  apply (spends_mono k (g + 0)); [lia|]. apply spends_bind.
  - unfold axios_get_login. apply (spends_mono k (g + 0)); [lia|].
    apply spends_bind; [apply (spends_interact k EvHttpGetLogin)|].
    intros t. destruct (http_get_login env t); spends_leaf.
  - intros [[|c hdr]|]; try spends_leaf.
    destruct (List.find _ _) as [c'|]; [|spends_leaf].
    destruct (Js.nonempty c'); spends_leaf.
Qed.

Lemma spends_getMSAUTH (sessionId userName userPwd templateFilePath : string) :
  spends k p (getMSAUTH env sessionId userName userPwd templateFilePath).
Proof.
  unfold getMSAUTH. apply (spends_mono k (p + 0)); [lia|].
  apply spends_try; [|intros; spends_leaf].
  apply (spends_mono k (0 + p)); [lia|]. apply spends_bind.
  - unfold readFile_template. apply (spends_bind k 0 0).
    + apply (spends_interact k EvReadFile).
    + intros t. destruct (template_file env t); spends_leaf.
  - intros _. apply (spends_mono k (p + 0)); [lia|]. apply spends_bind.
    + unfold axios_post_login. apply (spends_mono k (p + 0)); [lia|].
      apply spends_bind; [apply (spends_interact k (EvHttpPostLogin sessionId))|].
      intros t. destruct (http_post_login env t); spends_leaf.
    + intros hdr. destruct (selectFormsAuth hdr) as [v|]; [|spends_leaf].
      destruct (Js.nonempty v); spends_leaf.
Qed.

Lemma spends_getCompleteCookies (userName userPwd templateFilePath : string) :
  spends k (g + p) (getCompleteCookies env userName userPwd templateFilePath).
Proof.
  unfold getCompleteCookies. apply spends_bind; [apply spends_getSessionId|].
  intros [sid|]; [|eapply spends_mono; [|spends_leaf]; lia].
  apply (spends_mono k (p + 0)); [lia|].
  apply spends_bind; [apply spends_getMSAUTH|].
  intros [auth|]; spends_leaf.
Qed.

Lemma spends_JSON_parse_str (text : string) : spends k 0 (JSON_parse_str env text).
Proof. unfold JSON_parse_str. destruct (JSON_parse env text); spends_leaf. Qed.

Lemma spends_read_prop (key : string) (x : json) : spends k 0 (read_prop key x).
Proof. unfold read_prop. destruct x; spends_leaf. Qed.

Lemma spends_sleep (ms : Z) : spends k s (sleep ms).
Proof.
  unfold sleep. apply (spends_mono k (s + 0)); [lia|].
  apply spends_bind; [apply (spends_interact k (EvSleep ms)) | intros; spends_leaf].
Qed.

Lemma spends_getActivityDetailsRaw_attempt (activityId cookies : string)
    (maxRetries attempt : nat) :
  spends k (d + (if (attempt =? maxRetries - 1)%nat then 0 else s))
    (getActivityDetailsRaw_attempt env activityId cookies maxRetries attempt).
Proof.
  unfold getActivityDetailsRaw_attempt. apply spends_try.
  - apply (spends_mono k (d + 0)); [lia|].
    apply spends_bind; [apply spends_axios_post_details|]. intros data.
    apply (spends_bind k 0 0); [apply spends_JSON_parse_str|]. intros outer.
    destruct (if truthy outer then prop "d" outer else None) as [[| | |text| |]|];
      try spends_leaf.
    apply (spends_bind k 0 0); [apply spends_JSON_parse_str|]. intros inner.
    apply (spends_bind k 0 0); [apply spends_read_prop|]. intros isError.
    destruct (truthy_opt isError); spends_leaf.
  - intros e.
    assert (Hretry : spends k (if (attempt =? maxRetries - 1)%nat then 0%nat else s)
               (if (attempt =? maxRetries - 1)%nat then throw e
                else sleep (1000 * (Z.of_nat attempt + 1)) ;;; ret (@Continue (option string)))).
    { destruct (attempt =? maxRetries - 1)%nat; [spends_leaf|].
      apply (spends_mono k (s + 0)); [lia|].
      apply spends_bind; [apply spends_sleep | intros; spends_leaf]. }
    destruct (error_response e) as [status|]; [|exact Hretry].
    destruct ((400 <=? status) && (status <? 500)); [|exact Hretry].
    eapply spends_mono; [|spends_leaf]. lia.
Qed.

Lemma spends_getActivityDetailsRaw_loop (fuel : nat) (activityId cookies : string)
    (maxRetries attempt : nat) :
  spends k ((maxRetries - attempt) * d + (maxRetries - 1 - attempt) * s)
    (getActivityDetailsRaw_loop env fuel activityId cookies maxRetries attempt).
Proof.
  revert attempt. induction fuel as [|fuel IH]; intros attempt;
    cbn [getActivityDetailsRaw_loop].
  - eapply spends_mono; [|spends_leaf]. apply Nat.le_0_l.
  - destruct (Nat.leb_spec maxRetries attempt) as [Hle|Hlt].
    + eapply spends_mono; [|spends_leaf]. apply Nat.le_0_l.
    + eapply spends_mono; cycle 1.
      * apply spends_bind; [apply spends_getActivityDetailsRaw_attempt|].
        intros [r|]; [eapply spends_mono; [|spends_leaf]; apply Nat.le_0_l | apply IH].
      * destruct (Nat.eqb_spec attempt (maxRetries - 1)) as [Heq|Hne].
        -- replace (maxRetries - attempt)%nat with 1%nat by lia.
           replace (maxRetries - S attempt)%nat with 0%nat by lia.
           replace (maxRetries - 1 - S attempt)%nat with 0%nat by lia.
           cbn [Nat.mul]. generalize ((maxRetries - 1 - attempt) * s)%nat. intros; lia.
        -- replace (maxRetries - attempt)%nat with (S (maxRetries - S attempt)) by lia.
           replace (maxRetries - 1 - attempt)%nat with (S (maxRetries - 1 - S attempt)) by lia.
           cbn [Nat.mul].
           generalize ((maxRetries - S attempt) * d)%nat.
           generalize ((maxRetries - 1 - S attempt) * s)%nat. intros; lia.
Qed.

Lemma spends_fetch_and_parse (activityId cookie : string) :
  spends k (3 * d + 2 * s) (fetch_and_parse env activityId cookie).
Proof.
  unfold fetch_and_parse, getActivityDetailsRaw.
  apply (spends_mono k ((3 - 0) * d + (3 - 1 - 0) * s + 0)); [simpl; lia|].
  apply spends_bind; [apply spends_getActivityDetailsRaw_loop|].
  intros raw. destruct (Js.truthy_str raw); [|spends_leaf].
  unfold parse_details.
  apply (spends_bind k 0 0); [apply spends_JSON_parse_str|]. intros outer.
  apply (spends_bind k 0 0); [apply spends_read_prop|]. intros dd.
  apply spends_JSON_parse_str.
Qed.

Lemma spends_login_and_save (userName userPwd templateFileName : string) {A}
    (f : string -> M A) (n : nat) :
  (forall fresh, spends k n (f fresh)) ->
  spends k (g + p + n)
    (fresh <- getCompleteCookies env userName userPwd templateFileName ;;
     saveCookieToCache env fresh ;;; f fresh).
Proof.
  intros Hf. apply spends_bind; [apply spends_getCompleteCookies|]. intros fresh.
  apply (spends_mono k (0 + n)); [lia|].
  apply spends_bind; [apply spends_saveCookieToCache | intros _; apply Hf].
Qed.

Lemma spends_fetchActivityData (activityId userName userPwd templateFileName : string)
    (forceLogin : bool) :
  spends k (2 * g + 2 * p + 9 * d + 4 * s)
    (fetchActivityData env activityId userName userPwd templateFileName forceLogin).
Proof.
  unfold fetchActivityData.
  apply (spends_mono k (0 + (0 + (3 * d + ((g + p) + ((3 * d + 2 * s) + (g + p + (3 * d + 2 * s)))))))); [lia|].
  apply spends_bind; [destruct forceLogin; [spends_leaf | apply spends_loadCachedCookie]|].
  intros c0. apply spends_bind.
  { destruct (forceLogin && Js.truthy_str c0); [|spends_leaf].
    apply (spends_bind k 0 0); [apply spends_clearCookieCache | intros; spends_leaf]. }
  intros c1. apply spends_bind.
  { destruct (Js.truthy_str c1); [|eapply spends_mono; [|spends_leaf]; lia].
    apply (spends_mono k (3 * d + 0)); [lia|].
    apply spends_bind; [apply spends_testCookieValidity|]. intros valid.
    destruct (negb valid); [|spends_leaf].
    apply (spends_bind k 0 0); [apply spends_clearCookieCache | intros; spends_leaf]. }
  intros c2. apply spends_bind.
  { destruct (negb (Js.truthy_str c2)); [|eapply spends_mono; [|spends_leaf]; lia].
    apply (spends_mono k (g + p + 0 + 0)); [lia|].
    apply spends_try; [|intros; spends_leaf].
    apply spends_login_and_save. intros; spends_leaf. }
  intros [|c3]; [eapply spends_mono; [|spends_leaf]; lia|].
  destruct (negb (Js.nonempty c3)); [eapply spends_mono; [|spends_leaf]; lia|].
  apply spends_try; [apply spends_fetch_and_parse|].
  intros e.
  assert (H0 : spends k (g + p + (3 * d + 2 * s)) (ret JNull))
    by (eapply spends_mono; [|spends_leaf]; lia).
  destruct e; try exact H0.
  apply (spends_mono k (0 + (g + p + (3 * d + 2 * s) + 0))); [lia|].
  apply spends_bind; [apply spends_clearCookieCache|]. intros _.
  apply spends_try; [|intros; spends_leaf].
  apply spends_login_and_save. intros fresh. apply spends_fetch_and_parse.
Qed.

End BudgetSession.

(** X12. One call of [fetchActivityData] makes at most two GETs and two
    POSTs of the login page and at most nine details requests (three of the
    probe, three of the fetch, three of the retry after a re-login), and
    pauses at most four times, whatever the surroundings answer. *)
Theorem fetchActivityData_request_budget
    (env : Env) (activityId userName userPwd templateFileName : string)
    (forceLogin : bool) (w : World) :
  let evs :=
    new_effects w
      (after (fetchActivityData env activityId userName userPwd templateFileName
                forceLogin) w) in
  (login_gets evs <= 2 /\ login_posts evs <= 2 /\
   details_posts evs <= 9 /\ pauses evs <= 4)%nat.
Proof.
  assert (H : forall k,
    (total k (new_effects w
       (after (fetchActivityData env activityId userName userPwd templateFileName
                 forceLogin) w))
     <= 2 * per_login_get k + 2 * per_login_post k
        + 9 * per_details_post k + 4 * per_sleep k)%nat).
  { intros k.
    destruct (spends_fetchActivityData k env activityId userName userPwd
                templateFileName forceLogin w) as (evs & Htrace & Hle).
    unfold new_effects. rewrite Htrace, drop_app_length. exact Hle. }
  cbv zeta. unfold login_gets, login_posts, details_posts, pauses.
  split; [|split; [|split]].
  - exact (H (mkWeights 1 0 0 0)).
  - exact (H (mkWeights 0 1 0 0)).
  - exact (H (mkWeights 0 0 1 0)).
  - exact (H (mkWeights 0 0 0 1)).
Qed.

(** ** services/redis-service.ts *)

Section RedisRuns.
Context (env : Env) (cfg : Config).

Lemma redis_set_run (key value : string) (w : World) :
  redis_set env key value w
  = if redis_fails env (clock w)
    then (Throw (PlainError "redis"), noted [EvRedisSet key value] w)
    else (Ok tt, stored key value w).
Proof.
  unfold redis_set. rewrite (bind_ok _ _ _ _ _ (interact_run _ _)).
  destruct (redis_fails env (clock w)); [reflexivity|].
  unfold bind, get_world, set_redis, ret, noted, stored. simpl.
  rewrite Nat.add_1_r. reflexivity.
Qed.

Lemma set_stringified_run (key : string) (data : json) (w : World) :
  redisClient_configured cfg = true ->
  set_stringified env cfg key data w
  = (Ok tt,
     if redis_fails env (clock w)
     then noted [EvRedisSet key (JSON_stringify env data)] w
     else stored key (JSON_stringify env data) w).
Proof.
  intros Hc. unfold set_stringified. rewrite Hc. cbn [negb].
  unfold try_catch. rewrite redis_set_run.
  destruct (redis_fails env (clock w)); reflexivity.
Qed.

Lemma get_parsed_stored (key text : string) (x : json) (w : World) :
  redisClient_configured cfg = true ->
  redis_fails env (clock w) = false ->
  redis w !! key = Some text ->
  Js.nonempty text = true ->
  JSON_parse env text = Some x ->
  get_parsed env cfg key w = (Ok x, noted [EvRedisGet key] w).
Proof.
  intros Hc Hf Hk Hne Hp. unfold get_parsed. rewrite Hc. cbn [negb].
  unfold try_catch, bind. rewrite redis_get_run, Hf, Hk. simpl. rewrite Hne.
  unfold JSON_parse_str. rewrite Hp. reflexivity.
Qed.

End RedisRuns.

Lemma staff_key_is_no_activity_key (activityId : string) :
  STAFF_KEY <> ACTIVITY_KEY_PREFIX +:+ activityId.
Proof. unfold STAFF_KEY, ACTIVITY_KEY_PREFIX. rewrite append_cons. discriminate. Qed.

(** X13. What [setActivityData] stored is what [getActivityData] returns
    next, when the client is configured, Redis accepts both commands and the
    parser reads back the serialised text; the write touches no other
    activity's entry and not the staff entry. *)
Theorem cache_round_trip (env : Env) (cfg : Config) (activityId : string) (data : json)
    (w : World) :
  redisClient_configured cfg = true ->
  redis_fails env (clock w) = false ->
  redis_fails env (S (clock w)) = false ->
  Js.nonempty (JSON_stringify env data) = true ->
  JSON_parse env (JSON_stringify env data) = Some data ->
  let w1 := after (setActivityData env cfg activityId data) w in
  result (getActivityData env cfg activityId) w1 = Ok data /\
  (forall other, other <> activityId ->
     redis w1 !! (ACTIVITY_KEY_PREFIX +:+ other) = redis w !! (ACTIVITY_KEY_PREFIX +:+ other)) /\
  redis w1 !! STAFF_KEY = redis w !! STAFF_KEY.
Proof.
  intros Hc Hf Hf' Hne Hp. unfold after, result, setActivityData, getActivityData.
  rewrite (set_stringified_run env cfg _ _ _ Hc), Hf. cbn [fst snd].
  split; [|split].
  - erewrite get_parsed_stored; [reflexivity | exact Hc | exact Hf' | | exact Hne | exact Hp].
    apply lookup_insert_eq.
  - intros other Hne'. unfold stored. cbn [redis]. apply lookup_insert_ne.
    intros Heq. apply Hne'. symmetry. exact (String.app_inj _ _ _ Heq).
  - unfold stored. cbn [redis]. apply lookup_insert_ne.
    intros Heq. exact (staff_key_is_no_activity_key activityId (eq_sym Heq)).
Qed.

Lemma cache_round_trip_witness :
  let w1 := after (setActivityData DemoStore.env DemoStore.cfg "9" DemoStore.club)
              DemoStore.world in
  result (getActivityData DemoStore.env DemoStore.cfg "9") w1 = Ok DemoStore.club /\
  (forall other, other <> "9" ->
     redis w1 !! (ACTIVITY_KEY_PREFIX +:+ other)
     = redis DemoStore.world !! (ACTIVITY_KEY_PREFIX +:+ other)) /\
  redis w1 !! STAFF_KEY = redis DemoStore.world !! STAFF_KEY.
Proof.
  apply (cache_round_trip DemoStore.env DemoStore.cfg "9" DemoStore.club DemoStore.world);
    vm_compute; reflexivity.
Defined.

Lemma scan_loop_pages (env : Env) (pages : list (string * option (list string)))
    (rest : list (Reply unit (string * option (list string)))) (acc : list string) :
  Forall (fun page => fst page <> "0") pages ->
  scan_loop ((Gives <$> pages) ++ rest) acc = scan_loop rest (acc ++ keys_of pages).
Proof.
  revert acc. induction pages as [|[cursor found] pages IH]; intros acc Hall.
  - unfold keys_of. simpl. rewrite app_nil_r. reflexivity.
  - apply Forall_cons in Hall as [Hc Hall]. simpl in Hc.
    cbn [fmap list_fmap app scan_loop].
    destruct (String.eqb_spec cursor "0") as [->|_]; [contradiction|].
    rewrite (IH _ Hall). unfold keys_of. simpl. rewrite app_assoc. reflexivity.
Qed.

(** X14. [getAllActivityKeys] returns the keys of every page of the scan,
    in order, once a reply comes with cursor 0; when the scan is rejected or
    breaks off before that, it returns the empty list, also when earlier
    pages had keys. *)
Theorem scan_returns_all_pages_or_nothing (env : Env) (cfg : Config) (w : World)
    (pages : list (string * option (list string)))
    (rest : list (Reply unit (string * option (list string)))) :
  redisClient_configured cfg = true ->
  Forall (fun page => fst page <> "0") pages ->
  redis_scan env (clock w) = ((Gives <$> pages) ++ rest)%list ->
  (forall found tail,
     rest = Gives ("0", found) :: tail ->
     result (getAllActivityKeys env cfg) w = Ok (keys_of pages ++ default [] found)%list) /\
  (forall tail,
     rest = [] \/ rest = Fails tt :: tail ->
     result (getAllActivityKeys env cfg) w = Ok []).
Proof.
  intros Hc Hall Hscan.
  assert (Hrun : getAllActivityKeys env cfg w
                 = try_catch (scan_loop rest ([] ++ keys_of pages)) (fun _ => ret [])
                     (noted [EvRedisScan] w)).
  { unfold getAllActivityKeys. rewrite Hc. cbn [negb].
    unfold try_catch. rewrite (bind_ok _ _ _ _ _ (interact_run _ _)), Hscan.
    rewrite (scan_loop_pages env _ _ _ Hall). reflexivity. }
  unfold result. rewrite Hrun. split.
  - intros found tail ->. reflexivity.
  - intros tail [-> | ->]; reflexivity.
Qed.

Lemma scan_returns_all_pages_or_nothing_witness :
  result (getAllActivityKeys (DemoS3.scanning DemoS3.scanned) DemoStore.cfg) Demo.cold
  = Ok ["activity:1"; "activity:2"; "activity:3"] /\
  result (getAllActivityKeys (DemoS3.scanning DemoS3.broken) DemoStore.cfg) Demo.cold
  = Ok [].
Proof.
  split.
  - refine (proj1 (scan_returns_all_pages_or_nothing (DemoS3.scanning DemoS3.scanned)
                     DemoStore.cfg Demo.cold [("17", Some ["activity:1"; "activity:2"])]
                     [Gives ("0", Some ["activity:3"])] _ _ _) _ [] eq_refl).
    + reflexivity.
    + repeat constructor. discriminate.
    + reflexivity.
  - refine (proj2 (scan_returns_all_pages_or_nothing (DemoS3.scanning DemoS3.broken)
                     DemoStore.cfg Demo.cold [("17", Some ["activity:1"; "activity:2"])]
                     [Fails tt] _ _ _) [] (or_intror eq_refl)).
    + reflexivity.
    + repeat constructor. discriminate.
    + reflexivity.
Defined.

(** ** services/s3-service.ts *)

Section S3Runs.
Context (env : Env) (cfg : Config).

Lemma page_keys_object_keys (items : list (option string)) :
  Forall object_key (page_keys items).
Proof.
  unfold page_keys. induction items as [|[k|] items IH]; simpl; [constructor| |exact IH].
  destruct (Js.nonempty k && negb (Js.endsWith_char k "/")) eqn:E; simpl; [|exact IH].
  constructor; [|exact IH].
  apply andb_prop in E as [E1 E2]. split; [exact E1 | apply negb_true_iff, E2].
Qed.

Lemma listS3Objects_loop_object_keys (pages : list (Reply unit S3Page)) :
  forall (acc keys : list string) (w w' : World),
    Forall object_key acc ->
    listS3Objects_loop pages acc w = (Ok keys, w') ->
    Forall object_key keys.
Proof.
  induction pages as [|[[]|page] pages IH]; intros acc keys w w' Hacc; simpl;
    try discriminate.
  assert (Hacc' : Forall object_key
                    match contents page with
                    | Some items => (acc ++ page_keys items)%list
                    | None => acc
                    end).
  { destruct (contents page); [|exact Hacc].
    apply Forall_app. split; [exact Hacc | apply page_keys_object_keys]. }
  destruct (contents page) as [[|item items]|].
  - intros [= <- _]. exact Hacc'.
  - destruct (default false (isTruncated page)); [apply IH; exact Hacc'|].
    intros [= <- _]. exact Hacc'.
  - destruct (default false (isTruncated page)); [apply IH; exact Hacc'|].
    intros [= <- _]. exact Hacc'.
Qed.

Lemma mapM_s3_delete_results (keys : list string) (w : World) :
  mapM (s3_delete env) keys w
  = (Ok (List.map (fun i => negb (s3_delete_fails env (clock w + i))) (seq 0 (length keys))),
     noted (List.map EvS3Delete keys) w).
Proof.
  revert w. induction keys as [|k keys IH]; intros w.
  - simpl. rewrite noted_nil. reflexivity.
  - cbn [mapM]. erewrite bind_ok; cycle 1.
    { unfold s3_delete. rewrite (bind_ok _ _ _ _ _ (interact_run _ _)). reflexivity. }
    rewrite (bind_ok _ _ _ _ _ (IH _)), noted_app. cbn [length seq List.map].
    rewrite Nat.add_0_r, <- seq_shift, List.map_map. unfold ret. f_equal. f_equal. f_equal.
    apply List.map_ext. intros i. simpl. f_equal. f_equal. lia.
Qed.

Lemma rejected_from (b : nat) :
  forall a t,
    length (List.filter (fun i => s3_delete_fails env (t + i)) (seq a b))
    = rejected_deletes env (t + a) b.
Proof.
  unfold rejected_deletes. induction b as [|b IH]; intros a t; [reflexivity|].
  cbn [seq List.filter]. rewrite Nat.add_0_r.
  assert (Hrest : length (List.filter (fun i => s3_delete_fails env (t + i)) (seq (S a) b))
                  = length (List.filter (fun i => s3_delete_fails env (t + a + i)) (seq 1 b))).
  { rewrite (IH (S a) t), (IH 1%nat (t + a)%nat).
    replace (t + a + 1)%nat with (t + S a)%nat by lia. reflexivity. }
  destruct (s3_delete_fails env (t + a)); cbn [length]; rewrite Hrest; reflexivity.
Qed.

Lemma rejected_deletes_app (t a b : nat) :
  rejected_deletes env t (a + b)
  = (rejected_deletes env t a + rejected_deletes env (t + a) b)%nat.
Proof.
  unfold rejected_deletes at 1 2. rewrite seq_app, List.filter_app, length_app. f_equal.
  apply rejected_from.
Qed.

Lemma rejected_count (t n : nat) :
  length (List.filter negb
            (List.map (fun i => negb (s3_delete_fails env (t + i))) (seq 0 n)))
  = rejected_deletes env t n.
Proof.
  unfold rejected_deletes. induction (seq 0 n) as [|i l IH]; [reflexivity|].
  simpl. destruct (s3_delete_fails env (t + i)); simpl; rewrite IH; reflexivity.
Qed.

Lemma deleteS3Objects_loop_counts (fuel : nat) :
  forall (remaining : list string) (s e : nat) (w : World),
    (length remaining <= fuel)%nat ->
    exists s',
      deleteS3Objects_loop env fuel remaining s e w
      = (Ok (s', (e + rejected_deletes env (clock w) (length remaining))%nat),
         noted (List.map EvS3Delete remaining) w).
Proof.
  induction fuel as [|fuel IH]; intros remaining s e w Hlen.
  - destruct remaining; [|simpl in Hlen; lia].
    exists s. simpl. rewrite noted_nil, Nat.add_0_r. reflexivity.
  - destruct remaining as [|k rest].
    + exists s. simpl. rewrite noted_nil, Nat.add_0_r. reflexivity.
    + cbn [deleteS3Objects_loop].
      assert (Hfuel : (length (drop BATCH_SIZE (k :: rest)) <= fuel)%nat).
      { rewrite length_drop. simpl in *. unfold BATCH_SIZE. lia. }
      pose proof (take_drop BATCH_SIZE (k :: rest)) as Hsplit.
      remember (take BATCH_SIZE (k :: rest)) as batch eqn:Eb.
      remember (drop BATCH_SIZE (k :: rest)) as later eqn:El.
      rewrite <- Hsplit. clear Hsplit Eb El Hlen.
      rewrite (bind_ok _ _ _ _ _ (mapM_s3_delete_results _ _)).
      destruct (IH later
                  (s + length (List.filter id
                         (List.map (fun i => negb (s3_delete_fails env (clock w + i)))
                                   (seq 0 (length batch)))))%nat
                  (e + length (List.filter negb
                         (List.map (fun i => negb (s3_delete_fails env (clock w + i)))
                                   (seq 0 (length batch)))))%nat
                  (noted (List.map EvS3Delete batch) w) Hfuel) as [s' Hs'].
      exists s'. rewrite Hs', noted_app, <- List.map_app.
      rewrite rejected_count, <- Nat.add_assoc, length_app, rejected_deletes_app.
      cbn [clock noted]. rewrite length_map. reflexivity.
Qed.

Lemma no_rejected_deletes (t n : nat) :
  (rejected_deletes env t n =? 0)%nat
  = forallb (fun i => negb (s3_delete_fails env (t + i))) (seq 0 n).
Proof.
  unfold rejected_deletes. induction (seq 0 n) as [|i l IH]; [reflexivity|].
  simpl. destruct (s3_delete_fails env (t + i)); simpl; [reflexivity | exact IH].
Qed.

End S3Runs.

(** X15. [listS3Objects] never ends in an exception, and every key of a
    listing it returns is an object key: not empty and without a trailing
    slash, so the entries that stand for folders are left out on every
    page. *)
Theorem listing_returns_object_keys (env : Env) (cfg : Config) (pfx : string) (w : World) :
  (forall e w', listS3Objects env cfg pfx w <> (Throw e, w')) /\
  (forall keys w',
     listS3Objects env cfg pfx w = (Ok keys, w') -> Forall object_key keys).
Proof.
  unfold listS3Objects. destruct (s3Client_configured cfg); cbn [negb].
  2:{ split; [intros e w' H; discriminate H|].
      intros keys w' [= <- _]. constructor. }
  unfold try_catch. rewrite (bind_ok _ _ _ _ _ (interact_run _ _)).
  destruct (listS3Objects_loop (s3_list env (clock w)) [] (noted [EvS3List pfx] w))
    as [[listed|e] w1] eqn:E.
  - split; [intros e w' H; discriminate H|].
    intros keys w' [= <- _].
    exact (listS3Objects_loop_object_keys _ _ _ _ _ (Forall_nil_2 _) E).
  - split; [intros e' w' H; discriminate H|].
    intros keys w' [= <- _]. constructor.
Qed.

(** The two pages of [DemoStore]: the entry [files/] of the first page is
    left out. *)
Lemma listing_returns_object_keys_witness :
  Forall object_key ["files/activity-1-a.avif"; "files/activity-2-old.avif"].
Proof.
  apply (proj2 (listing_returns_object_keys DemoStore.env DemoStore.cfg "files/"
                  DemoStore.world)
           _ (noted [EvS3List "files/"] DemoStore.world)).
  vm_compute. reflexivity.
Defined.

(** X16. With a configured client [deleteS3Objects] issues one deletion
    for each key, in order and across the batches of 100, also after a
    rejected one; it returns [true] exactly when none was rejected. *)
Theorem deleteS3Objects_reports_failures (env : Env) (cfg : Config)
    (keys : list string) (w : World) :
  s3Client_configured cfg = true ->
  deleteS3Objects env cfg keys w
  = (Ok (forallb (fun i => negb (s3_delete_fails env (clock w + i))) (seq 0 (length keys))),
     noted (List.map EvS3Delete keys) w).
Proof.
  intros Hc. unfold deleteS3Objects. rewrite Hc. cbn [negb].
  destruct keys as [|k rest].
  - simpl. rewrite noted_nil. reflexivity.
  - destruct (deleteS3Objects_loop_counts env (length (k :: rest)) (k :: rest) 0 0 w
                ltac:(lia)) as [s' Hloop].
    erewrite try_ok; [reflexivity|].
    rewrite (bind_ok _ _ _ _ _ Hloop). cbn [snd Nat.add].
    rewrite no_rejected_deletes. reflexivity.
Qed.

Lemma deleteS3Objects_reports_failures_witness :
  deleteS3Objects DemoS3.env DemoStore.cfg ["files/a"; "files/b"; "files/c"] Demo.cold
  = (Ok false,
     noted [EvS3Delete "files/a"; EvS3Delete "files/b"; EvS3Delete "files/c"] Demo.cold).
Proof.
  apply (deleteS3Objects_reports_failures DemoS3.env DemoStore.cfg
           ["files/a"; "files/b"; "files/c"] Demo.cold).
  reflexivity.
Defined.

Lemma append_assoc (a b c : string) : (a +:+ b) +:+ c = a +:+ (b +:+ c).
Proof.
  induction a as [|x a IH]; [rewrite !append_nil; reflexivity|].
  rewrite !append_cons, IH. reflexivity.
Qed.

Lemma append_nil_r (a : string) : a +:+ "" = a.
Proof. induction a as [|x a IH]; [reflexivity|]. rewrite append_cons, IH. reflexivity. Qed.

Lemma rev_app_append (s acc : string) :
  String.rev_app s acc = String.rev_app s "" +:+ acc.
Proof.
  revert acc. induction s as [|c s IH]; intros acc; simpl.
  - rewrite append_nil. reflexivity.
  - rewrite (IH (String c acc)), (IH (String c "")), append_assoc.
    rewrite append_cons, append_nil. reflexivity.
Qed.

Lemma rev_app_rev_app (s acc acc' : string) :
  String.rev_app (String.rev_app s acc) acc' = String.rev_app acc (s +:+ acc').
Proof.
  revert acc acc'. induction s as [|c s IH]; intros acc acc'; simpl.
  - rewrite append_nil. reflexivity.
  - rewrite IH. simpl. rewrite append_cons. reflexivity.
Qed.

Lemma rev_involutive (s : string) : String.rev (String.rev s) = s.
Proof.
  unfold String.rev. rewrite rev_app_rev_app. simpl. apply append_nil_r.
Qed.

(** [s.replace(/\/$/, '')] removes at most one trailing slash. *)
Lemma strip_trailing_slash_cases (s : string) :
  Js.strip_trailing_slash s = s \/ s = Js.strip_trailing_slash s +:+ "/".
Proof.
  unfold Js.strip_trailing_slash.
  destruct (String.rev s) as [|c r] eqn:E; [left; reflexivity|].
  destruct (Ascii.eqb_spec c "/") as [->|Hne].
  - right. rewrite <- (rev_involutive s), E. unfold String.rev at 1. simpl.
    apply rev_app_append.
  - left. destruct c as [[] [] [] [] [] [] [] []]; try reflexivity. contradiction.
Qed.

Lemma startsWith_trans (a b c : string) :
  Js.startsWith a b = true -> Js.startsWith b c = true -> Js.startsWith a c = true.
Proof.
  intros Hab Hbc. rewrite (startsWith_split _ _ Hab), (startsWith_split _ _ Hbc) at 1.
  rewrite append_assoc. apply startsWith_app.
Qed.

Lemma constructS3Url_starts_with_endpoint (cfg : Config) (objectKey : string) :
  constructS3Url cfg objectKey <> "" ->
  Js.startsWith (constructS3Url cfg objectKey) (default "" (S3_ENDPOINT cfg)) = true.
Proof.
  unfold constructS3Url.
  destruct (negb (Js.truthy_str (S3_ENDPOINT cfg)) || negb (Js.truthy_str (BUCKET_NAME cfg)));
    [congruence|].
  intros _. cbv zeta.
  destruct (strip_trailing_slash_cases (default "" (S3_ENDPOINT cfg))) as [-> | Heq].
  - apply startsWith_app.
  - rewrite Heq at 2. rewrite <- append_assoc. apply startsWith_app.
Qed.

(** X17. A photo in use is never an orphan: when [S3_ENDPOINT] starts
    with [http], the public URL that [constructS3Url] builds for an object
    starts with the endpoint, so a record whose photo is that URL counts as
    a reference and the object is not among those selected for deletion. *)
Theorem cleanup_keeps_photos_in_use (cfg : Config) (records : list json)
    (listed : list string) (objectKey : string) (record : json) :
  Js.startsWith (default "" (S3_ENDPOINT cfg)) "http" = true ->
  constructS3Url cfg objectKey <> "" ->
  In record records ->
  prop "photo" record = Some (JStr (constructS3Url cfg objectKey)) ->
  photo_reference cfg record = Some (constructS3Url cfg objectKey) /\
  ~ In objectKey
      (select_orphans cfg (list_to_set (omap (photo_reference cfg) records)) listed).
Proof.
  intros Hhttp Hurl Hin Hphoto.
  pose proof (constructS3Url_starts_with_endpoint cfg objectKey Hurl) as Hstart.
  assert (Href : photo_reference cfg record = Some (constructS3Url cfg objectKey)).
  { unfold photo_reference.
    replace (truthy record) with true by (destruct record; try discriminate; reflexivity).
    rewrite Hphoto, Hstart, (startsWith_trans _ _ _ Hstart Hhttp).
    replace (Js.truthy_str (S3_ENDPOINT cfg)) with true; [reflexivity|].
    destruct (S3_ENDPOINT cfg) as [[|c e]|]; try reflexivity; discriminate Hhttp. }
  split; [exact Href|].
  unfold select_orphans. rewrite List.filter_In. intros [_ Hsel].
  apply andb_prop in Hsel as [_ Hnot].
  apply negb_true_iff, bool_decide_eq_false in Hnot. apply Hnot.
  apply elem_of_list_to_set, list_elem_of_omap.
  exists record. split; [apply list_elem_of_In, Hin | exact Href].
Qed.

Lemma cleanup_keeps_photos_in_use_witness :
  photo_reference DemoStore.cfg DemoStore.club
  = Some (constructS3Url DemoStore.cfg "files/activity-1-a.avif") /\
  ~ In "files/activity-1-a.avif"
      (select_orphans DemoStore.cfg
         (list_to_set (omap (photo_reference DemoStore.cfg)
                            [DemoStore.emptied; DemoStore.club]))
         ["files/activity-1-a.avif"; "files/activity-2-old.avif"]).
Proof.
  apply (cleanup_keeps_photos_in_use DemoStore.cfg [DemoStore.emptied; DemoStore.club]
           ["files/activity-1-a.avif"; "files/activity-2-old.avif"]
           "files/activity-1-a.avif" DemoStore.club).
  - reflexivity.
  - vm_compute. discriminate.
  - right. left. reflexivity.
  - vm_compute. reflexivity.
Defined.

Section Offload.
Context (env : Env) (cfg : Config).

Lemma uploadImageFromBase64_run (base64Data originalFormat activityId : string) (w : World) :
  uploadImageFromBase64 env cfg base64Data originalFormat activityId w
  = if negb (s3Client_configured cfg) then (Ok None, w)
    else if negb (Js.nonempty base64Data) || negb (Js.nonempty originalFormat)
            || negb (Js.nonempty activityId) then (Ok None, w)
    else (Ok (if s3_upload_fails env (clock w) then None
              else Some (constructS3Url cfg (upload_key env cfg activityId w))),
          noted [EvS3Put (upload_key env cfg activityId w)] w).
Proof.
  unfold uploadImageFromBase64.
  destruct (negb (s3Client_configured cfg)); [reflexivity|].
  destruct (negb (Js.nonempty base64Data) || negb (Js.nonempty originalFormat)
            || negb (Js.nonempty activityId)); [reflexivity|].
  unfold try_catch. rewrite (bind_ok _ _ w w w) by reflexivity.
  fold (upload_key env cfg activityId w).
  rewrite (bind_ok _ _ _ _ _ (interact_run _ _)).
  destruct (s3_upload_fails env (clock w)); reflexivity.
Qed.

End Offload.

(** X18. With the image splitter of utils/image-processor.ts,
    [offload_photo], the block of the cache writers that moves an embedded
    photo to the object store, never throws; it returns the record as it
    was, or, when the photo starts with one of the six markers and has
    content, the upload under a fresh key of this activity was accepted and
    the public URL is not empty, the record with that URL as its photo. *)
Theorem offload_photo_outcome (env : Env) (cfg : Config) (activityId : string)
    (structuredActivity : list (string * json)) (w : World) :
  (forall dataUrl, extractBase64Image env dataUrl = Ok (Image.extractBase64Image dataUrl)) ->
  exists result w',
    offload_photo env cfg activityId structuredActivity w = (Ok result, w') /\
    (result = structuredActivity \/
     exists pfx format content,
       In (pfx, format) Image.markers /\
       Obj.get "photo" structuredActivity = Some (JStr (pfx +:+ content)) /\
       content <> "" /\
       w' = noted [EvS3Put (upload_key env cfg activityId w)] w /\
       s3_upload_fails env (clock w) = false /\
       constructS3Url cfg (upload_key env cfg activityId w) <> "" /\
       result = Obj.set "photo" (JStr (constructS3Url cfg (upload_key env cfg activityId w)))
                        structuredActivity).
Proof.
  intros Himages. unfold offload_photo.
  destruct (Obj.get "photo" structuredActivity) as [[| | |photo| |]|] eqn:Ephoto;
    try (exists structuredActivity, w; split; [reflexivity | left; reflexivity]).
  destruct (Js.nonempty photo && Js.startsWith photo "data:image");
    [|exists structuredActivity, w; split; [reflexivity | left; reflexivity]].
  rewrite Himages.
  destruct (Image.extractBase64Image photo) as [[content format]|] eqn:Eimg;
    [|exists structuredActivity, w; split; [reflexivity | left; reflexivity]].
  assert (Hsplit : exists pfx, In (pfx, format) Image.markers /\ photo = pfx +:+ content).
  { unfold Image.extractBase64Image in Eimg.
    destruct (negb _) in Eimg; [discriminate|]. exact (first_marker_sound _ _ _ _ Eimg). }
  destruct Hsplit as (pfx & Hpfx & ->).
  unfold bind. rewrite uploadImageFromBase64_run.
  destruct (negb (s3Client_configured cfg));
    [exists structuredActivity, w; split; [reflexivity | left; reflexivity]|].
  destruct (Js.nonempty content) eqn:Hcontent; cbn [negb orb];
    [|exists structuredActivity, w; split; [reflexivity | left; reflexivity]].
  destruct (negb (Js.nonempty format) || negb (Js.nonempty activityId));
    [exists structuredActivity, w; split; [reflexivity | left; reflexivity]|].
  destruct (s3_upload_fails env (clock w)) eqn:Hup;
    [eexists _, _; split; [reflexivity | left; reflexivity]|].
  cbn [Js.truthy_str].
  destruct (Js.nonempty (constructS3Url cfg (upload_key env cfg activityId w))) eqn:Hurl;
    [|eexists _, _; split; [reflexivity | left; reflexivity]].
  eexists _, _. split; [reflexivity|]. right. exists pfx, format, content.
  split; [exact Hpfx|]. split; [reflexivity|].
  split; [intros ->; discriminate Hcontent|].
  split; [reflexivity|]. split; [reflexivity|].
  split; [intros E; rewrite E in Hurl; discriminate Hurl | reflexivity].
Qed.

Lemma offload_photo_outcome_witness :
  exists result w',
    offload_photo DemoS3.imaging DemoStore.cfg "7" DemoS3.with_photo Demo.cold
    = (Ok result, w') /\
    (result = DemoS3.with_photo \/
     exists pfx format content,
       In (pfx, format) Image.markers /\
       Obj.get "photo" DemoS3.with_photo = Some (JStr (pfx +:+ content)) /\
       content <> "" /\
       w' = noted [EvS3Put (upload_key DemoS3.imaging DemoStore.cfg "7" Demo.cold)] Demo.cold /\
       s3_upload_fails DemoS3.imaging (clock Demo.cold) = false /\
       constructS3Url DemoStore.cfg (upload_key DemoS3.imaging DemoStore.cfg "7" Demo.cold)
       <> "" /\
       result = Obj.set "photo"
                  (JStr (constructS3Url DemoStore.cfg
                           (upload_key DemoS3.imaging DemoStore.cfg "7" Demo.cold)))
                  DemoS3.with_photo).
Proof.
  apply (offload_photo_outcome DemoS3.imaging DemoStore.cfg "7" DemoS3.with_photo Demo.cold).
  intros dataUrl. reflexivity.
Defined.

(** ** services/cache-manager.ts: the background jobs *)

Section JobsNeverThrow.
Context (env : Env) (cfg : Config).

Lemma nothrow_Date_now_ms : nothrow (Date_now_ms env).
Proof. unfold Date_now_ms. nothrow_go. Qed.

Lemma nothrow_population_job (id : string) : nothrow (init_job env cfg id).
Proof. unfold init_job. nothrow_go. Qed.

Lemma nothrow_stale_job (now updateIntervalMs : Z) (id : string) :
  nothrow (stale_job env cfg now updateIntervalMs id).
Proof. unfold stale_job. nothrow_go. Qed.

End JobsNeverThrow.


(** ** services/cache-manager.ts: processAndCacheActivity *)

Section ProcessReturns.
Context (env : Env) (cfg : Config) (activityId : string).
Context (Hclient : redisClient_configured cfg = true).

Lemma store_and_return (x : json) (w1 : World) :
  exists w',
    (setActivityData env cfg activityId x ;;; ret x) w1 = (Ok x, w') /\
    just_cached env (ACTIVITY_KEY_PREFIX +:+ activityId) x w'.
Proof.
  unfold setActivityData.
  rewrite (bind_ok _ _ _ _ _ (set_stringified_run env cfg _ _ _ Hclient)).
  eexists. split; [reflexivity|].
  destruct (redis_fails env (clock w1)) eqn:Hf; split.
  - apply last_snoc.
  - intros Hnone. rewrite Hnone in Hf. discriminate.
  - apply last_snoc.
  - intros _. apply lookup_insert_eq.
Qed.

Lemma new_Date_toISOString_run (w : World) :
  new_Date_toISOString env w = (Ok (toISOString_now env (clock w)), after tick w).
Proof. reflexivity. Qed.

Lemma processAndCacheActivity_try_caches (w0 : World) :
  exists x w',
    processAndCacheActivity_try env cfg activityId w0 = (Ok x, w') /\
    just_cached env (ACTIVITY_KEY_PREFIX +:+ activityId) x w'.
Proof.
  unfold processAndCacheActivity_try, try_catch.
  match goal with |- context [match ?body w0 with _ => _ end] =>
    destruct (body w0) as [[x|e] w1] eqn:Ebody end.
  - exists x, w1. split; [reflexivity|].
    destruct (negb (Js.truthy_str (API_USERNAME cfg))
              || negb (Js.truthy_str (API_PASSWORD cfg))); [discriminate|].
    apply bind_ok_inv in Ebody as (activityJson & w2 & _ & Ebody).
    apply bind_ok_inv in Ebody as (structured & w3 & _ & Ebody).
    apply bind_ok_inv in Ebody as (now & w4 & _ & Ebody).
    destruct (store_and_return (JObj (Obj.set "lastCheck" (JStr now) structured)) w4)
      as (w' & Hrun & Hcached).
    rewrite Hrun in Ebody. injection Ebody as <- <-. exact Hcached.
  - rewrite (bind_ok _ _ _ _ _ (new_Date_toISOString_run w1)).
    destruct (store_and_return
                (JObj [("lastCheck", JStr (toISOString_now env (clock w1)));
                       ("error", JStr "Failed to fetch or process")]) (after tick w1))
      as (w' & Hrun & Hcached).
    eexists _, w'. split; [exact Hrun | exact Hcached].
Qed.

End ProcessReturns.

(** X20. [processAndCacheActivity] returns what it caches: with a
    configured Redis client it always returns a record, the last thing it
    did was to write that record under the activity's key, and when Redis
    rejects nothing the cache then holds the text of the returned record.
    This holds on every path, the error record of the catch block
    included. *)
Theorem processAndCacheActivity_caches_what_it_returns
    (env : Env) (cfg : Config) (activityId : string) (w : World) :
  redisClient_configured cfg = true ->
  exists x w',
    processAndCacheActivity env cfg activityId w = (Ok x, w') /\
    just_cached env (ACTIVITY_KEY_PREFIX +:+ activityId) x w'.
Proof.
  intros Hclient. unfold processAndCacheActivity.
  rewrite (bind_ok _ _ w (after (note (EvProcess activityId)) w) tt) by reflexivity.
  apply processAndCacheActivity_try_caches, Hclient.
Qed.

Lemma processAndCacheActivity_caches_what_it_returns_witness :
  exists x w',
    processAndCacheActivity DemoStore.env DemoStore.cfg "4" DemoStore.world = (Ok x, w') /\
    just_cached DemoStore.env (ACTIVITY_KEY_PREFIX +:+ "4") x w'.
Proof.
  apply (processAndCacheActivity_caches_what_it_returns DemoStore.env DemoStore.cfg "4"
           DemoStore.world).
  reflexivity.
Defined.

(** X21. Without [API_USERNAME] or [API_PASSWORD], [processAndCacheActivity]
    asks the portal nothing and reads no file: it stores and returns the
    error record with the current time, and its only interactions are the
    processing itself and, with a configured client, that one write. *)
Theorem processAndCacheActivity_without_credentials
    (env : Env) (cfg : Config) (activityId : string) (w : World) :
  negb (Js.truthy_str (API_USERNAME cfg)) || negb (Js.truthy_str (API_PASSWORD cfg)) = true ->
  let record := error_record (toISOString_now env (clock w)) in
  let w' := after (processAndCacheActivity env cfg activityId) w in
  result (processAndCacheActivity env cfg activityId) w = Ok record /\
  new_effects w w'
  = EvProcess activityId ::
      (if redisClient_configured cfg
       then [EvRedisSet (ACTIVITY_KEY_PREFIX +:+ activityId) (JSON_stringify env record)]
       else []).
Proof.
  intros Hcred. unfold result, after, processAndCacheActivity, processAndCacheActivity_try.
  rewrite (bind_ok _ _ w (after (note (EvProcess activityId)) w) tt) by reflexivity.
  rewrite Hcred. unfold try_catch, throw.
  rewrite (bind_ok _ _ _ _ _ (new_Date_toISOString_run env _)).
  unfold setActivityData, set_stringified, error_record.
  destruct (redisClient_configured cfg); cbn [negb].
  - unfold bind, try_catch. rewrite redis_set_run.
    destruct (redis_fails env _); cbn [fst snd];
      (split; [reflexivity|]); unfold new_effects; simpl;
      rewrite <- app_assoc, drop_app_length; reflexivity.
  - split; [reflexivity|].
    unfold new_effects. simpl. apply drop_app_length.
Qed.

Lemma processAndCacheActivity_without_credentials_witness :
  let w' := after (processAndCacheActivity DemoStore.env cfg_no_password "4")
              DemoStore.world in
  result (processAndCacheActivity DemoStore.env cfg_no_password "4") DemoStore.world
  = Ok (error_record "1970-01-01T02:00:00.000Z") /\
  new_effects DemoStore.world w'
  = [EvProcess "4";
     EvRedisSet "activity:4"
       (Demo.JSON_text (error_record "1970-01-01T02:00:00.000Z"))].
Proof.
  apply (processAndCacheActivity_without_credentials DemoStore.env cfg_no_password "4"
           DemoStore.world).
  reflexivity.
Defined.

(** ** index.ts: the routes *)

Section RouteFacts.
Context (env : Env) (cfg : Config).

Lemma get_parsed_world (key : string) (w w1 : World) (v : json) :
  get_parsed env cfg key w = (Ok v, w1) ->
  v <> JNull ->
  w1 = noted [EvRedisGet key] w.
Proof.
  unfold get_parsed. destruct (redisClient_configured cfg); cbn [negb].
  - unfold try_catch, bind. rewrite redis_get_run.
    destruct (redis_fails env (clock w)); [intros [= <- _]; congruence|].
    destruct (redis w !! key) as [text|]; simpl; [|intros [= <- _]; congruence].
    destruct (Js.nonempty text); [|intros [= <- _]; congruence].
    unfold JSON_parse_str. destruct (JSON_parse env text); intros [= <- <-]; reflexivity.
  - intros [= <- _]. congruence.
Qed.

Lemma fetchProcessAndStoreActivity_outcome (activityId : string) (w w' : World)
    (x : json) (st : Z) :
  fetchProcessAndStoreActivity env cfg activityId w = (Ok (x, st), w') ->
  (st = 404 /\ exists now, x = empty_record now) \/
  (st = 200 /\ exists fields, x = JObj fields).
Proof.
  unfold fetchProcessAndStoreActivity. intros H.
  apply bind_ok_inv in H as (activityJson & w1 & _ & H).
  destruct (negb (truthy activityJson)).
  - apply bind_ok_inv in H as (now & w2 & _ & H).
    apply bind_ok_inv in H as ([] & w3 & _ & H).
    injection H as <- <- _. left. split; [reflexivity | exists now; reflexivity].
  - apply bind_ok_inv in H as (structured & w2 & _ & H).
    apply bind_ok_inv in H as (structuredActivity & w3 & _ & H).
    apply bind_ok_inv in H as (now & w4 & _ & H).
    apply bind_ok_inv in H as ([] & w5 & _ & H).
    injection H as <- <- _. right. split; [reflexivity | eexists; reflexivity].
Qed.

Lemma assign_cache_object (v : string) (fields : list (string * json)) (w : World) :
  assign_cache v (JObj fields) w = (Ok (JObj (Obj.set "cache" (JStr v) fields)), w).
Proof. reflexivity. Qed.

(** The miss branch of the activity route: its status, and the [cache]
    marker of its body. *)
Lemma route_activity_miss (activityId : string) (w w' : World) (r : Response) :
  (live <- fetchProcessAndStoreActivity env cfg activityId ;;
   liveActivity <- assign_cache "MISS" (fst live) ;;
   if (snd live =? 404) && (length (payload_keys liveActivity) =? 0)%nat then
     ret (mkResponse 404
            (error_with ("Activity " +:+ activityId +:+ " not found.") liveActivity))
   else ret (mkResponse (snd live) liveActivity)) w = (Ok r, w') ->
  (status r = 200 \/ status r = 404) /\
  prop "cache" (body r) = Some (JStr "MISS").
Proof.
  intros H.
  apply bind_ok_inv in H as ([x st] & w1 & Hlive & H).
  apply fetchProcessAndStoreActivity_outcome in Hlive
    as [(-> & now & ->) | (-> & fields & ->)]; cbn [fst snd] in H.
  - unfold empty_record in H. rewrite (bind_ok _ _ _ _ _ (assign_cache_object _ _ _)) in H.
    vm_compute in H. injection H as <- _. split; [right; reflexivity | reflexivity].
  - rewrite (bind_ok _ _ _ _ _ (assign_cache_object _ _ _)) in H.
    cbn [Z.eqb andb] in H. change (200 =? 404) with false in H. cbn [andb] in H.
    injection H as <- _. split; [left; reflexivity|].
    apply Obj_get_set_eq.
Qed.

End RouteFacts.

(** X22. The activity route always answers, with status 200, 400, 404 or
    500; it answers 400 exactly when the id is not one to four digits, and
    then it has touched nothing: no cache read, no request, no write. *)
Theorem route_activity_always_responds
    (env : Env) (cfg : Config) (activityId : string) (w : World) :
  exists r w',
    route_activity env cfg activityId w = (Ok r, w') /\
    In (status r) [200; 400; 404; 500] /\
    (status r = 400 <-> valid_activity_id activityId = false) /\
    (valid_activity_id activityId = false -> w' = w).
Proof.
  unfold route_activity.
  destruct (valid_activity_id activityId) eqn:Hvalid; cbn [negb].
  2:{ eexists _, w. split; [reflexivity|]. simpl. intuition. }
  destruct (negb (Js.truthy_str (API_USERNAME cfg))
            || negb (Js.truthy_str (API_PASSWORD cfg))).
  { eexists _, w. split; [reflexivity|]. simpl. intuition discriminate. }
  unfold try_catch.
  match goal with |- context [match ?m w with _ => _ end] =>
    destruct (m w) as [[r|e] w1] eqn:E end.
  2:{ eexists _, w1. split; [reflexivity|]. simpl. intuition discriminate. }
  exists r, w1. split; [reflexivity|].
  apply bind_ok_inv in E as (cachedActivity & w2 & _ & E).
  destruct (isValidCacheEntry cachedActivity).
  - apply bind_ok_inv in E as (hit & w3 & _ & E). injection E as <- _.
    simpl. intuition discriminate.
  - apply route_activity_miss in E as [[-> | ->] _]; simpl; intuition discriminate.
Qed.

(** X23. A body marked [cache: "HIT"] comes from the cache alone: the
    route then answered 200 after exactly one interaction, the read of the
    activity's key; the body is the stored record, an object that is not
    marked as an error and has a key besides [lastCheck], [cache] and
    [source], with the marker set.  So neither the error record nor the
    record of an empty activity is ever served as a hit. *)
Theorem route_activity_hit_is_served_from_cache
    (env : Env) (cfg : Config) (activityId : string) (w w' : World) (r : Response) :
  route_activity env cfg activityId w = (Ok r, w') ->
  prop "cache" (body r) = Some (JStr "HIT") ->
  status r = 200 /\
  w' = noted [EvRedisGet (ACTIVITY_KEY_PREFIX +:+ activityId)] w /\
  exists text fields,
    redis w !! (ACTIVITY_KEY_PREFIX +:+ activityId) = Some text /\
    JSON_parse env text = Some (JObj fields) /\
    truthy_opt (Obj.get "error" fields) = false /\
    payload_keys (JObj fields) <> [] /\
    body r = JObj (Obj.set "cache" (JStr "HIT") fields).
Proof.
  unfold route_activity.
  destruct (negb (valid_activity_id activityId)); [intros [= <- _]; discriminate|].
  destruct (negb (Js.truthy_str (API_USERNAME cfg))
            || negb (Js.truthy_str (API_PASSWORD cfg))); [intros [= <- _]; discriminate|].
  unfold try_catch.
  match goal with |- context [match ?m w with _ => _ end] =>
    destruct (m w) as [[r0|e] w1] eqn:E end; [|intros [= <- _]; discriminate].
  intros [= <- <-] Hhit.
  apply bind_ok_inv in E as (cachedActivity & w2 & Hread & E).
  destruct (isValidCacheEntry cachedActivity) eqn:Hvalid.
  2:{ apply route_activity_miss in E as [_ Hmiss]. congruence. }
  apply bind_ok_inv in E as (hit & w3 & Hassign & E). injection E as <- <-.
  cbn [body status] in *.
  destruct cachedActivity as [| | | |items|fields]; try discriminate Hassign.
  { injection Hassign as <- _. discriminate Hhit. }
  injection Hassign as <- <-.
  unfold getActivityData in Hread.
  pose proof (get_parsed_world env cfg _ _ _ _ Hread ltac:(discriminate)) as ->.
  apply get_parsed_value in Hread as [Hnull | (_ & text & Htext & Hparse)];
    [discriminate Hnull|].
  split; [reflexivity|]. split; [reflexivity|].
  exists text, fields. split; [exact Htext|]. split; [exact Hparse|].
  unfold isValidCacheEntry in Hvalid.
  apply andb_prop in Hvalid as [Hvalid Hkeys]. apply andb_prop in Hvalid as [_ Herr].
  apply negb_true_iff in Herr.
  split; [exact Herr|]. split; [|reflexivity].
  intros Hnone. rewrite Hnone in Hkeys. discriminate Hkeys.
Qed.

Lemma route_activity_hit_is_served_from_cache_witness :
  let w' := noted [EvRedisGet "activity:1"] DemoStore.world in
  let r := mkResponse 200
             (JObj [("id", JStr "1"); ("name", JStr "Chess");
                    ("photo", JStr DemoStore.photo_url);
                    ("lastCheck", JStr "1970-01-01T00:00:00.000Z");
                    ("cache", JStr "HIT")]) in
  status r = 200 /\
  w' = noted [EvRedisGet (ACTIVITY_KEY_PREFIX +:+ "1")] DemoStore.world /\
  exists text fields,
    redis DemoStore.world !! (ACTIVITY_KEY_PREFIX +:+ "1") = Some text /\
    JSON_parse DemoStore.env text = Some (JObj fields) /\
    truthy_opt (Obj.get "error" fields) = false /\
    payload_keys (JObj fields) <> [] /\
    body r = JObj (Obj.set "cache" (JStr "HIT") fields).
Proof.
  apply (route_activity_hit_is_served_from_cache DemoStore.env DemoStore.cfg "1"
           DemoStore.world);
    vm_compute; reflexivity.
Defined.

Section StaffRoute.
Context (env : Env) (cfg : Config).

Lemma steps_route_staffs (allowed : Effect -> Prop) :
  (forall ev, io_effect ev -> allowed ev) ->
  (forall ev, read_effect ev -> allowed ev) ->
  (forall key data, staff_miss_record key data ->
     allowed (EvRedisSet key (JSON_stringify env data))) ->
  steps (extends allowed) (route_staffs env cfg).
Proof.
  intros Hio Hrd Hwr.
  pose proof (extends_closed allowed) as HR.
  pose proof (extends_cookie_closed allowed) as HC.
  assert (Hset : forall key data, staff_miss_record key data ->
            steps (extends allowed) (redis_set env key (JSON_stringify env data))).
  { intros key data H. apply steps_redis_set_extends, Hwr, H. }
  pose proof (steps_get_parsed env cfg _ _ HR Hrd) as Hget.
  pose proof (steps_fetchActivityData env _ _ HR Hio HC) as Hfetch.
  pose proof (steps_run_structStaffData env _ _ HR) as Hstruct.
  pose proof (steps_new_Date_toISOString env _ _ HR) as Hdate.
  unfold route_staffs.
  destruct (negb (Js.truthy_str (API_USERNAME cfg))
            || negb (Js.truthy_str (API_PASSWORD cfg))); [steps_go|].
  eapply steps_try; [exact HR | | intros e; steps_go].
  eapply steps_bind; [exact HR | apply Hget | intros cachedStaffs].
  destruct (truthy cachedStaffs && truthy_opt (prop "lastCheck" cachedStaffs)).
  { unfold assign_cache. steps_go. }
  eapply steps_bind; [exact HR | apply Hfetch | intros activityJson].
  destruct (truthy activityJson); [|steps_go].
  eapply steps_bind; [exact HR | apply Hstruct | intros staffObject].
  eapply steps_bind; [exact HR | apply Hdate | intros iso].
  eapply steps_bind; [exact HR | | intros _; steps_go].
  unfold setStaffData.
  apply (steps_set_stringified env cfg _ _ HR staff_miss_record Hset).
  split; [reflexivity|]. eexists _, iso. split; [reflexivity|]. split.
  - rewrite Obj_get_set_ne by discriminate. apply Obj_get_set_eq.
  - apply Obj_get_set_eq.
Qed.

End StaffRoute.

(** X24. The staff route always answers, with status 200, 404 or 500, and
    whatever it writes to the cache it writes under the staff key: an object
    that carries a [lastCheck] time stamp and, because the marker is set
    before the record is stored, [cache: "MISS"]. *)
Theorem route_staffs_stores_the_miss_record (env : Env) (cfg : Config) (w : World) :
  exists r w',
    route_staffs env cfg w = (Ok r, w') /\
    In (status r) [200; 404; 500] /\
    Forall (staff_miss_write env) (new_effects w w').
Proof.
  destruct (route_staffs env cfg w) as [o w'] eqn:E.
  assert (Hw : Forall (staff_miss_write env) (new_effects w w')).
  { apply extends_new_effects.
    refine (steps_run _ _ _ _ _ (steps_route_staffs env cfg (staff_miss_write env) _ _ _) E).
    - intros [] H; (exact I || destruct H).
    - intros [] H; (exact I || destruct H).
    - intros key data (-> & fields & ts & -> & Hl & Hc).
      split; [reflexivity|]. exists fields, ts. auto. }
  revert E. unfold route_staffs.
  destruct (negb (Js.truthy_str (API_USERNAME cfg))
            || negb (Js.truthy_str (API_PASSWORD cfg))).
  { intros [= <- <-]. eexists _, _. split; [reflexivity|]. split; [|exact Hw].
    simpl. auto. }
  unfold try_catch.
  match goal with |- context [match ?m w with _ => _ end] =>
    destruct (m w) as [[r|e] w1] eqn:Ebody end.
  2:{ intros [= <- <-]. eexists _, _. split; [reflexivity|]. split; [|exact Hw].
      simpl. auto. }
  intros [= <- <-]. exists r, w1. split; [reflexivity|]. split; [|exact Hw].
  apply bind_ok_inv in Ebody as (cachedStaffs & w2 & _ & Ebody).
  destruct (truthy cachedStaffs && truthy_opt (prop "lastCheck" cachedStaffs)).
  - apply bind_ok_inv in Ebody as (hit & w3 & _ & Ebody). injection Ebody as <- _.
    simpl. auto.
  - apply bind_ok_inv in Ebody as (activityJson & w3 & _ & Ebody).
    destruct (truthy activityJson).
    + apply bind_ok_inv in Ebody as (staffObject & w4 & _ & Ebody).
      apply bind_ok_inv in Ebody as (iso & w5 & _ & Ebody).
      apply bind_ok_inv in Ebody as ([] & w6 & _ & Ebody). injection Ebody as <- _.
      simpl. auto.
    + injection Ebody as <- _. simpl. auto.
Qed.

(** X25. The staff route serves a cached record that has a [lastCheck] as
    it is, whatever its age: it answers 200 with the record and the marker
    [cache: "HIT"] in the world that the one read of the cache left, without
    a request to the portal and without a write. *)
Theorem route_staffs_serves_cached_record
    (env : Env) (cfg : Config) (w w1 : World) (cachedStaffs : json) :
  Js.truthy_str (API_USERNAME cfg) = true ->
  Js.truthy_str (API_PASSWORD cfg) = true ->
  getStaffData env cfg w = (Ok cachedStaffs, w1) ->
  has_lastCheck cachedStaffs ->
  w1 = noted [EvRedisGet STAFF_KEY] w /\
  exists fields,
    cachedStaffs = JObj fields /\
    route_staffs env cfg w
    = (Ok (mkResponse 200 (JObj (Obj.set "cache" (JStr "HIT") fields))), w1).
Proof.
  intros Hu Hp Hread Hchecked.
  destruct (has_lastCheck_object _ Hchecked) as (fields & -> & _).
  split; [exact (get_parsed_world env cfg _ _ _ _ Hread ltac:(discriminate))|].
  exists fields. split; [reflexivity|].
  unfold route_staffs. rewrite Hu, Hp. cbn [negb orb].
  apply try_ok. rewrite (bind_ok _ _ _ _ _ Hread).
  destruct Hchecked as [Ht Hl]. rewrite Ht, Hl. reflexivity.
Qed.

Lemma route_staffs_serves_cached_record_witness :
  noted [EvRedisGet "staffs:all"] DemoStaff.world
  = noted [EvRedisGet STAFF_KEY] DemoStaff.world /\
  exists fields,
    DemoStore.staff = JObj fields /\
    route_staffs DemoStore.env DemoStore.cfg DemoStaff.world
    = (Ok (mkResponse 200 (JObj (Obj.set "cache" (JStr "HIT") fields))),
       noted [EvRedisGet "staffs:all"] DemoStaff.world).
Proof.
  apply (route_staffs_serves_cached_record DemoStore.env DemoStore.cfg DemoStaff.world
           (noted [EvRedisGet "staffs:all"] DemoStaff.world) DemoStore.staff).
  - reflexivity.
  - reflexivity.
  - vm_compute. reflexivity.
  - split; reflexivity.
Defined.

(** ** services/cache-manager.ts: a staff refresh that is not due *)

(** X26. When the cached staff record needs no update, or the credentials
    or the staff activity id are missing, the staff refresh reads the cache
    and the clock and does nothing else: no request to the portal and no
    write. *)
Theorem staff_refresh_not_due
    (env : Env) (cfg : Config) (forceUpdate : bool) (w w1 : World) (cachedStaffData : json) :
  getStaffData env cfg w = (Ok cachedStaffData, w1) ->
  staff_needs_update env forceUpdate (Date_now env (clock w1))
    (STAFF_UPDATE_INTERVAL_MINS cfg * 60 * 1000) cachedStaffData = false
  \/ staff_credentials cfg = false ->
  initializeOrUpdateStaffCache env cfg forceUpdate w = (Ok tt, after tick w1) /\
  untouched_store w (after tick w1) /\
  Forall (fun ev => ~ io_effect ev) (new_effects w (after tick w1)).
Proof.
  intros Hread Hskip.
  assert (Hrun : initializeOrUpdateStaffCache env cfg forceUpdate w = (Ok tt, after tick w1)).
  { unfold initializeOrUpdateStaffCache. apply try_ok.
    rewrite (bind_ok _ _ _ _ _ Hread).
    rewrite (bind_ok _ _ w1 (after tick w1) (Date_now env (clock w1))) by reflexivity.
    destruct Hskip as [-> | ->]; [reflexivity|].
    rewrite andb_false_r. reflexivity. }
  split; [exact Hrun|].
  assert (Hw1 : w1 = w \/ w1 = noted [EvRedisGet STAFF_KEY] w).
  { clear -Hread. unfold getStaffData, get_parsed in Hread.
    destruct (redisClient_configured cfg); cbn [negb] in Hread.
    - right. unfold try_catch, bind in Hread. rewrite redis_get_run in Hread.
      destruct (redis_fails env (clock w)); [injection Hread as _ <-; reflexivity|].
      destruct (redis w !! STAFF_KEY) as [text|]; simpl in Hread;
        [|injection Hread as _ <-; reflexivity].
      destruct (Js.nonempty text); [|injection Hread as _ <-; reflexivity].
      unfold JSON_parse_str in Hread.
      destruct (JSON_parse env text); injection Hread as _ <-; reflexivity.
    - left. injection Hread as _ <-. reflexivity. }
  split.
  - destruct Hw1 as [-> | ->]; (split; [reflexivity|]).
    + exists []. split; [simpl; rewrite app_nil_r; reflexivity | constructor].
    + exists [EvRedisGet STAFF_KEY]. split; [reflexivity | repeat constructor].
  - destruct Hw1 as [-> | ->]; unfold new_effects; simpl.
    + rewrite drop_all. constructor.
    + rewrite drop_app_length. repeat constructor. intros [].
Qed.

Lemma staff_refresh_not_due_witness :
  let w1 := noted [EvRedisGet "staffs:all"] DemoStaff.world in
  initializeOrUpdateStaffCache DemoStore.env cfg_no_password true DemoStaff.world
  = (Ok tt, after tick w1) /\
  untouched_store DemoStaff.world (after tick w1) /\
  Forall (fun ev => ~ io_effect ev) (new_effects DemoStaff.world (after tick w1)).
Proof.
  apply (staff_refresh_not_due DemoStore.env cfg_no_password true DemoStaff.world
           (noted [EvRedisGet "staffs:all"] DemoStaff.world) DemoStore.staff).
  - vm_compute. reflexivity.
  - right. reflexivity.
Defined.

(** ** The ids of the scan and of the route *)

Lemma small_ids_valid :
  forallb (fun i : Z => valid_activity_id (pretty i)) (seqZ 0 10000) = true.
Proof. vm_compute. reflexivity. Qed.

(** X27. The ids that the population pass writes for the numbers 0 to
    9999, rendered as [String(i)] does, all pass the activity route's
    one-to-four-digit test; the rendering of a negative number does not. *)
Theorem scanned_ids_pass_the_route_test (i : Z) :
  (0 <= i <= 9999 -> valid_activity_id (pretty i) = true) /\
  (i < 0 -> valid_activity_id (pretty i) = false).
Proof.
  split.
  - intros Hi. pose proof small_ids_valid as H. rewrite forallb_forall in H.
    apply H. apply list_elem_of_In, elem_of_seqZ. lia.
  - intros Hi. destruct i as [|p|p]; try lia. reflexivity.
Qed.

Lemma scanned_ids_pass_the_route_test_witness :
  valid_activity_id (pretty 3350) = true /\ valid_activity_id (pretty (-1)) = false.
Proof.
  split.
  - apply (proj1 (scanned_ids_pass_the_route_test 3350)). lia.
  - apply (proj2 (scanned_ids_pass_the_route_test (-1))). lia.
Defined.

(** ** services/cache-manager.ts: what the sweep touches *)

Section Sweep.
Context (env : Env) (cfg : Config) (keys : list string).

Let allowed : Effect -> Prop := touches_only keys.

Lemma touches_only_io (ev : Effect) : io_effect ev -> allowed ev.
Proof. destruct ev; intros H; (exact I || destruct H). Qed.

Lemma touches_only_read (ev : Effect) : read_effect ev -> allowed ev.
Proof. destruct ev; intros H; (exact I || destruct H). Qed.

Lemma steps_sweep_job (now updateIntervalMs : Z) (key : string) :
  In key keys ->
  steps (extends allowed) (stale_job env cfg now updateIntervalMs (activityId_of_key key)).
Proof.
  intros Hin.
  pose proof (extends_closed allowed) as HR.
  pose proof (extends_cookie_closed allowed) as HC.
  assert (Hset : forall k data, sweep_storable keys k data ->
            steps (extends allowed) (redis_set env k (JSON_stringify env data))).
  { intros k data H. apply steps_redis_set_extends. exact H. }
  pose proof (steps_get_parsed env cfg _ _ HR touches_only_read) as Hget.
  assert (Hproc : steps (extends allowed)
                    (processAndCacheActivity env cfg (activityId_of_key key))).
  { apply (steps_processAndCacheActivity env cfg _ _ HR HC touches_only_io
             touches_only_read (sweep_storable keys) Hset).
    - intros fields ts _. unfold sweep_storable.
      apply (in_map (fun k => ACTIVITY_KEY_PREFIX +:+ activityId_of_key k)), Hin.
    - apply (in_map activityId_of_key), Hin. }
  unfold stale_job, getActivityData. steps_go.
Qed.

Lemma steps_sweep_jobs (now updateIntervalMs : Z) (todo : list string) :
  (forall key, In key todo -> In key keys) ->
  steps (extends allowed)
    (for_each (fun key => stale_job env cfg now updateIntervalMs (activityId_of_key key))
              todo).
Proof.
  pose proof (extends_closed allowed) as HR.
  induction todo as [|key todo IH]; intros Hsub; cbn [for_each]; [steps_go|].
  eapply steps_bind; [exact HR | | intros _].
  - apply steps_sweep_job, Hsub. left. reflexivity.
  - apply IH. intros k Hk. apply Hsub. right. exact Hk.
Qed.

End Sweep.

(** X28. The staleness sweep touches only what its scan found: every
    activity it processes is the activity of a scanned key, and every write
    to the cache goes to the key rebuilt from the id of a scanned key;
    whatever the cleanup, the portal and the object store do in between. *)
Theorem sweep_touches_only_scanned_entries
    (env : Env) (cfg : Config) (w w1 : World) (keys : list string) :
  getAllActivityKeys env cfg (after (Date_now_ms env) w) = (Ok keys, w1) ->
  Forall (touches_only keys) (new_effects w (after (updateStaleClubs env cfg) w)).
Proof.
  intros Hkeys. apply extends_new_effects.
  pose proof (extends_closed (touches_only keys)) as HR.
  pose proof (extends_cookie_closed (touches_only keys)) as HC.
  unfold after, updateStaleClubs.
  rewrite (bind_ok _ _ w (after (Date_now_ms env) w) (Date_now env (clock w)))
    by reflexivity.
  rewrite (bind_ok _ _ _ _ _ Hkeys).
  eapply (closed_trans _ _ HR); [apply (closed_tick _ _ HR)|].
  eapply (closed_trans _ _ HR).
  { refine (steps_run _ _ _ _ _ _ Hkeys).
    apply (steps_getAllActivityKeys env cfg _ _ HR (touches_only_read keys)). }
  assert (Hrest : steps (extends (touches_only keys))
            (cleanupOrphanedS3Images env cfg ;;;
             for_each (fun key => stale_job env cfg (Date_now env (clock w))
                                    (CLUB_UPDATE_INTERVAL_MINS cfg * 60 * 1000)
                                    (activityId_of_key key)) keys)).
  { eapply steps_bind; [exact HR | | intros _; apply steps_sweep_jobs; auto].
    apply (steps_cleanupOrphanedS3Images env cfg _ _ HR (touches_only_read keys)).
    intros k _. exact I. }
  exact (Hrest w1).
Qed.

Lemma sweep_touches_only_scanned_entries_witness :
  Forall (touches_only ["activity:1"; "activity:2"; "activity:3"])
         (new_effects DemoStore.world
            (after (updateStaleClubs DemoStore.env DemoStore.cfg) DemoStore.world)).
Proof.
  apply (sweep_touches_only_scanned_entries DemoStore.env DemoStore.cfg DemoStore.world
           (noted [EvRedisScan] (after (Date_now_ms DemoStore.env) DemoStore.world))).
  vm_compute. reflexivity.
Defined.

(** ** services/cache-manager.ts: what the population pass processes *)

Lemma processed_app (evs evs' : list Effect) :
  processed (evs ++ evs') = (processed evs ++ processed evs')%list.
Proof. apply omap_app. Qed.

Lemma processed_none (evs : list Effect) : Forall not_process evs -> processed evs = [].
Proof.
  induction 1 as [|ev evs Hev _ IH]; [reflexivity|].
  destruct ev; try exact IH. destruct Hev.
Qed.

Lemma NoDup_scan_ids (cfg : Config) : NoDup (scan_ids cfg).
Proof.
  unfold scan_ids. apply (NoDup_fmap_2 _). apply NoDup_seqZ.
Qed.

Section PopulationOrder.
Context (env : Env) (cfg : Config).

Lemma init_job_processed (id : string) (w : World) :
  exists evs,
    trace (after (init_job env cfg id) w) = (trace w ++ evs)%list /\
    (processed evs = [] \/ processed evs = [id]).
Proof.
  unfold after, init_job.
  destruct (nothrow_getActivityData env cfg id w) as [cached Hres].
  unfold result in Hres.
  destruct (getActivityData env cfg id w) as [o w1] eqn:Hread. simpl in Hres. subst o.
  destruct (getActivityData_effects env cfg _ _ _ _ Hread) as (evs1 & Ht1 & Hn1).
  rewrite (bind_ok _ _ _ _ _ Hread).
  destruct (needs_init cached).
  - destruct (processAndCacheActivity_effects env cfg id w1) as (evs2 & Ht2 & Hn2).
    pose proof (nothrow_unit_run (processAndCacheActivity env cfg id ;;; ret tt) w1) as Hrun.
    rewrite Hrun by (apply nothrow_bind; [apply nothrow_processAndCacheActivity
                                         | intros; apply nothrow_ret]).
    rewrite after_bind_unit by apply nothrow_processAndCacheActivity. cbn [snd].
    exists (evs1 ++ EvProcess id :: evs2)%list. split.
    + change (after (ret tt) (after (processAndCacheActivity env cfg id) w1))
        with (after (processAndCacheActivity env cfg id) w1).
      rewrite Ht2, Ht1, <- app_assoc. reflexivity.
    + right. rewrite processed_app, (processed_none _ Hn1).
      change (processed (EvProcess id :: evs2)) with (id :: processed evs2).
      rewrite (processed_none _ Hn2). reflexivity.
  - exists evs1. split; [exact Ht1|]. left. apply processed_none, Hn1.
Qed.

Lemma population_jobs_processed (ids : list string) (w : World) :
  exists evs,
    trace (after (for_each (init_job env cfg) ids) w) = (trace w ++ evs)%list /\
    processed evs `sublist_of` ids.
Proof.
  revert w. induction ids as [|id ids IH]; intros w.
  - exists []. split; [symmetry; apply app_nil_r | constructor].
  - cbn [for_each]. rewrite after_bind_unit by apply nothrow_population_job.
    destruct (init_job_processed id w) as (evs1 & Ht1 & Hp1).
    destruct (IH (after (init_job env cfg id) w)) as (evs2 & Ht2 & Hp2).
    exists (evs1 ++ evs2)%list. split.
    + rewrite Ht2, Ht1, <- app_assoc. reflexivity.
    + rewrite processed_app. destruct Hp1 as [-> | ->]; simpl.
      * apply sublist_cons, Hp2.
      * apply sublist_skip, Hp2.
Qed.

End PopulationOrder.

(** X29. The population pass processes each activity at most once, and
    only activities of the configured range: among the activities processed
    during [initializeClubCache] no id occurs twice, and each is one of the
    ids [MIN_ACTIVITY_ID_SCAN .. MAX_ACTIVITY_ID_SCAN]. *)
Theorem population_pass_processes_once (env : Env) (cfg : Config) (w : World) :
  let ids := processed (new_effects w (after (initializeClubCache env cfg) w)) in
  NoDup ids /\ (forall id, In id ids -> In id (scan_ids cfg)).
Proof.
  intros ids.
  assert (Hsub : ids `sublist_of` scan_ids cfg).
  { destruct (population_jobs_processed env cfg (scan_ids cfg) w) as (evs & Htrace & Hsub).
    unfold ids, initializeClubCache, new_effects. rewrite Htrace, drop_app_length.
    exact Hsub. }
  split.
  - eapply sublist_NoDup; [apply NoDup_scan_ids | exact Hsub].
  - intros id Hin. apply list_elem_of_In.
    eapply elem_of_sublist; [|exact Hsub]. apply list_elem_of_In. exact Hin.
Qed.
